(** * hmr: hypo-methylated region finder (bsutils/methseg/hmr.cpp)

    A shallow embedding of the driver-visible pipeline stages of [hmr.cpp]:
    [load_cpgs], [separate_regions], [build_domains], [shuffle_cpg_sites],
    [get_posterior_cutoff] and the filter of [main], followed by the
    properties established about them.

    Conventions of the embedding

    - [size_t] values that are coordinates or counts are integers in
      [0, 2^64) (LP64); the one unsigned subtraction of the source is written
      with its wrap-around.  Positions in a vector are [nat].
    - [double] is IEEE-754 binary64, given by the inductive specification
      [spec_float] of the standard library with [prec = 53], [emax = 1024].
    - a [std::vector] is a [list]; [v[i]] outside the vector is undefined
      behaviour and is made explicit as the outcome [Undefined].
*)

From Stdlib Require Import ZArith List Bool String Ascii Lia Permutation Sorted.
From Stdlib Require Import DecimalString.
From Stdlib Require Import Floats.SpecFloat.
From stdpp Require Import base tactics option list.

Import ListNotations.
Local Open Scope Z_scope.

(** ** Outcomes of a C++ computation *)

(** A call either returns, throws an exception with its message, or has
    undefined behaviour (a read outside a vector, a conversion whose value
    does not fit the target type). *)
Inductive outcome (A : Type) : Type :=
  | Done (a : A)
  | Throws (msg : string)
  | Undefined.
Arguments Done {A} a.
Arguments Throws {A} msg.
Arguments Undefined {A}.

Definition obind {A B : Type} (m : outcome A) (k : A -> outcome B) : outcome B :=
  match m with
  | Done a => k a
  | Throws msg => Throws msg
  | Undefined => Undefined
  end.

Declare Scope outcome_scope.
Delimit Scope outcome_scope with outcome.
Notation "'do' x <- m ; k" := (obind m (fun x => k))
  (at level 10, x pattern, m at level 100, k at level 200) : outcome_scope.
Local Open Scope outcome_scope.

(** [v[i]] *)
Definition at_ {A : Type} (v : list A) (i : nat) : outcome A :=
  match v !! i with
  | Some x => Done x
  | None => Undefined
  end.

(** [for (size_t i = lo; i < lo + count; ++i) body], threading the state. *)
Fixpoint for_loop {S : Type} (body : nat -> S -> outcome S)
    (lo count : nat) (s : S) : outcome S :=
  match count with
  | O => Done s
  | Datatypes.S k => do s' <- body lo s; for_loop body (Datatypes.S lo) k s'
  end.

(** ** Machine types *)

Abbreviation size_t := Z (only parsing).
Definition SIZE_MAX : size_t := 2 ^ 64 - 1.
Definition is_size_t (x : Z) : Prop := 0 <= x <= SIZE_MAX.

(** Unsigned subtraction of two [size_t]. *)
Definition size_sub (a b : size_t) : size_t := (a - b) mod 2 ^ 64.

Abbreviation double := spec_float (only parsing).
Definition prec : Z := 53.
Definition emax : Z := 1024.

Definition dadd : double -> double -> double := SFadd prec emax.
Definition dsub : double -> double -> double := SFsub prec emax.
Definition dmul : double -> double -> double := SFmul prec emax.
Definition dlt : double -> double -> bool := SFltb.
Definition dle : double -> double -> bool := SFleb.
(** [a > b], [a >= b] *)
Definition dgt (a b : double) : bool := SFltb b a.
Definition dge (a b : double) : bool := SFleb b a.

(** Conversion of an integer to [double] (round to nearest, ties to even). *)
Definition double_of_Z (z : Z) : double := binary_normalize prec emax z 0 false.
(** The double [m * 2^e]. *)
Definition dyadic (m e : Z) : double := binary_normalize prec emax m e false.

Definition dbl_zero : double := S754_zero false.
Definition dbl_one : double := double_of_Z 1.

(** [numeric_limits<double>::max()]: the largest finite double. *)
Definition DBL_MAX : double := S754_finite false (2 ^ 53 - 1) 971.
(** [numeric_limits<double>::min()]: the smallest positive normalised
    double, [2^-1022]. *)
Definition DBL_MIN : double := S754_finite false (2 ^ 52) (-1074).

(** Truncation toward zero of a double, the value a conversion to an
    integer type takes when it fits. *)
Definition dtrunc (x : double) : option Z :=
  match x with
  | S754_zero _ => Some 0
  | S754_finite s m e =>
      (* the magnitude [m * 2^e], shifted right when [e] is negative *)
      let a := Z.shiftl (Zpos m) e in
      Some (if s then - a else a)
  | _ => None
  end.

(** [static_cast<size_t>(x)] *)
Definition size_t_of_double (x : double) : outcome size_t :=
  match dtrunc x with
  | Some z => if (0 <=? z) && (z <=? SIZE_MAX) then Done z else Undefined
  | None => Undefined
  end.

Definition INT_MIN : Z := - 2 ^ 31.
Definition INT_MAX : Z := 2 ^ 31 - 1.

(** [int(x)] *)
Definition int_of_double (x : double) : outcome Z :=
  match dtrunc x with
  | Some z => if (INT_MIN <=? z) && (z <=? INT_MAX) then Done z else Undefined
  | None => Undefined
  end.

(** Conversion of an [int] to [size_t] (modulo [2^64]). *)
Definition size_t_of_int (z : Z) : size_t := z mod 2 ^ 64.

(** ** Genomic intervals *)

(** Modelled from the spec: the location part (chromosome, start, end) of
    the generic genomic-interval data type; the interval library
    ([GenomicRegion.hpp]) that declares it is not among the sources. *)
Record SimpleGenomicRegion : Type := mkSimpleGenomicRegion {
  sgr_chrom : string;
  sgr_start : size_t;
  sgr_end : size_t
}.

(** Modelled from the spec: the generic genomic-interval data type
    (chromosome, start, end, name, score, strand) of the same library, with
    the accessors and setters the driver calls. *)
Record GenomicRegion : Type := mkGenomicRegion {
  gr_chrom : string;
  gr_name : string;
  gr_start : size_t;
  gr_end : size_t;
  gr_score : double;
  gr_strand : ascii
}.

Definition get_start (c : SimpleGenomicRegion) : size_t := sgr_start c.
Definition get_end (c : SimpleGenomicRegion) : size_t := sgr_end c.
Definition same_chrom (a b : SimpleGenomicRegion) : bool :=
  String.eqb (sgr_chrom a) (sgr_chrom b).

Definition get_score (d : GenomicRegion) : double := gr_score d.
Definition get_name (d : GenomicRegion) : string := gr_name d.
Definition set_end (e : size_t) (d : GenomicRegion) : GenomicRegion :=
  mkGenomicRegion (gr_chrom d) (gr_name d) (gr_start d) e (gr_score d) (gr_strand d).
Definition set_score (s : double) (d : GenomicRegion) : GenomicRegion :=
  mkGenomicRegion (gr_chrom d) (gr_name d) (gr_start d) (gr_end d) s (gr_strand d).
Definition set_name (n : string) (d : GenomicRegion) : GenomicRegion :=
  mkGenomicRegion (gr_chrom d) n (gr_start d) (gr_end d) (gr_score d) (gr_strand d).

(** [SimpleGenomicRegion(r)]: the location of a full record. *)
Definition simple_of_region (r : GenomicRegion) : SimpleGenomicRegion :=
  mkSimpleGenomicRegion (gr_chrom r) (gr_start r) (gr_end r).

(** ** separate_regions (hmr.cpp, lines 99-134) *)

Section SeparateRegions.
Context {T : Type}.

(** State of the compaction loop: the three vectors, updated in place,
    and the write position [j]. *)
Record compact_state : Type := mkCompact {
  cs_cpgs : list SimpleGenomicRegion;
  cs_meth : list T;
  cs_reads : list size_t;
  cs_j : nat
}.

(** Body of the loop at lines 109-116. *)
Definition compact_body (i : nat) (st : compact_state) : outcome compact_state :=
  do r <- at_ (cs_reads st) i;
  if 0 <? r then
    do c <- at_ (cs_cpgs st) i;
    do m <- at_ (cs_meth st) i;
    Done (mkCompact (<[cs_j st := c]> (cs_cpgs st))
                    (<[cs_j st := m]> (cs_meth st))
                    (<[cs_j st := r]> (cs_reads st))
                    (S (cs_j st)))
  else Done st.

(** [v.erase(v.begin() + j, v.end())] *)
Definition erase_from {A : Type} (j : nat) (v : list A) : outcome (list A) :=
  if (j <=? length v)%nat then Done (take j v) else Undefined.

(** State of the segregation loop: [prev_cpg] and the reset points. *)
Record seg_state : Type := mkSeg {
  sg_prev_cpg : size_t;
  sg_reset_points : list nat
}.

(** Body of the loop at lines 123-130. *)
Definition segregate_body (desert_size : size_t)
    (cpgs : list SimpleGenomicRegion) (i : nat) (st : seg_state)
    : outcome seg_state :=
  do c <- at_ cpgs i;
  do same <- (if (0 <? i)%nat
              then do p <- at_ cpgs (i - 1); Done (same_chrom c p)
              else Done false);
  let dist := if same then size_sub (get_start c) (sg_prev_cpg st)
              else SIZE_MAX in
  Done (mkSeg (get_start c)
              (if desert_size <? dist
               then sg_reset_points st ++ [i]
               else sg_reset_points st)).

Record separated : Type := mkSeparated {
  sep_cpgs : list SimpleGenomicRegion;
  sep_meth : list T;
  sep_reads : list size_t;
  sep_reset_points : list nat
}.

Definition separate_regions (desert_size : size_t)
    (cpgs : list SimpleGenomicRegion) (meth : list T) (reads : list size_t)
    (reset_points : list nat) : outcome separated :=
  do st <- for_loop compact_body 0 (length cpgs) (mkCompact cpgs meth reads 0);
  do cpgs' <- erase_from (cs_j st) (cs_cpgs st);
  do meth' <- erase_from (cs_j st) (cs_meth st);
  do reads' <- erase_from (cs_j st) (cs_reads st);
  do sg <- for_loop (segregate_body desert_size cpgs') 0 (length cpgs')
                    (mkSeg 0 reset_points);
  Done (mkSeparated cpgs' meth' reads' (sg_reset_points sg)).
End SeparateRegions.

Arguments compact_state T : clear implicits.
Arguments separated T : clear implicits.

(** ** build_domains (hmr.cpp, lines 48-96) *)

Section BuildDomains.
(** [toa] (rmap_utils) renders a number as text; the record a site is
    converted to by [GenomicRegion(cpgs[i])] carries the location of the
    site and the library's initial name, score and strand.  These parts of
    the interval library are not among the sources and are taken as
    parameters. *)
Variable toa : nat -> string.
Variable init_name : string.
Variable init_score : double.
Variable init_strand : ascii.

(** [GenomicRegion(c)] *)
Definition region_of_simple (c : SimpleGenomicRegion) : GenomicRegion :=
  mkGenomicRegion (sgr_chrom c) init_name (sgr_start c) (sgr_end c)
                  init_score init_strand.

(** The local variables of [build_domains] together with the output
    vector [domains]. *)
Record bd_state : Type := mkBD {
  bd_domains : list GenomicRegion;
  bd_n_cpgs : nat;
  bd_n_domains : nat;
  bd_reset_idx : nat;
  bd_prev_end : size_t;
  bd_in_domain : bool;
  bd_score : double
}.

(** [domains.back()] updated by [f]; undefined on an empty vector. *)
Definition back_update (f : GenomicRegion -> GenomicRegion)
    (ds : list GenomicRegion) : outcome (list GenomicRegion) :=
  match rev ds with
  | [] => Undefined
  | d :: r => Done (rev r ++ [f d])
  end.

(** Lines 66-70 and 87-91: close the open domain. *)
Definition close_domain (st : bd_state) : outcome bd_state :=
  do ds <- back_update (set_end (bd_prev_end st)) (bd_domains st);
  do ds' <- back_update (set_score (bd_score st)) ds;
  Done (mkBD ds' 0 (bd_n_domains st) (bd_reset_idx st) (bd_prev_end st)
             false dbl_zero).

(** Lines 78-80: open a domain at site [c]. *)
Definition open_domain (c : SimpleGenomicRegion) (st : bd_state) : bd_state :=
  mkBD (bd_domains st ++
          [set_name ("HYPO" ++ toa (bd_n_domains st)) (region_of_simple c)])
       (bd_n_cpgs st) (S (bd_n_domains st)) (bd_reset_idx st)
       (bd_prev_end st) true (bd_score st).

Definition next_reset (st : bd_state) : bd_state :=
  mkBD (bd_domains st) (bd_n_cpgs st) (bd_n_domains st)
       (S (bd_reset_idx st)) (bd_prev_end st) (bd_in_domain st) (bd_score st).

Definition add_site (p : double) (st : bd_state) : bd_state :=
  mkBD (bd_domains st) (S (bd_n_cpgs st)) (bd_n_domains st)
       (bd_reset_idx st) (bd_prev_end st) (bd_in_domain st)
       (dadd (bd_score st) p).

Definition with_prev_end (e : size_t) (st : bd_state) : bd_state :=
  mkBD (bd_domains st) (bd_n_cpgs st) (bd_n_domains st)
       (bd_reset_idx st) e (bd_in_domain st) (bd_score st).

(** Lines 62-73: the test for a chain start at site [i], [r] being
    [reset_points[reset_idx]]. *)
Definition reset_part (r i : nat) (st : bd_state) : outcome bd_state :=
  if (r =? i)%nat
  then do st' <- (if bd_in_domain st then close_domain st else Done st);
       Done (next_reset st')
  else Done st.

(** Lines 74-92: the class [cl] of site [i] opens, extends or closes a
    domain. *)
Definition class_part (cpgs : list SimpleGenomicRegion)
    (post_scores : list double) (cl : bool) (i : nat) (st : bd_state)
    : outcome bd_state :=
  if cl
  then do st' <- (if negb (bd_in_domain st)
                  then do c <- at_ cpgs i; Done (open_domain c st)
                  else Done st);
       do p <- at_ post_scores i;
       Done (add_site p st')
  else if bd_in_domain st then close_domain st
  else Done st.

(** Body of the loop at lines 60-94. *)
Definition build_domains_body (cpgs : list SimpleGenomicRegion)
    (post_scores : list double) (reset_points : list nat)
    (classes : list bool) (i : nat) (st : bd_state) : outcome bd_state :=
  do r <- at_ reset_points (bd_reset_idx st);
  do st1 <- reset_part r i st;
  do cl <- at_ classes i;
  do st2 <- class_part cpgs post_scores cl i st1;
  do c <- at_ cpgs i;
  Done (with_prev_end (get_end c) st2).

Definition bd_init (domains : list GenomicRegion) : bd_state :=
  mkBD domains 0 0 1 0 false dbl_zero.

(** The whole function; the final state is returned so that the locals
    at loop exit can be inspected, [bd_domains] being the output. *)
Definition build_domains (cpgs : list SimpleGenomicRegion)
    (post_scores : list double) (reset_points : list nat)
    (classes : list bool) (domains : list GenomicRegion) : outcome bd_state :=
  for_loop (build_domains_body cpgs post_scores reset_points classes)
           0 (length classes) (bd_init domains).
End BuildDomains.

(** ** load_cpgs (hmr.cpp, lines 137-166) *)

(** [r.find_first_of(c)]; [None] stands for [npos]. *)
Fixpoint find_first_of (c : ascii) (r : string) : option nat :=
  match r with
  | EmptyString => None
  | String a r' => if Ascii.eqb a c then Some O
                   else option_map S (find_first_of c r')
  end.

Definition npos : size_t := SIZE_MAX.

Fixpoint string_drop (n : nat) (r : string) : string :=
  match n, r with
  | O, _ => r
  | S k, EmptyString => EmptyString
  | S k, String _ r' => string_drop k r'
  end.

(** [r.substr(pos)]; throws [std::out_of_range] when [pos] is beyond the
    end. *)
Definition substr_from (pos : size_t) (r : string) : outcome string :=
  if pos <=? Z.of_nat (String.length r) then Done (string_drop (Z.to_nat pos) r)
  else Throws "basic_string::substr".

Definition is_space (a : ascii) : bool :=
  let n := nat_of_ascii a in ((9 <=? n) && (n <=? 13) || (n =? 32))%nat.

Definition digit_of (a : ascii) : option Z :=
  let n := nat_of_ascii a in
  if ((48 <=? n) && (n <=? 57))%nat then Some (Z.of_nat n - 48) else None.

Fixpoint skip_spaces (r : string) : string :=
  match r with
  | String a r' => if is_space a then skip_spaces r' else r
  | EmptyString => r
  end.

(** The value of the longest prefix of decimal digits, continuing [acc]. *)
Fixpoint digits_value (acc : Z) (r : string) : Z :=
  match r with
  | String a r' => match digit_of a with
                   | Some d => digits_value (10 * acc + d) r'
                   | None => acc
                   end
  | EmptyString => acc
  end.

(** [atoi]: leading white space, an optional sign, decimal digits; the
    behaviour is undefined when the value is not representable as [int]. *)
Definition atoi (r : string) : outcome Z :=
  let r1 := skip_spaces r in
  let '(neg, r2) := match r1 with
                    | String a r' =>
                        if Ascii.eqb a "-" then (true, r')
                        else if Ascii.eqb a "+" then (false, r')
                        else (false, r1)
                    | EmptyString => (false, r1)
                    end in
  let v := digits_value 0 r2 in
  let v := if neg then - v else v in
  if (INT_MIN <=? v) && (v <=? INT_MAX) then Done v else Undefined.

Record loaded : Type := mkLoaded {
  ld_cpgs : list SimpleGenomicRegion;
  ld_meth : list (double * double);
  ld_reads : list size_t
}.

(** Body of the loop at lines 150-159 for the record [rec]. *)
Definition load_record (rec : GenomicRegion) (acc : loaded) : outcome loaded :=
  let r := get_name rec in
  let pos := match find_first_of ":" r with
             | Some k => (Z.of_nat k + 1) mod 2 ^ 64
             | None => (npos + 1) mod 2 ^ 64
             end in
  do suffix <- substr_from pos r;
  do a <- atoi suffix;
  let reads_back := size_t_of_int a in
  do first <- int_of_double (dmul (get_score rec) (double_of_Z reads_back));
  do second <- int_of_double (dsub (double_of_Z reads_back) (double_of_Z first));
  Done (mkLoaded (ld_cpgs acc ++ [simple_of_region rec])
                 (ld_meth acc ++ [(double_of_Z first, double_of_Z second)])
                 (ld_reads acc ++ [reads_back])).

Fixpoint load_records (recs : list GenomicRegion) (acc : loaded) : outcome loaded :=
  match recs with
  | [] => Done acc
  | rec :: recs' => do acc' <- load_record rec acc; load_records recs' acc'
  end.

(** The double-quote character, as a string. *)
Definition dquote : string := String (ascii_of_nat 34) EmptyString.

Section LoadCpgs.
(** [check_sorted] belongs to the interval library and is a parameter;
    [cpgs_in] is what [ReadBEDFile] has read from [cpgs_file]. *)
Variable check_sorted : list GenomicRegion -> bool.

Definition load_cpgs (cpgs_file : string) (cpgs_in : list GenomicRegion)
    (cpgs : list SimpleGenomicRegion) (meth : list (double * double))
    (reads : list size_t) : outcome loaded :=
  if negb (check_sorted cpgs_in)
  then Throws ("CpGs not sorted in file " ++ dquote ++ cpgs_file ++ dquote)
  else load_records cpgs_in (mkLoaded cpgs meth reads).
End LoadCpgs.

(** ** shuffle_cpg_sites (hmr.cpp, lines 168-176) *)

Section Shuffle.
(** The pseudo-random generator behind [std::random_shuffle]: a state and
    the function that draws the next number from it. *)
Variable rng : Type.
Variable rand : rng -> nat * rng.
Context {A : Type}.

(** [std::iter_swap] on positions [i] and [j] of [v]. *)
Definition iter_swap (i j : nat) (v : list A) : outcome (list A) :=
  do x <- at_ v i;
  do y <- at_ v j;
  Done (<[j := x]> (<[i := y]> v)).

(** One step of the shuffle of the range starting at [lo]: position [i]
    is exchanged with a position drawn from [lo .. i]. *)
Definition shuffle_body (lo : nat) (i : nat) (st : rng * list A)
    : outcome (rng * list A) :=
  let '(r, g') := rand (fst st) in
  let j := (lo + r mod (i - lo + 1))%nat in
  if (i =? j)%nat then Done (g', snd st)
  else do v' <- iter_swap i j (snd st); Done (g', v').

(** [std::random_shuffle(v.begin() + lo, v.begin() + hi)] *)
Definition random_shuffle (lo hi : nat) (st : rng * list A)
    : outcome (rng * list A) :=
  if ((lo <=? hi) && (hi <=? length (snd st)))%nat
  then if (lo =? hi)%nat then Done st
       else for_loop (shuffle_body lo) (S lo) (hi - lo - 1) st
  else Undefined.

(** Body of the loop at lines 172-174. *)
Definition shuffle_sites_body (reset_points : list nat) (i : nat)
    (st : rng * list A) : outcome (rng * list A) :=
  do lo <- at_ reset_points i;
  do hi <- at_ reset_points (i + 1);
  random_shuffle lo hi st.

Definition shuffle_cpg_sites (reset_points : list nat) (st : rng * list A)
    : outcome (rng * list A) :=
  for_loop (shuffle_sites_body reset_points) 0
           (Z.to_nat (size_sub (Z.of_nat (length reset_points)) 1)) st.
End Shuffle.

(** The vectors of [main] that the null computation works on. *)
Record tables : Type := mkTables {
  tb_cpgs : list SimpleGenomicRegion;
  tb_meth : list (double * double);
  tb_reads : list size_t;
  tb_reset_points : list nat
}.

(** Line 351 of [main]: [shuffle_cpg_sites(reset_points, meth)]. *)
Definition main_shuffle (rng : Type) (rand : rng -> nat * rng)
    (g : rng) (t : tables) : outcome (rng * tables) :=
  do st <- shuffle_cpg_sites rng rand (tb_reset_points t) (g, tb_meth t);
  Done (fst st, mkTables (tb_cpgs t) (snd st) (tb_reads t) (tb_reset_points t)).

(** ** get_posterior_cutoff (hmr.cpp, lines 178-204) *)

Fixpoint sort_insert (x : double) (l : list double) : list double :=
  match l with
  | [] => [x]
  | y :: l' => if dlt x y then x :: y :: l' else y :: sort_insert x l'
  end.

(** [std::sort(scores.begin(), scores.end())] with [operator<]. *)
Definition std_sort (l : list double) : list double :=
  fold_right sort_insert [] l.

(** Lines 196-201: from [i], the first position whose score is greater than
    the score at [index], or [index] itself when the loop runs out. *)
Fixpoint first_greater (scores : list double) (index i count : nat)
    : outcome nat :=
  match count with
  | O => Done index
  | S k => do si <- at_ scores i;
           do sx <- at_ scores index;
           if dgt si sx then Done i
           else first_greater scores index (S i) k
  end.

Definition quantile_index (n : nat) (fdr : double) : outcome size_t :=
  size_t_of_double (dmul (double_of_Z (Z.of_nat n)) (dsub dbl_one fdr)).

Definition get_posterior_cutoff (domains : list GenomicRegion) (fdr : double)
    : outcome double :=
  if dle fdr dbl_zero then Done DBL_MAX
  else if dgt fdr dbl_one then Done DBL_MIN
  else
    let scores := std_sort (map get_score domains) in
    do index <- quantile_index (length domains) fdr;
    let index := Z.to_nat index in
    do index' <- first_greater scores index index (length domains - index);
    at_ scores index'.

(** Line 383: the filter applied to a domain. *)
Definition admitted (posterior_cutoff : double) (d : GenomicRegion) : bool :=
  dge (get_score d) posterior_cutoff.

(** ** The filter of main (hmr.cpp, lines 381-384) *)

(** Body of the loop at lines 382-384: [domains[i]] is appended to
    [domains_filterd] when its score reaches the cutoff. *)
Definition filter_body (posterior_cutoff : double)
    (domains : list GenomicRegion) (i : nat)
    (domains_filterd : list GenomicRegion) : outcome (list GenomicRegion) :=
  do d <- at_ domains i;
  Done (if admitted posterior_cutoff d then domains_filterd ++ [d]
        else domains_filterd).

Definition filter_domains (posterior_cutoff : double)
    (domains : list GenomicRegion) : outcome (list GenomicRegion) :=
  for_loop (filter_body posterior_cutoff domains) 0 (length domains) [].

(** Lines 374-384 of [main]: the cutoff from the null domains, then the
    filter of the domains with it. *)
Definition filter_by_fdr (domains domains_false : list GenomicRegion)
    (fdr : double) : outcome (list GenomicRegion) :=
  do posterior_cutoff <- get_posterior_cutoff domains_false fdr;
  filter_domains posterior_cutoff domains.

(** ** Reference functions

    Closed forms of what the loops above compute, and the operations the
    statements of the second part are written with. *)

(** The entries of [v] standing at the positions whose read count is
    positive, in order: what the in-place compaction computes. *)
Fixpoint retained {A : Type} (reads : list size_t) (v : list A) : list A :=
  match reads, v with
  | r :: reads', x :: v' =>
      if 0 <? r then x :: retained reads' v' else retained reads' v'
  | _, _ => []
  end.

(** The distance the segregation loop compares with the desert size at
    position [i]: the wrapped difference of the two starts when [i] has a
    predecessor on the same chromosome, [SIZE_MAX] otherwise. *)
Definition boundary_dist (cpgs : list SimpleGenomicRegion) (i : nat)
    : option size_t :=
  match cpgs !! i with
  | Some c =>
      Some (match i with
            | O => SIZE_MAX
            | S k => match cpgs !! k with
                     | Some p => if same_chrom c p
                                 then size_sub (get_start c) (get_start p)
                                 else SIZE_MAX
                     | None => SIZE_MAX
                     end
            end)
  | None => None
  end.

Definition is_boundary (desert_size : size_t)
    (cpgs : list SimpleGenomicRegion) (i : nat) : bool :=
  match boundary_dist cpgs i with
  | Some d => desert_size <? d
  | None => false
  end.

(** The positions the segregation loop pushes, in the order it pushes them. *)
Definition chain_starts (desert_size : size_t)
    (cpgs : list SimpleGenomicRegion) : list nat :=
  List.filter (is_boundary desert_size cpgs) (seq 0 (length cpgs)).

(** The score accumulated over the sites [s .. e-1]: the sum the loop of
    [build_domains] forms, starting from [0] and adding in site order. *)
Definition run_score (post_scores : list double) (s e : nat) : double :=
  fold_left dadd (take (e - s) (drop s post_scores)) dbl_zero.

(** The entries of [v] at the positions [lo .. hi-1]. *)
Definition chain_slice {A : Type} (lo hi : nat) (v : list A) : list A :=
  take (hi - lo) (drop lo v).

(** [p * 2^n] on positive numbers, for [n >= 0]. *)
Definition pshift (p : positive) (n : Z) : positive :=
  match n with
  | Zpos k => Pos.iter xO p k
  | _ => p
  end.

(** The normalised double of sign [s] and integer magnitude [c < 2^53]. *)
Definition canonical (s : bool) (c : positive) : double :=
  S754_finite s (pshift c (53 - Zpos (digits2_pos c))) (Zpos (digits2_pos c) - 53).

(** Rounding to the nearest integer, halves away from zero, as [round]
    does: the operation the input format is described with, which the
    conversions [int(...)] of [load_cpgs] do not perform. *)
Definition dround (x : double) : option Z :=
  match x with
  | S754_zero _ => Some 0
  | S754_finite s m e =>
      let a := match e with
               | Zneg p => (Zpos m + 2 ^ (Zpos p - 1)) / 2 ^ Zpos p
               | _ => Zpos m * 2 ^ e
               end in
      Some (if s then - a else a)
  | _ => None
  end.

(** ** The order of doubles

    The comparison of two doubles that are numbers is the lexicographic
    comparison of three integers: the class and sign, the exponent, and
    the mantissa, the last two negated for negative numbers. *)
Definition dkey1 (x : double) : Z :=
  match x with
  | S754_infinity true => -2
  | S754_finite true _ _ => -1
  | S754_finite false _ _ => 1
  | S754_infinity false => 2
  | _ => 0
  end.

Definition dkey2 (x : double) : Z :=
  match x with
  | S754_finite true _ e => - e
  | S754_finite false _ e => e
  | _ => 0
  end.

Definition dkey3 (x : double) : Z :=
  match x with
  | S754_finite true m _ => Zneg m
  | S754_finite false m _ => Zpos m
  | _ => 0
  end.

Definition key_lt (x y : double) : Prop :=
  dkey1 x < dkey1 y
  \/ (dkey1 x = dkey1 y
      /\ (dkey2 x < dkey2 y \/ (dkey2 x = dkey2 y /\ dkey3 x < dkey3 y))).

Definition key_eq (x y : double) : Prop :=
  dkey1 x = dkey1 y /\ dkey2 x = dkey2 y /\ dkey3 x = dkey3 y.

(** A double that is a number. *)
Definition is_number (x : double) : Prop := x <> S754_nan.

(** [x <= y], as a relation. *)
Definition dle_rel (x y : double) : Prop := dle x y = true.

(** The number of domains the filter of line 383 admits. *)
Definition n_admitted (posterior_cutoff : double)
    (domains : list GenomicRegion) : nat :=
  length (List.filter (admitted posterior_cutoff) domains).

(** ** Specification predicates *)

(** Reset points as the pipeline passes them on: chain starts in strictly
    increasing order, the first of them 0. *)
Definition wf_reset_points (reset_points : list nat) : Prop :=
  reset_points !! 0%nat = Some 0%nat /\ StronglySorted lt reset_points.

Section DomainSpec.
Local Open Scope nat_scope.
Variable cpgs : list SimpleGenomicRegion.
Variable post_scores : list double.
Variable reset_points : list nat.
Variable classes : list bool.

Definition all_foreground (s e : nat) : Prop :=
  forall i, s <= i < e -> classes !! i = Some true.

(** No chain starts at a site of [s+1 .. e-1]. *)
Definition no_reset_inside (s e : nat) : Prop :=
  forall r, In r reset_points -> ~ (s < r < e).

(** The run cannot be extended to the left: there is no site before
    [s], or that site is background, or a chain starts at [s]. *)
Definition left_maximal (s : nat) : Prop :=
  s = 0 \/ classes !! (s - 1) = Some false \/ In s reset_points.

(** The run cannot be extended to the right: the site [e] is
    background, or a chain starts at [e]. *)
Definition right_maximal (e : nat) : Prop :=
  classes !! e = Some false \/ In e reset_points.

(** [d] is the closed domain of the foreground run [s .. e-1]. *)
Definition spans (d : GenomicRegion) (s e : nat) : Prop :=
  s < e
  /\ (exists c c',
        cpgs !! s = Some c /\ cpgs !! (e - 1) = Some c'
        /\ gr_chrom d = sgr_chrom c
        /\ gr_start d = get_start c
        /\ gr_end d = get_end c')
  /\ gr_score d = run_score post_scores s e
  /\ all_foreground s e
  /\ left_maximal s
  /\ right_maximal e.

Definition complete_domain (d : GenomicRegion) : Prop :=
  exists s e, spans d s e /\ no_reset_inside s e.

(** [d] has the fields the closed domain of the sites [s .. e-1] has:
    chromosome and start of site [s], the end of site [e-1], the last
    member, and as score the score accumulated over these sites. *)
Definition closed_over (d : GenomicRegion) (s e : nat) : Prop :=
  exists c c',
    cpgs !! s = Some c /\ cpgs !! (e - 1) = Some c'
    /\ gr_chrom d = sgr_chrom c
    /\ gr_start d = get_start c
    /\ gr_end d = get_end c'
    /\ gr_score d = run_score post_scores s e.
End DomainSpec.

(** No two sites of the table share chromosome and start. *)
Definition distinct_sites (cpgs : list SimpleGenomicRegion) : Prop :=
  forall i j c c',
    cpgs !! i = Some c -> cpgs !! j = Some c' ->
    sgr_chrom c = sgr_chrom c' -> get_start c = get_start c' -> i = j.

(** The domains of the output that were closed: all of them, but for the
    last one when the loop exits with a domain open. *)
Definition completed_domains (st : bd_state) : list GenomicRegion :=
  if bd_in_domain st then removelast (bd_domains st) else bd_domains st.

Fixpoint string_forall (P : ascii -> bool) (r : string) : bool :=
  match r with
  | EmptyString => true
  | String a r' => P a && string_forall P r'
  end.

Definition is_digit (a : ascii) : bool :=
  match digit_of a with Some _ => true | None => false end.

(** A name of the input format: a prefix without colon, a colon, and the
    read count [c] in decimal digits. *)
Definition well_formed_name (name : string) (c : Z) : Prop :=
  exists pre ds,
    name = (pre ++ ":" ++ ds)%string
    /\ string_forall (fun a => negb (Ascii.eqb a ":")) pre = true
    /\ string_forall is_digit ds = true
    /\ digits_value 0 ds = c
    /\ c <= INT_MAX
    /\ is_size_t (Z.of_nat (String.length name)).

(** What [load_cpgs] stores for the record [rec]: the coverage [r] read
    from the name, and the counts [mu]: the product of level and coverage
    converted to [int] (truncated toward zero), and the rest of the
    coverage. *)
Definition record_counts (rec : GenomicRegion) (mu : double * double)
    (r : size_t) : Prop :=
  well_formed_name (get_name rec) r
  /\ exists m,
       int_of_double (dmul (get_score rec) (double_of_Z r)) = Done m
       /\ mu = (double_of_Z m, double_of_Z (r - m)).

(** A pair of counts as [load_cpgs] stores it: two doubles that hold
    whole numbers of the range of [int]. *)
Definition whole_counts (mu : double * double) : Prop :=
  exists m u,
    mu = (double_of_Z m, double_of_Z u)
    /\ INT_MIN <= m <= INT_MAX /\ INT_MIN <= u <= INT_MAX.

(** A record whose level is a double between 0 and 1. *)
Definition level_in_range (rec : GenomicRegion) : Prop :=
  valid_binary prec emax (get_score rec) = true
  /\ dle dbl_zero (get_score rec) = true
  /\ dle (get_score rec) dbl_one = true.

(** Counts of a record of coverage [r] that lie within the coverage: [m]
    methylated reads, between 0 and [r], and the other [r - m] reads
    unmethylated. *)
Definition counts_within (rec : GenomicRegion) (mu : double * double)
    (r : size_t) : Prop :=
  well_formed_name (get_name rec) r
  /\ exists m, 0 <= m <= r /\ mu = (double_of_Z m, double_of_Z (r - m)).

(** ** Loop invariants *)

(** The compaction loop (lines 109-116) before iteration [i], on the
    vectors [cpgs0], [meth0], [reads0] the function was called with: each
    vector holds its retained entries up to the write position and its
    entries from [i] on are still the original ones. *)
Definition compact_inv {T : Type} (cpgs0 : list SimpleGenomicRegion)
    (meth0 : list T) (reads0 : list size_t) (i : nat)
    (st : compact_state T) : Prop :=
  (cs_j st <= i)%nat
  /\ (length (cs_cpgs st) = length cpgs0
      /\ take (cs_j st) (cs_cpgs st) = retained (take i reads0) (take i cpgs0)
      /\ drop i (cs_cpgs st) = drop i cpgs0)
  /\ (length (cs_meth st) = length meth0
      /\ take (cs_j st) (cs_meth st) = retained (take i reads0) (take i meth0)
      /\ drop i (cs_meth st) = drop i meth0)
  /\ (length (cs_reads st) = length reads0
      /\ take (cs_j st) (cs_reads st) = retained (take i reads0) (take i reads0)
      /\ drop i (cs_reads st) = drop i reads0).

(** The segregation loop (lines 123-130) before iteration [i]: the
    boundaries among the first [i] sites have been pushed after [rp0], and
    [prev_cpg] is the start of the site before [i]. *)
Definition segregate_inv (desert_size : size_t)
    (cpgs : list SimpleGenomicRegion) (rp0 : list nat) (i : nat)
    (st : seg_state) : Prop :=
  sg_reset_points st
    = rp0 ++ List.filter (is_boundary desert_size cpgs) (seq 0 i)
  /\ (forall k p, i = S k -> cpgs !! k = Some p ->
                  sg_prev_cpg st = get_start p).

Section DomainInvariants.
Local Open Scope nat_scope.
Variable toa : nat -> string.
Variable init_name : string.
Variable init_score : double.
Variable init_strand : ascii.
Variable cpgs : list SimpleGenomicRegion.
Variable post_scores : list double.
Variable reset_points : list nat.
Variable classes : list bool.
Variable domains0 : list GenomicRegion.

(** The record pushed when the [k]-th domain opens at site [c]. *)
Definition open_record (c : SimpleGenomicRegion) (k : nat) : GenomicRegion :=
  set_name ("HYPO" ++ toa k) (region_of_simple init_name init_score init_strand c).

(** A closed domain of the output, of a run that ends at or before
    site [b]; that it lies within one chain is known once the reset
    points are well formed. *)
Definition closed_ok (b : nat) (d : GenomicRegion) : Prop :=
  exists s e,
    e <= b
    /\ spans cpgs post_scores reset_points classes d s e
    /\ (wf_reset_points reset_points -> no_reset_inside reset_points s e).

(** [reset_idx] has passed exactly the chain starts before site [i]. *)
Definition tracking (i idx : nat) : Prop :=
  wf_reset_points reset_points ->
  1 <= idx
  /\ forall j r, reset_points !! j = Some r -> 1 <= j -> (j < idx <-> r < i).

(** A domain is open: it was pushed at site [s], after the closed
    domains [ds], and every site of [s .. i-1] has been added to it. *)
Definition open_run (st : bd_state) (ds : list GenomicRegion)
    (bound i : nat) : Prop :=
  exists s c k,
    s < i /\ cpgs !! s = Some c
    /\ Forall (closed_ok s) ds
    /\ bd_domains st = domains0 ++ ds ++ [open_record c k]
    /\ bd_score st = run_score post_scores s i
    /\ all_foreground classes s i
    /\ left_maximal reset_points classes s
    /\ (wf_reset_points reset_points -> no_reset_inside reset_points s bound).

Definition prev_ok (i : nat) (st : bd_state) : Prop :=
  0 < i -> exists c, cpgs !! (i - 1) = Some c /\ bd_prev_end st = get_end c.

(** Before iteration [i]. *)
Definition bd_inv (i : nat) (st : bd_state) : Prop :=
  prev_ok i st
  /\ tracking i (bd_reset_idx st)
  /\ exists ds,
       if bd_in_domain st then open_run st ds i i
       else Forall (closed_ok i) ds
            /\ bd_domains st = domains0 ++ ds
            /\ bd_score st = dbl_zero
            /\ (0 < i -> classes !! (i - 1) = Some false).

(** Within iteration [i], after the test for a chain start. *)
Definition bd_mid (i : nat) (st : bd_state) : Prop :=
  prev_ok i st
  /\ tracking (S i) (bd_reset_idx st)
  /\ exists ds,
       if bd_in_domain st then open_run st ds (S i) i
       else Forall (closed_ok i) ds
            /\ bd_domains st = domains0 ++ ds
            /\ bd_score st = dbl_zero
            /\ left_maximal reset_points classes i.
End DomainInvariants.

(** The order of the domains [build_domains] appends. *)
Section DomainOrder.
Local Open Scope nat_scope.
Variable toa : nat -> string.
Variable cpgs : list SimpleGenomicRegion.
Variable classes : list bool.
Variable domains0 : list GenomicRegion.

(** [d] was opened at the foreground site [s]: it has the chromosome and
    the start of that site. *)
Definition opened_at (d : GenomicRegion) (s : nat) : Prop :=
  exists c, cpgs !! s = Some c /\ classes !! s = Some true
            /\ gr_chrom d = sgr_chrom c /\ gr_start d = get_start c.

(** [d] was closed after site [e - 1]: it has the end of that site. *)
Definition closed_at (d : GenomicRegion) (e : nat) : Prop :=
  exists c, cpgs !! (e - 1) = Some c /\ gr_end d = get_end c.

(** [d] is the domain of the sites [fst r .. snd r - 1]. *)
Definition run_of (d : GenomicRegion) (r : nat * nat) : Prop :=
  opened_at d (fst r) /\ closed_at d (snd r).

(** Runs of sites that follow each other in the table: each run is not
    empty and starts at or after the end of the run before it; [b] is the
    end of the last run. *)
Inductive ordered_runs : list (nat * nat) -> nat -> Prop :=
  | ordered_nil : ordered_runs [] 0
  | ordered_snoc (runs : list (nat * nat)) (b s e : nat) :
      ordered_runs runs b -> b <= s -> s < e ->
      ordered_runs (runs ++ [(s, e)]) e.

(** The site [m] belongs to one of the runs. *)
Definition covers (runs : list (nat * nat)) (m : nat) : Prop :=
  Exists (fun r => fst r <= m < snd r) runs.

(** Before iteration [i] of the loop of [build_domains]: the records
    pushed so far stand after the ones the vector held at the call, are
    numbered in the order they were pushed, and span runs of sites that
    follow each other; every foreground site before [i] belongs to one of
    these runs or to the domain that is open. *)
Definition bd_order (i : nat) (st : bd_state) : Prop :=
  prev_ok cpgs i st
  /\ exists news runs b,
       bd_domains st = domains0 ++ news
       /\ bd_n_domains st = length news
       /\ (forall k d, news !! k = Some d -> gr_name d = ("HYPO" ++ toa k)%string)
       /\ ordered_runs runs b
       /\ if bd_in_domain st
          then exists cl o s,
                 news = cl ++ [o] /\ Forall2 run_of cl runs
                 /\ b <= s < i /\ opened_at o s
                 /\ (forall m, m < i -> classes !! m = Some true ->
                                covers runs m \/ s <= m)
          else Forall2 run_of news runs /\ b <= i
               /\ (forall m, m < i -> classes !! m = Some true -> covers runs m).
End DomainOrder.

(** What one shuffle of the range [lo .. hi-1] keeps of [v]. *)
Definition shuffled_within {A : Type} (lo hi : nat) (v v' : list A) : Prop :=
  length v' = length v
  /\ v' ≡ₚ v
  /\ take lo v' = take lo v
  /\ drop hi v' = drop hi v.

(** Invariant of the loop of [shuffle_cpg_sites] before iteration [i]:
    the chains before the [i]-th are permuted within themselves, the rest
    of the vector is as it was. *)
Definition shuffle_inv {A : Type} (reset_points : list nat) (v : list A)
    (i : nat) (v' : list A) : Prop :=
  length v' = length v
  /\ (forall k lo hi, (k < i)%nat ->
        reset_points !! k = Some lo -> reset_points !! S k = Some hi ->
        chain_slice lo hi v' ≡ₚ chain_slice lo hi v)
  /\ (forall b, reset_points !! i = Some b -> drop b v' = drop b v)
  /\ (forall a, reset_points !! 0%nat = Some a -> take a v' = take a v).

(** ** Sample inputs *)

(** A site of one base at [s] on chromosome [c]. *)
Definition site (c : string) (s : Z) : SimpleGenomicRegion :=
  mkSimpleGenomicRegion c s (s + 1).

(** A rendering of numbers in decimal, for [toa]. *)
Definition toa_decimal (n : nat) : string :=
  NilZero.string_of_uint (Nat.to_uint n).

(** Four sites, the last one beyond a desert; the first two foreground. *)
Definition sample_cpgs : list SimpleGenomicRegion :=
  [site "chr1" 10; site "chr1" 20; site "chr1" 30; site "chr1" 5000].
Definition sample_scores : list double :=
  [double_of_Z 1; double_of_Z 2; double_of_Z 3; double_of_Z 4].
Definition sample_domain : GenomicRegion :=
  mkGenomicRegion "chr1" "HYPO0" 10 21 (double_of_Z 3) "+".

(** The domain [build_domains] leaves open on the sample sites when only
    the last site is foreground, with 0 for the initial score of a record. *)
Definition unclosed_domain : GenomicRegion :=
  mkGenomicRegion "chr1" "HYPO0" 5000 5001 dbl_zero "+".

(** Counts of the four sample sites, and the tables of [main] for them
    with the reset points [separate_regions] produces (desert size 2000). *)
Definition sample_meth : list (double * double) :=
  [(double_of_Z 9, double_of_Z 1); (double_of_Z 8, double_of_Z 2);
   (double_of_Z 1, double_of_Z 9); (double_of_Z 0, double_of_Z 10)].
Definition sample_tables : tables :=
  mkTables sample_cpgs sample_meth [10; 10; 10; 10] [0%nat; 3%nat].

(** A linear congruential generator, for sample runs of the shuffle. *)
Definition lcg_rand (g : nat) : nat * nat :=
  let g' := ((g * 13 + 7) mod 101)%nat in (g', g').

(** Thresholds: 1/2, 3/2 and 2^-60. *)
Definition fdr_half : double := dyadic 1 (-1).
Definition fdr_three_halves : double := dyadic 3 (-1).
Definition fdr_tiny : double := dyadic 1 (-60).

(** A record of coverage 10 and methylation level 3/4. *)
Definition sample_record : GenomicRegion :=
  mkGenomicRegion "chr1" "CpG:10" 10 11 (dyadic 3 (-2)) "+".

(** A record without reads. *)
Definition uncovered_record : GenomicRegion :=
  mkGenomicRegion "chr1" "CpG:0" 20 21 dbl_zero "+".

(** A record of coverage 100 whose level is the double nearest to 0.29,
    that is 29 methylated reads out of 100. *)
Definition level_029 : double := dyadic 5224175567749775 (-54).
Definition record_29_of_100 : GenomicRegion :=
  mkGenomicRegion "chr1" "CpG:100" 10 11 level_029 "+".

(** Records of coverage 100 and 3 whose levels are the doubles nearest to
    0.57 and to 0.333333: 57 methylated reads out of 100, and 1 out of 3
    with the level written in six decimals. *)
Definition level_057 : double := dyadic 5134103575202365 (-53).
Definition record_57_of_100 : GenomicRegion :=
  mkGenomicRegion "chr1" "CpG:100" 10 11 level_057 "+".
Definition level_0333333 : double := dyadic 6004793498361158 (-54).
Definition record_1_of_3 : GenomicRegion :=
  mkGenomicRegion "chr1" "CpG:3" 10 11 level_0333333 "+".

(** The state [build_domains] returns on the sample sites for the classes
    foreground, background, foreground, foreground and the reset points
    0, 3, 4, called with a vector that holds [sample_domain]. *)
Definition three_domains_state : bd_state :=
  mkBD [sample_domain;
        mkGenomicRegion "chr1" "HYPO0" 10 11 (double_of_Z 1) "+";
        mkGenomicRegion "chr1" "HYPO1" 30 31 (double_of_Z 3) "+";
        mkGenomicRegion "chr1" "HYPO2" 5000 5001 dbl_zero "+"]
       1 3 2 5001 true (double_of_Z 4).

(** Records whose name has no colon: a number alone, and a plain
    identifier. *)
Definition bare_number_record : GenomicRegion :=
  mkGenomicRegion "chr1" "17" 10 11 (dyadic 1 (-1)) "+".
Definition unnumbered_record : GenomicRegion :=
  mkGenomicRegion "chr1" "CpG" 10 11 (dyadic 1 (-1)) "+".

(** Records of coverage 10 that are fully methylated and not methylated
    at all. *)
Definition full_record : GenomicRegion :=
  mkGenomicRegion "chr1" "CpG:10" 10 11 dbl_one "+".
Definition empty_record : GenomicRegion :=
  mkGenomicRegion "chr1" "CpG:10" 10 11 dbl_zero "+".

(** A domain with the given score. *)
Definition scored (s : double) : GenomicRegion :=
  mkGenomicRegion "chr1" "X" 0 1 s "+".

(** * Properties *)

(** ** Outcomes and loops *)

Lemma obind_done {A B : Type} (m : outcome A) (k : A -> outcome B) (b : B) :
  obind m k = Done b -> exists a, m = Done a /\ k a = Done b.
Proof. destruct m as [a| |]; simpl; intros H; try discriminate. eauto. Qed.

Lemma at_done {A : Type} (v : list A) (i : nat) (x : A) :
  at_ v i = Done x <-> v !! i = Some x.
Proof.
  unfold at_. destruct (v !! i) as [y|]; split; intros H;
    try discriminate; congruence.
Qed.

Lemma at_undefined {A : Type} (v : list A) (i : nat) :
  (length v <= i)%nat -> at_ v i = @Undefined A.
Proof. intros H. unfold at_. now rewrite lookup_ge_None_2. Qed.

Ltac bind_inv H :=
  let a := fresh "a" in
  let Ha := fresh "Ha" in
  apply obind_done in H; destruct H as (a & Ha & H).

Section Loops.
Local Open Scope nat_scope.
Context {S : Type}.
Variable body : nat -> S -> outcome S.
Variable I : nat -> S -> Prop.

(** Partial correctness: an invariant kept by every iteration that
    returns holds when the loop returns. *)
Lemma for_loop_inv (lo count : nat) (s s' : S) :
  I lo s ->
  (forall i t t', lo <= i < lo + count -> I i t ->
                  body i t = Done t' -> I (Datatypes.S i) t') ->
  for_loop body lo count s = Done s' ->
  I (lo + count) s'.
Proof.
  revert lo s. induction count as [|k IH]; intros lo s H0 Hstep Hrun.
  - simpl in Hrun. injection Hrun as <-. now rewrite Nat.add_0_r.
  - simpl in Hrun. bind_inv Hrun.
    replace (lo + Datatypes.S k) with (Datatypes.S lo + k) by lia.
    apply (IH (Datatypes.S lo) a).
    + apply (Hstep lo s a); [lia | assumption | assumption].
    + intros i t t' Hi. apply Hstep. lia.
    + assumption.
Qed.

(** Total correctness: when every iteration returns under the invariant,
    so does the loop. *)
Lemma for_loop_total (lo count : nat) (s : S) :
  I lo s ->
  (forall i t, lo <= i < lo + count -> I i t ->
               exists t', body i t = Done t' /\ I (Datatypes.S i) t') ->
  exists s', for_loop body lo count s = Done s' /\ I (lo + count) s'.
Proof.
  revert lo s. induction count as [|k IH]; intros lo s H0 Hstep.
  - exists s. rewrite Nat.add_0_r. now split.
  - destruct (Hstep lo s) as (t' & Hb & Ht'); [lia | assumption |].
    destruct (IH (Datatypes.S lo) t') as (s' & Hrun & Hs'); [assumption | |].
    + intros i t Hi. apply Hstep. lia.
    + exists s'. simpl. rewrite Hb. simpl.
      replace (lo + Datatypes.S k) with (Datatypes.S lo + k) by lia.
      now split.
Qed.
End Loops.

(** ** separate_regions: the compaction *)

Section Compaction.
Local Open Scope nat_scope.
Context {A : Type}.
Implicit Types (v w : list A) (reads : list size_t).

Lemma retained_snoc reads v r x :
  length reads = length v ->
  retained (reads ++ [r]) (v ++ [x])
  = retained reads v ++ (if (0 <? r)%Z then [x] else []).
Proof.
  revert v. induction reads as [|r0 reads IH]; intros [|x0 v] Hlen;
    simpl in Hlen; try discriminate.
  - simpl. now destruct (0 <? r)%Z.
  - simpl. rewrite IH by lia. now destruct (0 <? r0)%Z.
Qed.

Lemma retained_length reads v : length (retained reads v) <= length v.
Proof.
  revert v. induction reads as [|r reads IH]; intros [|x v]; simpl; try lia.
  destruct (0 <? r)%Z; simpl; specialize (IH v); lia.
Qed.

(** One write [v[j] = x] of the compaction, seen on one vector: the
    compacted prefix grows by [x], the unread suffix is untouched. *)
Lemma compact_write v v0 j i x w :
  j <= i -> i < length v ->
  take j v = w -> drop i v = drop i v0 ->
  take (Datatypes.S j) (<[j := x]> v) = w ++ [x]
  /\ drop (Datatypes.S i) (<[j := x]> v) = drop (Datatypes.S i) v0
  /\ length (<[j := x]> v) = length v.
Proof.
  intros Hji Hi Hw Hd. split; [|split].
  - rewrite (take_S_r _ _ x); [|apply list_lookup_insert_eq; lia].
    rewrite take_insert_ge by lia. now rewrite Hw.
  - rewrite drop_insert_lt by lia.
    replace (Datatypes.S i) with (i + 1) by lia.
    rewrite <- !drop_drop. now rewrite Hd.
  - apply length_insert.
Qed.
End Compaction.

Section CompactionLoop.
Local Open Scope nat_scope.
Context {T : Type}.
Variables (cpgs0 : list SimpleGenomicRegion) (meth0 : list T)
          (reads0 : list size_t).
Hypothesis Hmeth : length meth0 = length cpgs0.
Hypothesis Hreads : length reads0 = length cpgs0.

Local Abbreviation compact_inv := (compact_inv cpgs0 meth0 reads0).

Lemma lookup_of_drop {A : Type} (v v0 : list A) i :
  drop i v = drop i v0 -> v !! i = v0 !! i.
Proof.
  intros H. rewrite <- (Nat.add_0_r i). rewrite <- !lookup_drop. now rewrite H.
Qed.

Lemma retained_take_S {A : Type} (v : list A) i r x :
  reads0 !! i = Some r -> v !! i = Some x ->
  retained (take (Datatypes.S i) reads0) (take (Datatypes.S i) v)
  = retained (take i reads0) (take i v) ++ (if (0 <? r)%Z then [x] else []).
Proof.
  intros Hr Hx. rewrite (take_S_r _ _ _ Hr), (take_S_r _ _ _ Hx).
  apply retained_snoc.
  apply lookup_lt_Some in Hr, Hx. rewrite !length_take. lia.
Qed.

Lemma drop_S_eq {A : Type} (v v0 : list A) i :
  drop i v = drop i v0 -> drop (Datatypes.S i) v = drop (Datatypes.S i) v0.
Proof.
  intros H. replace (Datatypes.S i) with (i + 1) by lia.
  rewrite <- !drop_drop. now rewrite H.
Qed.

Lemma compact_body_step i st :
  i < length cpgs0 -> compact_inv i st ->
  exists st', compact_body i st = Done st' /\ compact_inv (Datatypes.S i) st'.
Proof.
  intros Hi (Hj & (Lc & Tc & Dc) & (Lm & Tm & Dm) & (Lr & Tr & Dr)).
  destruct (lookup_lt_is_Some_2 cpgs0 i Hi) as [c Hc].
  destruct (lookup_lt_is_Some_2 meth0 i ltac:(lia)) as [m Hm].
  destruct (lookup_lt_is_Some_2 reads0 i ltac:(lia)) as [r Hr].
  unfold compact_body.
  rewrite (proj2 (at_done _ _ r)) by (rewrite (lookup_of_drop _ _ _ Dr); exact Hr).
  simpl. destruct (0 <? r)%Z eqn:Hpos.
  - rewrite (proj2 (at_done _ _ c)) by (rewrite (lookup_of_drop _ _ _ Dc); exact Hc).
    rewrite (proj2 (at_done _ _ m)) by (rewrite (lookup_of_drop _ _ _ Dm); exact Hm).
    simpl. eexists; split; [reflexivity|].
    unfold compact_inv; cbn [cs_j cs_cpgs cs_meth cs_reads].
    rewrite (retained_take_S cpgs0 i r c Hr Hc),
            (retained_take_S meth0 i r m Hr Hm),
            (retained_take_S reads0 i r r Hr Hr), Hpos.
    destruct (compact_write (cs_cpgs st) cpgs0 (cs_j st) i c _ Hj ltac:(lia) Tc Dc)
      as (-> & -> & ->).
    destruct (compact_write (cs_meth st) meth0 (cs_j st) i m _ Hj ltac:(lia) Tm Dm)
      as (-> & -> & ->).
    destruct (compact_write (cs_reads st) reads0 (cs_j st) i r _ Hj ltac:(lia) Tr Dr)
      as (-> & -> & ->).
    repeat split; try assumption; lia.
  - eexists; split; [reflexivity|].
    unfold compact_inv.
    rewrite (retained_take_S cpgs0 i r c Hr Hc),
            (retained_take_S meth0 i r m Hr Hm),
            (retained_take_S reads0 i r r Hr Hr), Hpos, !app_nil_r.
    repeat split; try assumption; try lia; now apply drop_S_eq.
Qed.

(** The compaction loop followed by the three [erase] calls leaves the
    retained entries of each vector. *)
Lemma compact_loop_spec :
  exists st,
    for_loop compact_body 0 (length cpgs0) (mkCompact cpgs0 meth0 reads0 0)
      = Done st
    /\ erase_from (cs_j st) (cs_cpgs st) = Done (retained reads0 cpgs0)
    /\ erase_from (cs_j st) (cs_meth st) = Done (retained reads0 meth0)
    /\ erase_from (cs_j st) (cs_reads st) = Done (retained reads0 reads0).
Proof.
  destruct (for_loop_total compact_body compact_inv 0 (length cpgs0)
              (mkCompact cpgs0 meth0 reads0 0)) as (st & Hrun & Hinv).
  - unfold compact_inv; simpl. rewrite !take_0, !drop_0. repeat split; lia.
  - intros i t Hi. apply compact_body_step. lia.
  - exists st. split; [exact Hrun|].
    destruct Hinv as (Hj & (Lc & Tc & Dc) & (Lm & Tm & Dm) & (Lr & Tr & Dr)).
    simpl in *.
    rewrite (take_ge reads0), (take_ge cpgs0) in Tc by lia.
    rewrite (take_ge reads0), (take_ge meth0) in Tm by lia.
    rewrite (take_ge reads0) in Tr by lia.
    unfold erase_from.
    rewrite !(proj2 (Nat.leb_le _ _)) by lia.
    now rewrite Tc, Tm, Tr.
Qed.
End CompactionLoop.

(** ** separate_regions: the segregation *)

Section Segregation.
Local Open Scope nat_scope.
Variable desert_size : size_t.
Variable cpgs : list SimpleGenomicRegion.
Variable rp0 : list nat.

Local Abbreviation segregate_inv := (segregate_inv desert_size cpgs rp0).

Lemma segregate_body_step i st :
  i < length cpgs -> segregate_inv i st ->
  exists st', segregate_body desert_size cpgs i st = Done st'
              /\ segregate_inv (Datatypes.S i) st'.
Proof.
  intros Hi (Hrp & Hprev).
  destruct (lookup_lt_is_Some_2 cpgs i Hi) as [c Hc].
  unfold segregate_body. rewrite (proj2 (at_done _ _ c) Hc). simpl.
  assert (Hb : exists same,
             (if 0 <? i
              then do p <- at_ cpgs (i - 1); Done (same_chrom c p)
              else Done false) = Done same
             /\ is_boundary desert_size cpgs i
                = (desert_size <? (if same
                                   then size_sub (get_start c) (sg_prev_cpg st)
                                   else SIZE_MAX))%Z).
  { unfold is_boundary, boundary_dist. rewrite Hc.
    destruct i as [|k].
    - exists false. now split.
    - destruct (lookup_lt_is_Some_2 cpgs k ltac:(lia)) as [p Hp].
      exists (same_chrom c p). simpl. rewrite Nat.sub_0_r.
      rewrite (proj2 (at_done _ _ p) Hp), Hp. simpl. split; [reflexivity|].
      rewrite (Hprev k p eq_refl Hp). now destruct (same_chrom c p). }
  destruct Hb as (same & -> & Hb). simpl.
  eexists; split; [reflexivity|]. split; cbn [sg_reset_points sg_prev_cpg].
  - rewrite seq_S, List.filter_app. cbn [List.filter Nat.add]. rewrite Hb, Hrp.
    destruct (desert_size <? _)%Z; [now rewrite app_assoc | now rewrite app_nil_r].
  - intros k p [= <-] Hp. congruence.
Qed.

Lemma segregate_loop_spec :
  exists st,
    for_loop (segregate_body desert_size cpgs) 0 (length cpgs) (mkSeg 0%Z rp0)
      = Done st
    /\ sg_reset_points st = rp0 ++ chain_starts desert_size cpgs.
Proof.
  destruct (for_loop_total (segregate_body desert_size cpgs) segregate_inv
              0 (length cpgs) (mkSeg 0%Z rp0)) as (st & Hrun & Hrp & _).
  - split; simpl; [now rewrite app_nil_r | intros; discriminate].
  - intros i t Hi. apply segregate_body_step. lia.
  - exists st. now split.
Qed.
End Segregation.

(** [separate_regions] returns on parallel vectors of one length, with the
    retained entries of each vector and the chain starts over the retained
    sites appended to [reset_points]. *)
Lemma separate_regions_spec {T : Type} (desert_size : size_t)
    (cpgs : list SimpleGenomicRegion) (meth : list T) (reads : list size_t)
    (reset_points : list nat) :
  length meth = length cpgs -> length reads = length cpgs ->
  separate_regions desert_size cpgs meth reads reset_points
  = Done (mkSeparated (retained reads cpgs) (retained reads meth)
            (retained reads reads)
            (reset_points ++ chain_starts desert_size (retained reads cpgs))).
Proof.
  intros Hm Hr. unfold separate_regions.
  destruct (compact_loop_spec cpgs meth reads Hm Hr) as (st & Hrun & Hc & Hm' & Hr').
  rewrite Hrun. cbn [obind]. rewrite Hc, Hm', Hr'. cbn [obind].
  destruct (segregate_loop_spec desert_size (retained reads cpgs) reset_points)
    as (sg & Hseg & Hrp).
  rewrite Hseg. cbn [obind]. now rewrite Hrp.
Qed.

(** ** Chain starts *)

Section ChainStarts.
Local Open Scope nat_scope.

Lemma filter_seq_sorted (f : nat -> bool) (a n : nat) :
  StronglySorted lt (List.filter f (seq a n)).
Proof.
  revert a. induction n as [|n IH]; intros a; simpl; [constructor|].
  destruct (f a); [|apply IH].
  constructor; [apply IH|].
  apply List.Forall_forall. intros x Hx.
  apply List.filter_In in Hx. destruct Hx as [Hx _].
  apply List.in_seq in Hx. lia.
Qed.

Variable desert_size : size_t.
Variable cpgs : list SimpleGenomicRegion.

Lemma is_boundary_lt i : is_boundary desert_size cpgs i = true -> i < length cpgs.
Proof.
  unfold is_boundary, boundary_dist.
  destruct (cpgs !! i) eqn:E; [|discriminate].
  intros _. now apply lookup_lt_Some in E.
Qed.

Lemma chain_starts_In i :
  In i (chain_starts desert_size cpgs) <-> is_boundary desert_size cpgs i = true.
Proof.
  unfold chain_starts. rewrite List.filter_In, List.in_seq. split.
  - tauto.
  - intros H. split; [|exact H]. apply is_boundary_lt in H. lia.
Qed.

Lemma chain_starts_lt i :
  In i (chain_starts desert_size cpgs) -> i < length cpgs.
Proof. rewrite chain_starts_In. apply is_boundary_lt. Qed.

Lemma chain_starts_sorted : StronglySorted lt (chain_starts desert_size cpgs).
Proof. apply filter_seq_sorted. Qed.

Lemma chain_starts_0 :
  (desert_size < SIZE_MAX)%Z -> cpgs <> [] -> In 0 (chain_starts desert_size cpgs).
Proof.
  intros HD Hne. apply chain_starts_In. unfold is_boundary, boundary_dist.
  destruct cpgs as [|c l]; [congruence|]. simpl. now apply Z.ltb_lt.
Qed.

(** The test made before a site that has a predecessor. *)
Lemma is_boundary_succ k c p :
  cpgs !! Datatypes.S k = Some c -> cpgs !! k = Some p ->
  is_boundary desert_size cpgs (Datatypes.S k)
  = (desert_size <? (if same_chrom c p
                     then size_sub (get_start c) (get_start p)
                     else SIZE_MAX))%Z.
Proof.
  intros Hc Hp. unfold is_boundary, boundary_dist. now rewrite Hc, Hp.
Qed.
End ChainStarts.

(** The chain starts of a table that is not empty, for a desert size below
    [SIZE_MAX], are well-formed reset points. *)
Lemma chain_starts_wf (desert_size : size_t) (cpgs : list SimpleGenomicRegion) :
  desert_size < SIZE_MAX -> cpgs <> [] ->
  wf_reset_points (chain_starts desert_size cpgs).
Proof.
  intros HD Hne. split; [|apply chain_starts_sorted].
  pose proof (chain_starts_0 desert_size cpgs HD Hne) as H0.
  pose proof (chain_starts_sorted desert_size cpgs) as Hs.
  destruct (chain_starts desert_size cpgs) as [|r l]; [destruct H0|].
  simpl. f_equal. destruct H0 as [->|H0]; [reflexivity|].
  inversion Hs as [|? ? _ Hall]; subst.
  rewrite List.Forall_forall in Hall. specialize (Hall 0%nat H0). lia.
Qed.


Lemma retained_positive (reads : list size_t) :
  Forall (fun r => 0 < r) (retained reads reads).
Proof.
  induction reads as [|r reads IH]; simpl; [constructor|].
  destruct (0 <? r) eqn:E; [|exact IH].
  constructor; [now apply Z.ltb_lt | exact IH].
Qed.

Lemma retained_nonempty {A : Type} (reads : list size_t) (v : list A) :
  length reads = length v -> Exists (fun r => 0 < r) reads ->
  retained reads v <> [].
Proof.
  revert v. induction reads as [|r reads IH]; intros [|x v] Hlen Hex;
    simpl in Hlen; try discriminate.
  - inversion Hex.
  - simpl. destruct (0 <? r) eqn:E; [discriminate|].
    apply IH; [lia|]. inversion Hex as [? ? H|? ? H]; subst; [|exact H].
    apply Z.ltb_lt in H. congruence.
Qed.

(** C1 fails on the code.  [separate_regions] pushes the positions of
    chain starts only (lines 123-130) and never the number of retained
    sites: for two neighbouring sites of coverage 4 the reset points are
    [[0]], with no entry equal to 2, and [build_domains], which reads
    [reset_points[reset_idx]] from index 1 on, reads outside that vector.
    On every table of parallel vectors the function removes exactly the
    sites of zero coverage and returns as reset points the chain starts
    over the retained sites, in strictly increasing order, with index 0
    among them when a site is retained and the desert size is below
    [SIZE_MAX]; every entry is the position of a retained site, so that
    none is the end-of-table sentinel. *)
Theorem separate_regions_omits_sentinel :
  (separate_regions 2000 [site "chr1" 10; site "chr1" 20] [tt; tt] [4; 4] []
   = Done (mkSeparated [site "chr1" 10; site "chr1" 20] [tt; tt] [4; 4] [0%nat])
   /\ ~ In (length [site "chr1" 10; site "chr1" 20]) [0%nat]
   /\ build_domains toa_decimal "X" dbl_zero "+"
        [site "chr1" 10; site "chr1" 20] [double_of_Z 1; double_of_Z 1]
        [0%nat] [true; true] []
      = Undefined)
  /\ forall (T : Type) (desert_size : size_t) (cpgs : list SimpleGenomicRegion)
       (meth : list T) (reads : list size_t),
       length meth = length cpgs ->
       length reads = length cpgs ->
       exists sep,
         separate_regions desert_size cpgs meth reads [] = Done sep
         /\ sep_cpgs sep = retained reads cpgs
         /\ sep_meth sep = retained reads meth
         /\ sep_reads sep = retained reads reads
         /\ Forall (fun r => 0 < r) (sep_reads sep)
         /\ sep_reset_points sep = chain_starts desert_size (sep_cpgs sep)
         /\ (forall i, In i (sep_reset_points sep)
                       <-> is_boundary desert_size (sep_cpgs sep) i = true)
         /\ StronglySorted lt (sep_reset_points sep)
         /\ (desert_size < SIZE_MAX -> sep_cpgs sep <> [] ->
             In 0%nat (sep_reset_points sep))
         /\ Forall (fun r => (r < length (sep_cpgs sep))%nat) (sep_reset_points sep)
         /\ ~ In (length (sep_cpgs sep)) (sep_reset_points sep).
Proof.
  split.
  - split; [reflexivity|]. split; [|reflexivity].
    simpl. intros [H|[]]. discriminate.
  - intros T desert_size cpgs meth reads Hm Hr.
    eexists. split; [now apply separate_regions_spec|].
    cbn [sep_cpgs sep_meth sep_reads sep_reset_points app].
    split; [reflexivity|]. split; [reflexivity|]. split; [reflexivity|].
    split; [apply retained_positive|]. split; [reflexivity|].
    split; [intros i; apply chain_starts_In|].
    split; [apply chain_starts_sorted|].
    split; [intros HD Hne; now apply chain_starts_0|].
    split.
    + apply List.Forall_forall. intros r. apply chain_starts_lt.
    + intros Hin. apply chain_starts_lt in Hin. lia.
Qed.

(** Index 0 itself is absent from the reset points when the desert size
    is [SIZE_MAX], the value that also encodes a missing predecessor, and
    when no site is retained. *)
Example separate_regions_without_index_0 :
  (separate_regions SIZE_MAX [site "chr1" 10] [tt] [1] []
   = Done (mkSeparated [site "chr1" 10] [tt] [1] [])
   /\ ~ In 0%nat (@nil nat))
  /\ (separate_regions 2000 [site "chr1" 10] [tt] [0] []
      = Done (mkSeparated [] [] [] [])
      /\ ~ In 0%nat (@nil nat)).
Proof. repeat split; try reflexivity; simpl; tauto. Qed.



(** The two sites of the witness table that are 2001 apart fall in two
    chains, the two that are 1999 apart stay in one. *)
Example separate_regions_2001_1999 :
  separate_regions 2000 [site "chr1" 10; site "chr1" 2011; site "chr1" 4010]
    [tt; tt; tt] [4; 4; 4] []
  = Done (mkSeparated [site "chr1" 10; site "chr1" 2011; site "chr1" 4010]
            [tt; tt; tt] [4; 4; 4] [0%nat; 1%nat]).
Proof. reflexivity. Qed.


(** ** build_domains *)

Lemma sorted_lookup_lt (l : list nat) (j j' r r' : nat) :
  StronglySorted lt l -> l !! j = Some r -> l !! j' = Some r' ->
  (j < j')%nat -> (r < r')%nat.
Proof.
  intros H. revert j j'.
  induction H as [|a l Hs IH Hall]; intros j j' Hj Hj' Hlt.
  - discriminate.
  - destruct j' as [|j']; [lia|]. destruct j as [|j]; simpl in *.
    + injection Hj as <-. exact (Forall_lookup_1 _ _ _ _ Hall Hj').
    + apply (IH j j'); [assumption | assumption | lia].
Qed.

Lemma lookup_In {A : Type} (l : list A) (i : nat) (x : A) :
  l !! i = Some x -> In x l.
Proof. intros H. apply list_elem_of_In. now apply list_elem_of_lookup_2 in H. Qed.

Lemma In_lookup {A : Type} (l : list A) (x : A) :
  In x l -> exists i, l !! i = Some x.
Proof. intros H. apply list_elem_of_In in H. now apply list_elem_of_lookup_1. Qed.

Lemma run_score_one (post_scores : list double) (i : nat) (p : double) :
  post_scores !! i = Some p ->
  run_score post_scores i (S i) = dadd dbl_zero p.
Proof.
  intros Hp. unfold run_score. replace (S i - i)%nat with 1%nat by lia.
  rewrite (drop_S _ _ _ Hp). reflexivity.
Qed.

Lemma run_score_snoc (post_scores : list double) (s i : nat) (p : double) :
  (s <= i)%nat -> post_scores !! i = Some p ->
  run_score post_scores s (S i) = dadd (run_score post_scores s i) p.
Proof.
  intros Hs Hp. unfold run_score.
  replace (S i - s)%nat with (S (i - s)) by lia.
  rewrite (take_S_r _ _ p).
  - now rewrite fold_left_app.
  - rewrite lookup_drop. now replace (s + (i - s))%nat with i by lia.
Qed.

Section BuildDomainsProof.
Local Open Scope nat_scope.
Variable toa : nat -> string.
Variable init_name : string.
Variable init_score : double.
Variable init_strand : ascii.
Variable cpgs : list SimpleGenomicRegion.
Variable post_scores : list double.
Variable reset_points : list nat.
Variable classes : list bool.
Variable domains0 : list GenomicRegion.

Local Abbreviation open_record := (open_record toa init_name init_score init_strand).
Local Abbreviation closed_ok := (closed_ok cpgs post_scores reset_points classes).
Local Abbreviation tracking := (tracking reset_points).
Local Abbreviation open_run :=
  (open_run toa init_name init_score init_strand cpgs post_scores
            reset_points classes domains0).
Local Abbreviation prev_ok := (prev_ok cpgs).
Local Abbreviation bd_inv :=
  (bd_inv toa init_name init_score init_strand cpgs post_scores
          reset_points classes domains0).
Local Abbreviation bd_mid :=
  (bd_mid toa init_name init_score init_strand cpgs post_scores
          reset_points classes domains0).

Lemma back_update_snoc f l d : back_update f (l ++ [d]) = Done (l ++ [f d]).
Proof.
  unfold back_update. rewrite rev_app_distr. simpl. now rewrite rev_involutive.
Qed.

Lemma close_domain_spec st pre o :
  bd_domains st = pre ++ [o] ->
  close_domain st
  = Done (mkBD (pre ++ [set_score (bd_score st) (set_end (bd_prev_end st) o)])
               0 (bd_n_domains st) (bd_reset_idx st) (bd_prev_end st)
               false dbl_zero).
Proof.
  intros H. unfold close_domain. rewrite H, back_update_snoc. cbn [obind].
  now rewrite back_update_snoc.
Qed.

Lemma closed_ok_mono b b' d : b <= b' -> closed_ok b d -> closed_ok b' d.
Proof.
  intros Hb (s & e & He & H). exists s, e. split; [lia | exact H].
Qed.

Lemma Forall_closed_ok_mono b b' ds :
  b <= b' -> Forall (closed_ok b) ds -> Forall (closed_ok b') ds.
Proof.
  intros Hb H. eapply Forall_impl; [exact H|].
  intros d. now apply closed_ok_mono.
Qed.

(** A chain start that the test at site [i] misses is not [i]. *)
Lemma no_hidden_reset i idx r :
  wf_reset_points reset_points ->
  (1 <= idx
   /\ forall j r, reset_points !! j = Some r -> 1 <= j -> (j < idx <-> r < i)) ->
  reset_points !! idx = Some r -> r <> i ->
  forall j, 1 <= j -> reset_points !! j <> Some i.
Proof.
  intros [_ Hs] [Hidx Ht] Hr Hne j Hj Hji.
  assert (Hj' : ~ j < idx) by (rewrite (Ht j i Hji Hj); lia).
  assert (Hr' : ~ r < i) by (rewrite <- (Ht idx r Hr Hidx); lia).
  destruct (Nat.eq_dec j idx) as [->|Hd]; [congruence|].
  assert (r < i) by (apply (sorted_lookup_lt reset_points idx j); auto; lia).
  contradiction.
Qed.

Lemma tracking_hit i idx :
  reset_points !! idx = Some i -> tracking i idx -> tracking (S i) (S idx).
Proof.
  intros Hr Ht Hwf. destruct (Ht Hwf) as [Hidx Hall]. split; [lia|].
  intros j r Hj H1. specialize (Hall j r Hj H1). split.
  - intros Hlt. destruct (Nat.eq_dec j idx) as [->|Hd].
    + assert (r = i) by congruence. lia.
    + assert (r < i) by (apply Hall; lia). lia.
  - intros Hlt. destruct (Nat.lt_ge_cases r i) as [Hri|Hri].
    + assert (j < idx) by now apply Hall. lia.
    + assert (r = i) by lia. subst r.
      destruct (Nat.lt_trichotomy j idx) as [H|[H|H]]; [lia | lia |].
      pose proof (sorted_lookup_lt _ _ _ _ _ (proj2 Hwf) Hr Hj H). lia.
Qed.

Lemma tracking_miss i idx r :
  reset_points !! idx = Some r -> r <> i -> tracking i idx -> tracking (S i) idx.
Proof.
  intros Hr Hne Ht Hwf. destruct (Ht Hwf) as [Hidx Hall]. split; [lia|].
  intros j r' Hj H1. split.
  - intros Hlt. assert (r' < i) by now apply (Hall j r' Hj H1). lia.
  - intros Hlt. destruct (Nat.lt_ge_cases r' i) as [Hri|Hri].
    + now apply (Hall j r' Hj H1).
    + assert (r' = i) by lia. subst r'.
      exfalso. exact (no_hidden_reset i idx r Hwf (conj Hidx Hall) Hr Hne j H1 Hj).
Qed.

(** The record written when the open domain of the run [s .. i-1] is
    closed at site [i]. *)
Lemma closed_record_ok st s c k c' i :
  s < i -> cpgs !! s = Some c ->
  cpgs !! (i - 1) = Some c' -> bd_prev_end st = get_end c' ->
  bd_score st = run_score post_scores s i ->
  all_foreground classes s i ->
  left_maximal reset_points classes s ->
  right_maximal reset_points classes i ->
  (wf_reset_points reset_points -> no_reset_inside reset_points s i) ->
  closed_ok i (set_score (bd_score st) (set_end (bd_prev_end st) (open_record c k))).
Proof.
  intros Hs Hc Hc' Hpe Hsc Hall Hl Hr Hno. exists s, i. split; [lia|].
  split; [|exact Hno].
  split; [exact Hs|]. split; [|repeat split; try assumption].
  exists c, c'. repeat split; assumption.
Qed.

Lemma reset_part_mid i st r st1 :
  bd_inv i st -> reset_points !! bd_reset_idx st = Some r ->
  reset_part r i st = Done st1 -> bd_mid i st1.
Proof.
  intros (Hprev & Htrack & ds & Hdom) Hr Hrun. unfold reset_part in Hrun.
  destruct (Nat.eqb_spec r i) as [->|Hne].
  - (* a chain starts at [i] *)
    assert (Hin : In i reset_points) by exact (lookup_In _ _ _ Hr).
    destruct (bd_in_domain st) eqn:Hopen.
    + destruct Hdom as (s & c & k & Hs & Hc & Hds & Hd & Hsc & Hall & Hl & Hno).
      destruct (Hprev ltac:(lia)) as (c' & Hc' & Hpe).
      rewrite (close_domain_spec st (domains0 ++ ds) (open_record c k)) in Hrun
        by (now rewrite Hd, app_assoc).
      cbn [obind] in Hrun. injection Hrun as <-.
      split; [exact Hprev|]. split; [now apply tracking_hit|].
      exists (ds ++ [set_score (bd_score st)
                       (set_end (bd_prev_end st) (open_record c k))]).
      cbn [bd_in_domain next_reset bd_domains bd_score].
      split; [|split; [now rewrite app_assoc|split; [reflexivity|]]].
      * apply Forall_app. split.
        -- apply (Forall_closed_ok_mono s); [lia | exact Hds].
        -- apply Forall_singleton.
           apply (closed_record_ok st s c k c' i); auto. now right.
      * right. now right.
    + cbn [obind] in Hrun. injection Hrun as <-.
      destruct Hdom as (Hds & Hd & Hsc & Hcl).
      split; [exact Hprev|]. split; [now apply tracking_hit|].
      exists ds. cbn [bd_in_domain next_reset bd_domains bd_score].
      rewrite Hopen. repeat split; try assumption. right. now right.
  - (* no chain starts at [i] *)
    injection Hrun as <-.
    split; [exact Hprev|]. split; [now apply (tracking_miss i _ r)|].
    exists ds. destruct (bd_in_domain st) eqn:Hopen.
    + destruct Hdom as (s & c & k & Hs & Hc & Hds & Hd & Hsc & Hall & Hl & Hno).
      exists s, c, k. repeat split; try assumption.
      intros Hwf r' Hr' Hbetween.
      destruct (Nat.eq_dec r' i) as [->|Hd'].
      * destruct (In_lookup _ _ Hr') as [j Hj].
        assert (1 <= j).
        { destruct j as [|j]; [|lia]. destruct Hwf as [H0 _]. 
          rewrite H0 in Hj. injection Hj as <-. lia. }
        exact (no_hidden_reset i _ r Hwf (Htrack Hwf) Hr Hne j H Hj).
      * apply (Hno Hwf r' Hr'). lia.
    + destruct Hdom as (Hds & Hd & Hsc & Hcl).
      repeat split; try assumption.
      destruct i as [|i]; [now left|]. right. left. apply Hcl. lia.
Qed.
Lemma class_part_inv i st1 cl st2 c :
  bd_mid i st1 -> classes !! i = Some cl ->
  class_part toa init_name init_score init_strand cpgs post_scores cl i st1
    = Done st2 ->
  cpgs !! i = Some c ->
  bd_inv (S i) (with_prev_end (get_end c) st2).
Proof.
  intros (Hprev & Htrack & ds & Hdom) Hcl Hrun Hc. unfold class_part in Hrun.
  assert (Hprev' : forall st, prev_ok (S i) (with_prev_end (get_end c) st)).
  { intros st _. exists c. replace (S i - 1) with i by lia. now split. }
  destruct cl.
  - (* foreground *)
    destruct (bd_in_domain st1) eqn:Hopen; cbn [negb] in Hrun.
    + cbn [obind] in Hrun. bind_inv Hrun. injection Hrun as <-.
      apply at_done in Ha. rename a into p.
      destruct Hdom as (s & c0 & k & Hs & Hc0 & Hds & Hd & Hsc & Hall & Hl & Hno).
      split; [apply Hprev'|]. split; [exact Htrack|].
      exists ds. cbn [bd_in_domain with_prev_end add_site]. rewrite Hopen.
      exists s, c0, k. cbn [bd_domains bd_score with_prev_end add_site].
      split; [lia|]. repeat split; try assumption.
      * rewrite Hsc. symmetry. apply run_score_snoc; [lia | exact Ha].
      * intros j Hj. destruct (Nat.eq_dec j i) as [->|Hd']; [exact Hcl|].
        apply Hall. lia.
    + rewrite (proj2 (at_done _ _ c) Hc) in Hrun. cbn [obind] in Hrun.
      bind_inv Hrun. injection Hrun as <-.
      apply at_done in Ha. rename a into p.
      destruct Hdom as (Hds & Hd & Hsc & Hl).
      split; [apply Hprev'|]. split; [exact Htrack|].
      exists ds. cbn [bd_in_domain with_prev_end add_site open_domain].
      exists i, c, (bd_n_domains st1).
      cbn [bd_domains bd_score with_prev_end add_site open_domain].
      split; [lia|]. repeat split; try assumption.
      * now rewrite Hd, app_assoc.
      * rewrite Hsc. symmetry. now apply run_score_one.
      * intros j Hj. now replace j with i by lia.
      * intros _ r _ Hb. lia.
  - (* background *)
    destruct (bd_in_domain st1) eqn:Hopen.
    + destruct Hdom as (s & c0 & k & Hs & Hc0 & Hds & Hd & Hsc & Hall & Hl & Hno).
      destruct (Hprev ltac:(lia)) as (c' & Hc' & Hpe).
      rewrite (close_domain_spec st1 (domains0 ++ ds) (open_record c0 k)) in Hrun
        by (now rewrite Hd, app_assoc).
      injection Hrun as <-.
      split; [apply Hprev'|]. split; [exact Htrack|].
      exists (ds ++ [set_score (bd_score st1)
                       (set_end (bd_prev_end st1) (open_record c0 k))]).
      cbn [bd_in_domain with_prev_end bd_domains bd_score].
      split; [|split; [now rewrite app_assoc|split; [reflexivity|]]].
      * apply Forall_app. split.
        -- apply (Forall_closed_ok_mono s); [lia | exact Hds].
        -- apply Forall_singleton. apply (closed_ok_mono i); [lia|].
           apply (closed_record_ok st1 s c0 k c' i); auto; [now left|].
           intros Hwf r Hr Hb. apply (Hno Hwf r Hr). lia.
      * intros _. replace (S i - 1) with i by lia. exact Hcl.
    + injection Hrun as <-.
      destruct Hdom as (Hds & Hd & Hsc & Hl).
      split; [apply Hprev'|]. split; [exact Htrack|].
      exists ds. cbn [bd_in_domain with_prev_end]. rewrite Hopen.
      cbn [bd_domains bd_score]. repeat split; try assumption.
      * apply (Forall_closed_ok_mono i); [lia | exact Hds].
      * intros _. replace (S i - 1) with i by lia. exact Hcl.
Qed.

(** Every iteration that returns keeps the invariant. *)
Lemma build_domains_body_inv i st st' :
  bd_inv i st ->
  build_domains_body toa init_name init_score init_strand cpgs post_scores
    reset_points classes i st = Done st' ->
  bd_inv (S i) st'.
Proof.
  intros Hinv Hrun. unfold build_domains_body in Hrun.
  bind_inv Hrun. rename a into r, Ha into Hr. apply at_done in Hr.
  bind_inv Hrun. rename a into st1, Ha into H1.
  bind_inv Hrun. rename a into cl, Ha into Hcl. apply at_done in Hcl.
  bind_inv Hrun. rename a into st2, Ha into H2.
  bind_inv Hrun. rename a into c, Ha into Hc. apply at_done in Hc.
  injection Hrun as <-.
  apply (class_part_inv i st1 cl st2 c); try assumption.
  now apply (reset_part_mid i st r st1).
Qed.

Lemma bd_inv_init : bd_inv 0 (bd_init domains0).
Proof.
  split; [intros H; lia|]. split.
  - intros _. simpl. split; [lia|]. intros j r _ Hj. lia.
  - exists []. simpl. rewrite app_nil_r. repeat split; [constructor | lia].
Qed.

Lemma build_domains_inv st :
  build_domains toa init_name init_score init_strand cpgs post_scores
    reset_points classes domains0 = Done st ->
  bd_inv (length classes) st.
Proof.
  intros Hrun. unfold build_domains in Hrun.
  refine (for_loop_inv _ bd_inv 0 (length classes) _ st bd_inv_init _ Hrun).
  intros i t t' _. apply build_domains_body_inv.
Qed.
End BuildDomainsProof.

(** C9.  With well-formed reset points, every completed domain in the
    output of [build_domains] is the domain of a maximal run of
    foreground sites within one chain: no chain starts at a member other
    than the first; the run cannot be extended to the left or to the
    right; the start is that of the first member, the end that of the last
    member (also when the domain is closed at a chain start), and the
    score is the sum of the posterior scores of the members. *)
Theorem build_domains_completed (toa : nat -> string) (init_name : string)
    (init_score : double) (init_strand : ascii)
    (cpgs : list SimpleGenomicRegion) (post_scores : list double)
    (reset_points : list nat) (classes : list bool) (st : bd_state) :
  wf_reset_points reset_points ->
  build_domains toa init_name init_score init_strand cpgs post_scores
    reset_points classes [] = Done st ->
  forall d, In d (completed_domains st) ->
            complete_domain cpgs post_scores reset_points classes d.
Proof.
  intros Hwf Hrun d Hd.
  destruct (build_domains_inv _ _ _ _ _ _ _ _ _ _ Hrun) as (_ & _ & ds & Hdom).
  unfold completed_domains in Hd.
  assert (Hds : exists b, Forall (closed_ok cpgs post_scores reset_points classes b) ds
                          /\ In d ds).
  { destruct (bd_in_domain st).
    - destruct Hdom as (s & c & k & _ & _ & Hds & Hdoms & _).
      exists s. split; [exact Hds|].
      rewrite Hdoms in Hd. simpl in Hd. now rewrite removelast_last in Hd.
    - destruct Hdom as (Hds & Hdoms & _).
      exists (length classes). split; [exact Hds|]. now rewrite Hdoms in Hd. }
  destruct Hds as (b & Hall & Hin).
  rewrite List.Forall_forall in Hall.
  destruct (Hall d Hin) as (s & e & _ & Hspan & Hno).
  exists s, e. split; [exact Hspan | exact (Hno Hwf)].
Qed.

Lemma build_domains_completed_witness :
  (wf_reset_points [0%nat; 3%nat]
   /\ build_domains toa_decimal "X" dbl_zero "+" sample_cpgs sample_scores
        [0%nat; 3%nat] [true; true; false; false] []
      = Done (mkBD [sample_domain] 0 1 2 5001 false dbl_zero))
  /\ forall d,
       In d (completed_domains (mkBD [sample_domain] 0 1 2 5001 false dbl_zero)) ->
       complete_domain sample_cpgs sample_scores [0%nat; 3%nat]
         [true; true; false; false] d.
Proof.
  assert (H1 : wf_reset_points [0%nat; 3%nat]).
  { split; [reflexivity|]. repeat constructor. }
  assert (H2 : build_domains toa_decimal "X" dbl_zero "+" sample_cpgs sample_scores
                 [0%nat; 3%nat] [true; true; false; false] []
               = Done (mkBD [sample_domain] 0 1 2 5001 false dbl_zero))
    by reflexivity.
  split; [now split|].
  exact (build_domains_completed _ _ _ _ _ _ _ _ _ H1 H2).
Defined.

(** The reset points of the sample sites, as used in the sample runs. *)
Example separate_regions_sample :
  separate_regions 2000 sample_cpgs sample_meth [10; 10; 10; 10] []
  = Done (mkSeparated sample_cpgs sample_meth [10; 10; 10; 10] [0%nat; 3%nat]).
Proof. reflexivity. Qed.

(** C2 fails on the code.  The reset points [separate_regions] produces
    for a table of one chain are [[0]]; [build_domains] starts with
    [reset_idx = 1] and its first iteration reads [reset_points[1]],
    outside the vector. *)
Theorem build_domains_reads_past_reset_points :
  separate_regions 2000 [site "chr1" 10; site "chr1" 20] [tt; tt] [4; 4] []
  = Done (mkSeparated [site "chr1" 10; site "chr1" 20] [tt; tt] [4; 4] [0%nat])
  /\ at_ [0%nat] (bd_reset_idx (bd_init [])) = Undefined
  /\ forall toa init_name init_score init_strand cpgs post_scores cl classes domains,
       build_domains toa init_name init_score init_strand cpgs post_scores
         [0%nat] (cl :: classes) domains = Undefined.
Proof.
  split; [reflexivity|]. split; [reflexivity|]. intros. reflexivity.
Qed.

(** *** build_domains returns when the reset points end with a sentinel *)

Section BuildDomainsTotal.
Local Open Scope nat_scope.
Variable toa : nat -> string.
Variable init_name : string.
Variable init_score : double.
Variable init_strand : ascii.
Variable cpgs : list SimpleGenomicRegion.
Variable post_scores : list double.
Variable reset_points : list nat.
Variable classes : list bool.
Variable domains0 : list GenomicRegion.
Hypothesis Hwf : wf_reset_points reset_points.
Hypothesis Hsentinel : last reset_points = Some (length classes).
Hypothesis Hcpgs : length classes <= length cpgs.
Hypothesis Hpost : length classes <= length post_scores.

Local Abbreviation bd_inv' :=
  (bd_inv toa init_name init_score init_strand cpgs post_scores
          reset_points classes domains0).
Local Abbreviation bd_mid' :=
  (bd_mid toa init_name init_score init_strand cpgs post_scores
          reset_points classes domains0).

Lemma reset_idx_in_bounds i st :
  i < length classes -> bd_inv' i st ->
  exists r, reset_points !! bd_reset_idx st = Some r.
Proof.
  intros Hi (_ & Htrack & _). destruct (Htrack Hwf) as [Hidx Hall].
  rewrite last_lookup in Hsentinel.
  assert (HL : 1 <= pred (length reset_points)).
  { destruct (pred (length reset_points)) eqn:E; [|lia].
    destruct Hwf as [H0 _]. rewrite H0 in Hsentinel.
    injection Hsentinel as Hn. lia. }
  assert (~ pred (length reset_points) < bd_reset_idx st).
  { rewrite (Hall _ _ Hsentinel HL). lia. }
  apply lookup_lt_is_Some_2. lia.
Qed.

Lemma reset_part_done i st r :
  bd_inv' i st -> exists st1, reset_part r i st = Done st1.
Proof.
  intros (_ & _ & ds & Hdom). unfold reset_part.
  destruct (r =? i); [|eauto].
  destruct (bd_in_domain st); [|cbn [obind]; eauto].
  destruct Hdom as (s & c & k & _ & _ & _ & Hd & _).
  rewrite (close_domain_spec st (domains0 ++ ds) _)
    by (rewrite Hd, app_assoc; reflexivity).
  cbn [obind]. eauto.
Qed.

Lemma class_part_done i st cl :
  i < length classes -> bd_mid' i st ->
  exists st2,
    class_part toa init_name init_score init_strand cpgs post_scores cl i st
    = Done st2.
Proof.
  intros Hi (_ & _ & ds & Hdom). unfold class_part.
  destruct (lookup_lt_is_Some_2 cpgs i ltac:(lia)) as [c Hc].
  destruct (lookup_lt_is_Some_2 post_scores i ltac:(lia)) as [p Hp].
  rewrite (proj2 (at_done _ _ c) Hc), (proj2 (at_done _ _ p) Hp).
  destruct cl.
  - destruct (negb (bd_in_domain st)); cbn [obind]; eauto.
  - destruct (bd_in_domain st); [|eauto].
    destruct Hdom as (s & c0 & k & _ & _ & _ & Hd & _).
    rewrite (close_domain_spec st (domains0 ++ ds) _)
      by (rewrite Hd, app_assoc; reflexivity).
    eauto.
Qed.

Lemma build_domains_body_done i st :
  i < length classes -> bd_inv' i st ->
  exists st',
    build_domains_body toa init_name init_score init_strand cpgs post_scores
      reset_points classes i st = Done st'
    /\ bd_inv' (S i) st'.
Proof.
  intros Hi Hinv.
  destruct (reset_idx_in_bounds i st Hi Hinv) as [r Hr].
  destruct (reset_part_done i st r Hinv) as [st1 H1].
  pose proof (reset_part_mid _ _ _ _ _ _ _ _ _ _ _ _ _ Hinv Hr H1) as Hmid.
  destruct (lookup_lt_is_Some_2 classes i Hi) as [cl Hcl].
  destruct (class_part_done i st1 cl Hi Hmid) as [st2 H2].
  destruct (lookup_lt_is_Some_2 cpgs i ltac:(lia)) as [c Hc].
  assert (Hrun : build_domains_body toa init_name init_score init_strand cpgs
                   post_scores reset_points classes i st
                 = Done (with_prev_end (get_end c) st2)).
  { unfold build_domains_body.
    rewrite (proj2 (at_done _ _ r) Hr). cbn [obind]. rewrite H1. cbn [obind].
    rewrite (proj2 (at_done _ _ cl) Hcl). cbn [obind]. rewrite H2. cbn [obind].
    now rewrite (proj2 (at_done _ _ c) Hc). }
  eexists. split; [exact Hrun|].
  now apply (build_domains_body_inv _ _ _ _ _ _ _ _ _ i st).
Qed.

(** With reset points that end with the number of sites, every read of
    [build_domains] is within bounds and the function returns. *)
Lemma build_domains_returns_with_sentinel :
  exists st,
    build_domains toa init_name init_score init_strand cpgs post_scores
      reset_points classes domains0 = Done st.
Proof.
  destruct (for_loop_total
              (build_domains_body toa init_name init_score init_strand cpgs
                 post_scores reset_points classes)
              bd_inv' 0 (length classes) (bd_init domains0))
    as (st & Hrun & _).
  - apply bd_inv_init.
  - intros i t Hi. apply build_domains_body_done. lia.
  - exists st. exact Hrun.
Qed.
End BuildDomainsTotal.

Example build_domains_with_sentinel :
  build_domains toa_decimal "X" dbl_zero "+" [site "chr1" 10; site "chr1" 20]
    [double_of_Z 1; double_of_Z 2] [0%nat; 2%nat] [true; false] []
  = Done (mkBD [mkGenomicRegion "chr1" "HYPO0" 10 11 (double_of_Z 1) "+"]
               0 1 1 21 false dbl_zero).
Proof. reflexivity. Qed.

(** C3 (as amended).  When the last site is foreground, [build_domains]
    returns with the domain of the final foreground run still open (and it
    does return when the reset points are well formed and end with the
    number of sites).  The last record of the output is the record pushed
    at the first site [s] of that run, the records before it are closed
    domains of runs that end at or before [s], and the score accumulated
    over the run stays in the local variable.  The record pushed at [s]
    has the end of site [s] and the initial score, so that it has the
    fields of the completed domain of the run exactly when the last site
    ends where site [s] ends and the accumulated score equals the initial
    score; otherwise, on a table in which no two sites share chromosome
    and start, no record of the output is the completed domain of the
    final run. *)
Theorem build_domains_last_open (toa : nat -> string) (init_name : string)
    (init_score : double) (init_strand : ascii)
    (cpgs : list SimpleGenomicRegion) (post_scores : list double)
    (reset_points : list nat) (classes : list bool)
    (domains : list GenomicRegion) :
  last classes = Some true ->
  (wf_reset_points reset_points ->
   last reset_points = Some (length classes) ->
   (length classes <= length cpgs)%nat ->
   (length classes <= length post_scores)%nat ->
   exists st,
     build_domains toa init_name init_score init_strand cpgs post_scores
       reset_points classes domains = Done st)
  /\ forall st,
       build_domains toa init_name init_score init_strand cpgs post_scores
         reset_points classes domains = Done st ->
       exists ds s c c' k,
         (s < length classes)%nat
         /\ cpgs !! s = Some c
         /\ cpgs !! (length classes - 1)%nat = Some c'
         /\ all_foreground classes s (length classes)
         /\ left_maximal reset_points classes s
         /\ (wf_reset_points reset_points ->
             no_reset_inside reset_points s (length classes))
         /\ bd_in_domain st = true
         /\ bd_score st = run_score post_scores s (length classes)
         /\ bd_domains st
            = domains ++ ds
              ++ [open_record toa init_name init_score init_strand c k]
         /\ Forall (closed_ok cpgs post_scores reset_points classes s) ds
         /\ (closed_over cpgs post_scores
               (open_record toa init_name init_score init_strand c k)
               s (length classes)
             <-> get_end c' = get_end c
                 /\ run_score post_scores s (length classes) = init_score)
         /\ (distinct_sites cpgs ->
             ~ (get_end c' = get_end c
                /\ run_score post_scores s (length classes) = init_score) ->
             forall d,
               In d (ds ++ [open_record toa init_name init_score init_strand c k]) ->
               ~ closed_over cpgs post_scores d s (length classes)).
Proof.
  intros Hlast. split.
  - intros Hwf Hsent Hc Hp.
    now apply build_domains_returns_with_sentinel.
  - intros st Hrun.
    destruct (build_domains_inv _ _ _ _ _ _ _ _ _ _ Hrun) as (Hprev & _ & ds & Hdom).
    rewrite last_lookup in Hlast.
    assert (Hn : (0 < length classes)%nat).
    { apply lookup_lt_Some in Hlast. lia. }
    destruct (Hprev Hn) as (c' & Hc' & _).
    destruct (bd_in_domain st).
    2:{ destruct Hdom as (_ & _ & _ & Hcl). specialize (Hcl Hn).
        replace (length classes - 1)%nat with (pred (length classes)) in Hcl by lia.
        congruence. }
    destruct Hdom as (s & c & k & Hs & Hc & Hds & Hdoms & Hsc & Hall & Hleft & Hno).
    assert (Hopen : closed_over cpgs post_scores
                      (open_record toa init_name init_score init_strand c k)
                      s (length classes)
                    <-> get_end c' = get_end c
                        /\ run_score post_scores s (length classes) = init_score).
    { split.
      - intros (c1 & c2 & H1 & H2 & _ & _ & He & Hscore).
        assert (c2 = c') by congruence. subst c2.
        split; [exact (eq_sym He) | exact (eq_sym Hscore)].
      - intros (He & Hscore). exists c, c'.
        repeat split; try assumption;
          [exact (eq_sym He) | exact (eq_sym Hscore)]. }
    exists ds, s, c, c', k.
    do 10 (split; [first [assumption | reflexivity]|]).
    split; [exact Hopen|].
    intros Hdist Hnot d Hin Hover.
    apply in_app_or in Hin. destruct Hin as [Hin|[<-|[]]].
    + rewrite List.Forall_forall in Hds.
      destruct (Hds d Hin) as (s' & e' & He' & (Hlt & (c1 & c1' & H1 & _ & Hch & Hst & _) & _) & _).
      destruct Hover as (c2 & c2' & H2 & _ & Hch2 & Hst2 & _).
      assert (s' = s) by (apply (Hdist s' s c1 c2); congruence).
      lia.
    + now apply Hnot, Hopen.
Qed.

(** A final run of three sites: the record keeps the end of its first
    site, 21, where the last site ends at 5001, and the initial score 0,
    where the accumulated score is 9. *)
Lemma build_domains_last_open_witness :
  last [false; true; true; true] = Some true
  /\ build_domains toa_decimal "X" dbl_zero "+" sample_cpgs sample_scores
       [0%nat; 4%nat] [false; true; true; true] []
     = Done (mkBD [mkGenomicRegion "chr1" "HYPO0" 20 21 dbl_zero "+"]
                  3 1 1 5001 true (double_of_Z 9))
  /\ ~ closed_over sample_cpgs sample_scores
        (mkGenomicRegion "chr1" "HYPO0" 20 21 dbl_zero "+") 1 4
  /\ exists ds s c c' k,
       (s < length [false; true; true; true])%nat
       /\ sample_cpgs !! s = Some c
       /\ sample_cpgs !! (length [false; true; true; true] - 1)%nat = Some c'
       /\ all_foreground [false; true; true; true] s
            (length [false; true; true; true])
       /\ left_maximal [0%nat; 4%nat] [false; true; true; true] s
       /\ (wf_reset_points [0%nat; 4%nat] ->
           no_reset_inside [0%nat; 4%nat] s (length [false; true; true; true]))
       /\ bd_in_domain (mkBD [mkGenomicRegion "chr1" "HYPO0" 20 21 dbl_zero "+"]
                             3 1 1 5001 true (double_of_Z 9)) = true
       /\ bd_score (mkBD [mkGenomicRegion "chr1" "HYPO0" 20 21 dbl_zero "+"]
                         3 1 1 5001 true (double_of_Z 9))
          = run_score sample_scores s (length [false; true; true; true])
       /\ bd_domains (mkBD [mkGenomicRegion "chr1" "HYPO0" 20 21 dbl_zero "+"]
                           3 1 1 5001 true (double_of_Z 9))
          = [] ++ ds ++ [open_record toa_decimal "X" dbl_zero "+" c k]
       /\ Forall (closed_ok sample_cpgs sample_scores [0%nat; 4%nat]
                    [false; true; true; true] s) ds
       /\ (closed_over sample_cpgs sample_scores
             (open_record toa_decimal "X" dbl_zero "+" c k)
             s (length [false; true; true; true])
           <-> get_end c' = get_end c
               /\ run_score sample_scores s (length [false; true; true; true])
                  = dbl_zero)
       /\ (distinct_sites sample_cpgs ->
           ~ (get_end c' = get_end c
              /\ run_score sample_scores s (length [false; true; true; true])
                 = dbl_zero) ->
           forall d,
             In d (ds ++ [open_record toa_decimal "X" dbl_zero "+" c k]) ->
             ~ closed_over sample_cpgs sample_scores d s
                 (length [false; true; true; true])).
Proof.
  assert (H1 : last [false; true; true; true] = Some true) by reflexivity.
  assert (H2 : build_domains toa_decimal "X" dbl_zero "+" sample_cpgs
                 sample_scores [0%nat; 4%nat] [false; true; true; true] []
               = Done (mkBD [mkGenomicRegion "chr1" "HYPO0" 20 21 dbl_zero "+"]
                            3 1 1 5001 true (double_of_Z 9)))
    by reflexivity.
  split; [exact H1|]. split; [exact H2|]. split.
  { intros (c & c' & _ & Hc' & _ & _ & He & _).
    injection Hc' as <-. discriminate He. }
  exact (proj2 (build_domains_last_open toa_decimal "X" dbl_zero "+" sample_cpgs
                  sample_scores [0%nat; 4%nat] [false; true; true; true] [] H1)
               _ H2).
Defined.

(** C3, as stated, fails.  On two sites in two chains, the second of
    them foreground with posterior score 0, the final run is the last site
    alone, and the record pushed for it already has the end of the last
    member site and the accumulated score, 0, the initial score: the
    output holds a record with the fields of the completed domain of the
    final run. *)
Lemma build_domains_last_open_counterexample :
  separate_regions 2000 [site "chr1" 10; site "chr1" 5000] [tt; tt] [4; 4] []
  = Done (mkSeparated [site "chr1" 10; site "chr1" 5000] [tt; tt] [4; 4]
            [0%nat; 1%nat])
  /\ last [false; true] = Some true
  /\ build_domains toa_decimal "X" dbl_zero "+"
       [site "chr1" 10; site "chr1" 5000] [dbl_zero; dbl_zero]
       [0%nat; 1%nat] [false; true] []
     = Done (mkBD [mkGenomicRegion "chr1" "HYPO0" 5000 5001 dbl_zero "+"]
                  1 1 2 5001 true dbl_zero)
  /\ all_foreground [false; true] 1 2
  /\ left_maximal [0%nat; 1%nat] [false; true] 1
  /\ no_reset_inside [0%nat; 1%nat] 1 2
  /\ closed_over [site "chr1" 10; site "chr1" 5000] [dbl_zero; dbl_zero]
       (mkGenomicRegion "chr1" "HYPO0" 5000 5001 dbl_zero "+") 1 2.
Proof.
  split; [reflexivity|]. split; [reflexivity|]. split; [reflexivity|].
  split; [|split; [|split]].
  - intros i Hi. assert (i = 1%nat) as -> by lia. reflexivity.
  - right. left. reflexivity.
  - intros r _. lia.
  - exists (site "chr1" 5000), (site "chr1" 5000). repeat split.
Qed.

(** Why the sites are taken to have distinct positions: in a table that
    repeats a position, the closed domain of an earlier run can have the
    fields the completed domain of the final run would have. *)
Example build_domains_repeated_site :
  build_domains toa_decimal "X" dbl_zero "+"
    [site "chr1" 10; site "chr1" 20; site "chr1" 10]
    [double_of_Z 1; double_of_Z 1; double_of_Z 1]
    [0%nat; 3%nat] [true; false; true] []
  = Done (mkBD [mkGenomicRegion "chr1" "HYPO0" 10 11 (double_of_Z 1) "+";
                mkGenomicRegion "chr1" "HYPO1" 10 11 dbl_zero "+"]
               1 2 1 11 true (double_of_Z 1))
  /\ closed_over [site "chr1" 10; site "chr1" 20; site "chr1" 10]
       [double_of_Z 1; double_of_Z 1; double_of_Z 1]
       (mkGenomicRegion "chr1" "HYPO0" 10 11 (double_of_Z 1) "+") 2 3
  /\ ~ distinct_sites [site "chr1" 10; site "chr1" 20; site "chr1" 10].
Proof.
  split; [reflexivity|]. split.
  - exists (site "chr1" 10), (site "chr1" 10). repeat split.
  - intros H.
    specialize (H 0%nat 2%nat (site "chr1" 10) (site "chr1" 10)
                  eq_refl eq_refl eq_refl eq_refl).
    discriminate H.
Qed.

(** ** shuffle_cpg_sites *)

Section ShuffleProof.
Local Open Scope nat_scope.
Variable rng : Type.
Variable rand : rng -> nat * rng.
Context {A : Type}.
Implicit Types (v w : list A).

Lemma shuffled_within_refl lo hi v : shuffled_within lo hi v v.
Proof. now repeat split. Qed.

Lemma shuffled_within_trans lo hi v1 v2 v3 :
  shuffled_within lo hi v1 v2 -> shuffled_within lo hi v2 v3 ->
  shuffled_within lo hi v1 v3.
Proof.
  intros (L1 & P1 & T1 & D1) (L2 & P2 & T2 & D2). repeat split.
  - congruence.
  - now rewrite P2.
  - congruence.
  - congruence.
Qed.

(** One exchange inside the range. *)
Lemma iter_swap_within lo hi i j v :
  lo <= i < hi -> lo <= j < hi -> hi <= length v ->
  exists v', iter_swap i j v = Done v' /\ shuffled_within lo hi v v'.
Proof.
  intros Hi Hj Hhi.
  destruct (lookup_lt_is_Some_2 v i ltac:(lia)) as [x Hx].
  destruct (lookup_lt_is_Some_2 v j ltac:(lia)) as [y Hy].
  unfold iter_swap.
  rewrite (proj2 (at_done _ _ x) Hx), (proj2 (at_done _ _ y) Hy). cbn [obind].
  eexists. split; [reflexivity|]. repeat split.
  - now rewrite !length_insert.
  - now apply Permutation_insert_swap.
  - now rewrite !take_insert_ge by lia.
  - now rewrite !drop_insert_lt by lia.
Qed.

Lemma shuffle_body_within lo hi i (st : rng * list A) :
  lo < i < hi -> hi <= length (snd st) ->
  exists st', shuffle_body rng rand lo i st = Done st'
              /\ shuffled_within lo hi (snd st) (snd st').
Proof.
  intros Hi Hhi. unfold shuffle_body. destruct (rand (fst st)) as [r g'].
  assert (Hmod : r mod (i - lo + 1) < i - lo + 1)
    by (apply Nat.mod_upper_bound; lia).
  destruct (i =? lo + r mod (i - lo + 1)).
  - eexists. split; [reflexivity|]. apply shuffled_within_refl.
  - destruct (iter_swap_within lo hi i (lo + r mod (i - lo + 1)) (snd st))
      as (v' & Hv' & Hw); [lia | lia | lia |].
    rewrite Hv'. cbn [obind]. eexists. split; [reflexivity|]. exact Hw.
Qed.

(** [std::random_shuffle] on a valid range returns, and rearranges the
    range within itself. *)
Lemma random_shuffle_within lo hi (st : rng * list A) :
  lo <= hi -> hi <= length (snd st) ->
  exists st', random_shuffle rng rand lo hi st = Done st'
              /\ shuffled_within lo hi (snd st) (snd st').
Proof.
  intros Hlo Hhi. unfold random_shuffle.
  rewrite (proj2 (Nat.leb_le lo hi) Hlo), (proj2 (Nat.leb_le hi _) Hhi).
  cbn [andb]. destruct (Nat.eqb_spec lo hi) as [E|E].
  - exists st. split; [reflexivity | apply shuffled_within_refl].
  - destruct (for_loop_total (shuffle_body rng rand lo)
                (fun _ st' => shuffled_within lo hi (snd st) (snd st'))
                (S lo) (hi - lo - 1) st) as (st' & Hrun & Hw).
    + apply shuffled_within_refl.
    + intros i t Hi Hw.
      destruct (shuffle_body_within lo hi i t) as (t' & Ht' & Hw');
        [lia | destruct Hw as (L & _); lia |].
      exists t'. split; [exact Ht'|].
      now apply (shuffled_within_trans lo hi _ (snd t)).
    + exists st'. now split.
Qed.

Lemma chain_slice_of_take lo hi n v :
  hi <= n -> chain_slice lo hi (take n v) = chain_slice lo hi v.
Proof.
  intros Hn. unfold chain_slice. destruct (Nat.le_gt_cases lo hi) as [H|H].
  - rewrite !take_drop_commute, take_take. f_equal. f_equal. lia.
  - now replace (hi - lo) with 0 by lia.
Qed.

Lemma chain_slice_of_drop lo hi v w :
  drop lo v = drop lo w -> chain_slice lo hi v = chain_slice lo hi w.
Proof. unfold chain_slice. now intros ->. Qed.

Lemma drop_le_eq lo hi v w :
  lo <= hi -> drop lo v = drop lo w -> drop hi v = drop hi w.
Proof.
  intros H E. replace hi with (lo + (hi - lo)) by lia.
  now rewrite <- !drop_drop, E.
Qed.

Lemma take_le_eq lo hi v w :
  lo <= hi -> take hi v = take hi w -> take lo v = take lo w.
Proof.
  intros H E. replace lo with (min lo hi) by lia.
  now rewrite <- !take_take, E.
Qed.

(** The part between two unchanged ends is permuted. *)
Lemma shuffled_within_slice lo hi v v' :
  lo <= hi -> hi <= length v -> shuffled_within lo hi v v' ->
  chain_slice lo hi v' ≡ₚ chain_slice lo hi v.
Proof.
  intros Hlo Hhi (L & P & T & D).
  assert (Hsplit : forall w, length w = length v ->
            w = take lo w ++ chain_slice lo hi w ++ drop hi w).
  { intros w Hw. unfold chain_slice.
    rewrite <- (take_drop lo w) at 1. f_equal.
    rewrite <- (take_drop (hi - lo) (drop lo w)) at 1. f_equal.
    rewrite drop_drop. f_equal. lia. }
  rewrite (Hsplit v' L), (Hsplit v eq_refl), T, D in P.
  apply Permutation_app_inv_l in P. now apply Permutation_app_inv_r in P.
Qed.
End ShuffleProof.

Lemma sorted_lookup_le (l : list nat) (j j' r r' : nat) :
  StronglySorted lt l -> l !! j = Some r -> l !! j' = Some r' ->
  (j <= j')%nat -> (r <= r')%nat.
Proof.
  intros Hs Hj Hj' Hle. destruct (Nat.eq_dec j j') as [->|Hne].
  - assert (r = r') by congruence. lia.
  - assert (r < r')%nat by (apply (sorted_lookup_lt l j j'); auto; lia). lia.
Qed.

Section ShuffleSites.
Local Open Scope nat_scope.
Variable rng : Type.
Variable rand : rng -> nat * rng.
Context {A : Type}.
Variable reset_points : list nat.
Variable v : list A.
Hypothesis Hsorted : StronglySorted lt reset_points.
Hypothesis Hbound : Forall (fun r => r <= length v) reset_points.

Lemma shuffle_inv_init : shuffle_inv reset_points v 0 v.
Proof. repeat split; intros; lia. Qed.

Lemma shuffle_sites_body_step i (st : rng * list A) :
  S i < length reset_points ->
  shuffle_inv reset_points v i (snd st) ->
  exists st', shuffle_sites_body rng rand reset_points i st = Done st'
              /\ shuffle_inv reset_points v (S i) (snd st').
Proof.
  intros Hi (L & Hchains & Hdrop & Htake).
  destruct (lookup_lt_is_Some_2 reset_points i ltac:(lia)) as [lo Hlo].
  destruct (lookup_lt_is_Some_2 reset_points (S i) Hi) as [hi Hhi].
  assert (Hlt : lo < hi)
    by (apply (sorted_lookup_lt reset_points i (S i)); auto).
  assert (Hlen : hi <= length v) by exact (Forall_lookup_1 _ _ _ _ Hbound Hhi).
  unfold shuffle_sites_body.
  rewrite (proj2 (at_done _ _ lo) Hlo). cbn [obind].
  rewrite Nat.add_1_r, (proj2 (at_done _ _ hi) Hhi). cbn [obind].
  destruct (random_shuffle_within rng rand lo hi st) as (st' & Hrun & Hw);
    [lia | lia |].
  exists st'. split; [exact Hrun|].
  assert (Hlo' : lo <= hi) by lia.
  assert (Hhi' : hi <= length (snd st)) by lia.
  pose proof (shuffled_within_slice lo hi (snd st) (snd st') Hlo' Hhi' Hw) as Hmid.
  destruct Hw as (L' & P & T & D).
  split; [congruence|]. split; [|split].
  - intros k a b Hk Ha Hb. destruct (Nat.eq_dec k i) as [->|Hne].
    + assert (a = lo) by congruence. assert (b = hi) by congruence. subst a b.
      rewrite Hmid. now rewrite (chain_slice_of_drop lo hi _ v (Hdrop lo Hlo)).
    + assert (Hb' : b <= lo)
        by (apply (sorted_lookup_le reset_points (S k) i); auto; lia).
      rewrite <- (chain_slice_of_take a b lo (snd st')) by exact Hb'.
      rewrite T, chain_slice_of_take by exact Hb'.
      apply (Hchains k); [lia | assumption | assumption].
  - intros b Hb. assert (b = hi) by congruence. subst b.
    rewrite D. apply (drop_le_eq lo hi); [lia|]. now apply Hdrop.
  - intros a Ha.
    assert (a <= lo) by (apply (sorted_lookup_le reset_points 0 i); auto; lia).
    rewrite (take_le_eq a lo (snd st') (snd st)) by auto. now apply Htake.
Qed.

Lemma shuffle_cpg_sites_spec (g : rng) :
  reset_points <> [] ->
  is_size_t (Z.of_nat (length reset_points)) ->
  exists st',
    shuffle_cpg_sites rng rand reset_points (g, v) = Done st'
    /\ shuffle_inv reset_points v (length reset_points - 1) (snd st').
Proof.
  intros Hne Hsize. unfold shuffle_cpg_sites.
  assert (Hcount : Z.to_nat (size_sub (Z.of_nat (length reset_points)) 1)
                   = length reset_points - 1).
  { destruct reset_points as [|r l]; [congruence|].
    unfold is_size_t, SIZE_MAX in Hsize. unfold size_sub.
    rewrite Z.mod_small by (simpl length in *; lia). simpl length. lia. }
  rewrite Hcount.
  destruct (for_loop_total (shuffle_sites_body rng rand reset_points)
              (fun i st' => shuffle_inv reset_points v i (snd st'))
              0 (length reset_points - 1) (g, v)) as (st' & Hrun & Hinv).
  - apply shuffle_inv_init.
  - intros i t Hi. apply shuffle_sites_body_step. lia.
  - exists st'. now split.
Qed.
End ShuffleSites.

(** With no reset point the loop bound [size() - 1] wraps around and the
    first iteration reads outside the vector. *)
Lemma shuffle_cpg_sites_no_reset_points (rng : Type) (rand : rng -> nat * rng)
    {A : Type} (st : rng * list A) :
  shuffle_cpg_sites rng rand [] st = Undefined.
Proof.
  unfold shuffle_cpg_sites.
  destruct (Z.to_nat (size_sub (Z.of_nat (length (@nil nat))) 1)) eqn:E.
  - exfalso. change (Z.to_nat 18446744073709551615 = 0%nat) in E. lia.
  - reflexivity.
Qed.

(** C4.  [shuffle_cpg_sites], as [main] calls it, returns on reset
    points that are strictly increasing positions of the count vector; it
    leaves the sites (their coordinates), the read counts and the reset
    points as they were, keeps the length of the count vector, and for
    every chain, the last one included, the count pairs of the chain after
    the call are a permutation of the count pairs of the chain before: no
    pair crosses a chain start.  What precedes the first reset point is
    unchanged. *)
Theorem shuffle_cpg_sites_within_chains (rng : Type) (rand : rng -> nat * rng)
    (g : rng) (t : tables) :
  tb_reset_points t <> [] ->
  is_size_t (Z.of_nat (length (tb_reset_points t))) ->
  StronglySorted lt (tb_reset_points t) ->
  Forall (fun r => (r <= length (tb_meth t))%nat) (tb_reset_points t) ->
  exists g' t',
    main_shuffle rng rand g t = Done (g', t')
    /\ tb_cpgs t' = tb_cpgs t
    /\ tb_reads t' = tb_reads t
    /\ tb_reset_points t' = tb_reset_points t
    /\ length (tb_meth t') = length (tb_meth t)
    /\ (forall k lo hi,
          tb_reset_points t !! k = Some lo ->
          tb_reset_points t !! S k = Some hi ->
          chain_slice lo hi (tb_meth t') ≡ₚ chain_slice lo hi (tb_meth t))
    /\ (forall lo,
          last (tb_reset_points t) = Some lo ->
          chain_slice lo (length (tb_meth t)) (tb_meth t')
          ≡ₚ chain_slice lo (length (tb_meth t)) (tb_meth t))
    /\ (forall a,
          head (tb_reset_points t) = Some a ->
          take a (tb_meth t') = take a (tb_meth t)).
Proof.
  intros Hne Hsize Hsorted Hbound.
  destruct (shuffle_cpg_sites_spec rng rand (tb_reset_points t) (tb_meth t)
              Hsorted Hbound g Hne Hsize)
    as ([g' v'] & Hrun & L & Hchains & Hdrop & Htake).
  exists g', (mkTables (tb_cpgs t) v' (tb_reads t) (tb_reset_points t)).
  unfold main_shuffle. rewrite Hrun. cbn [obind fst snd].
  split; [reflexivity|]. cbn [tb_cpgs tb_reads tb_reset_points tb_meth snd] in *.
  repeat split; try assumption.
  - intros k lo hi Hlo Hhi. apply (Hchains k); try assumption.
    apply lookup_lt_Some in Hhi. lia.
  - intros lo Hlast. rewrite last_lookup, <- Nat.sub_1_r in Hlast.
    now rewrite (chain_slice_of_drop lo _ v' (tb_meth t) (Hdrop lo Hlast)).
  - intros a Ha. rewrite head_lookup in Ha. now apply Htake.
Qed.

Lemma shuffle_cpg_sites_within_chains_witness :
  (tb_reset_points sample_tables <> []
   /\ is_size_t (Z.of_nat (length (tb_reset_points sample_tables)))
   /\ StronglySorted lt (tb_reset_points sample_tables)
   /\ Forall (fun r => (r <= length (tb_meth sample_tables))%nat)
             (tb_reset_points sample_tables))
  /\ exists g' t',
       main_shuffle nat lcg_rand 1%nat sample_tables = Done (g', t')
       /\ tb_cpgs t' = tb_cpgs sample_tables
       /\ tb_reads t' = tb_reads sample_tables
       /\ tb_reset_points t' = tb_reset_points sample_tables
       /\ length (tb_meth t') = length (tb_meth sample_tables)
       /\ (forall k lo hi,
             tb_reset_points sample_tables !! k = Some lo ->
             tb_reset_points sample_tables !! S k = Some hi ->
             chain_slice lo hi (tb_meth t')
             ≡ₚ chain_slice lo hi (tb_meth sample_tables))
       /\ (forall lo,
             last (tb_reset_points sample_tables) = Some lo ->
             chain_slice lo (length (tb_meth sample_tables)) (tb_meth t')
             ≡ₚ chain_slice lo (length (tb_meth sample_tables))
                  (tb_meth sample_tables))
       /\ (forall a,
             head (tb_reset_points sample_tables) = Some a ->
             take a (tb_meth t') = take a (tb_meth sample_tables)).
Proof.
  assert (H1 : tb_reset_points sample_tables <> []) by discriminate.
  assert (H2 : is_size_t (Z.of_nat (length (tb_reset_points sample_tables))))
    by (split; discriminate).
  assert (H3 : StronglySorted lt (tb_reset_points sample_tables))
    by (simpl; repeat constructor).
  assert (H4 : Forall (fun r => (r <= length (tb_meth sample_tables))%nat)
                      (tb_reset_points sample_tables))
    by (simpl; repeat constructor).
  split; [now repeat split|].
  exact (shuffle_cpg_sites_within_chains nat lcg_rand 1%nat sample_tables
           H1 H2 H3 H4).
Defined.

(** On the sample tables the first chain (three sites) is rearranged and
    the last chain, which no pair of reset points delimits, is left as it
    is. *)
Example main_shuffle_sample :
  main_shuffle nat lcg_rand 1%nat sample_tables
  = Done (65%nat,
          mkTables sample_cpgs
            [(double_of_Z 8, double_of_Z 2); (double_of_Z 9, double_of_Z 1);
             (double_of_Z 1, double_of_Z 9); (double_of_Z 0, double_of_Z 10)]
            [10; 10; 10; 10] [0%nat; 3%nat]).
Proof. vm_compute. reflexivity. Qed.

(** ** get_posterior_cutoff *)

Lemma get_posterior_cutoff_nonpositive (domains : list GenomicRegion) (fdr : double) :
  dle fdr dbl_zero = true -> get_posterior_cutoff domains fdr = Done DBL_MAX.
Proof. intros H. unfold get_posterior_cutoff. now rewrite H. Qed.

Lemma get_posterior_cutoff_above_one (domains : list GenomicRegion) (fdr : double) :
  dgt fdr dbl_one = true -> get_posterior_cutoff domains fdr = Done DBL_MIN.
Proof.
  intros H. unfold get_posterior_cutoff. rewrite H.
  destruct (dle fdr dbl_zero) eqn:E; [|reflexivity].
  (* [fdr <= 0] and [fdr > 1] exclude each other *)
  exfalso. clear -H E. unfold dle, dgt, dbl_zero, dbl_one in *.
  destruct fdr as [s|s| |s m e]; try destruct s; try discriminate.
Qed.

Lemma sort_insert_perm (x : double) (l : list double) :
  sort_insert x l ≡ₚ x :: l.
Proof.
  induction l as [|y l IH]; simpl; [reflexivity|].
  destruct (dlt x y); [reflexivity|].
  rewrite IH. apply Permutation_swap.
Qed.

Lemma std_sort_perm (l : list double) : std_sort l ≡ₚ l.
Proof.
  induction l as [|x l IH]; simpl; [reflexivity|].
  now rewrite sort_insert_perm, IH.
Qed.

Lemma std_sort_length (l : list double) : length (std_sort l) = length l.
Proof. apply Permutation_length, std_sort_perm. Qed.

(** The search of lines 196-201 returns a position of the vector: [index]
    itself when no later score is greater, else the first position after
    it holding a greater score. *)
Lemma first_greater_spec (scores : list double) (index : nat) (sx : double) :
  scores !! index = Some sx ->
  forall count i,
    (index <= i)%nat -> (i + count = length scores)%nat ->
    exists j,
      first_greater scores index i count = Done j
      /\ ((j = index
           /\ forall m s, (i <= m)%nat -> scores !! m = Some s -> dgt s sx = false)
          \/ ((i <= j)%nat
              /\ (exists s, scores !! j = Some s /\ dgt s sx = true)
              /\ forall m s, (i <= m < j)%nat -> scores !! m = Some s ->
                             dgt s sx = false)).
Proof.
  intros Hsx. induction count as [|k IH]; intros i Hi Hlen.
  - exists index. split; [reflexivity|]. left. split; [reflexivity|].
    intros m s Hm Hs. apply lookup_lt_Some in Hs. lia.
  - destruct (lookup_lt_is_Some_2 scores i ltac:(lia)) as [si Hsi].
    simpl. rewrite (proj2 (at_done _ _ si) Hsi), (proj2 (at_done _ _ sx) Hsx).
    cbn [obind]. destruct (dgt si sx) eqn:E.
    + exists i. split; [reflexivity|]. right. split; [lia|]. split.
      * exists si. now split.
      * intros m s Hm. lia.
    + destruct (IH (S i) ltac:(lia) ltac:(lia)) as (j & Hj & Hcase).
      exists j. split; [exact Hj|]. destruct Hcase as [[-> Hnone]|(Hij & Hs & Hbefore)].
      * left. split; [reflexivity|]. intros m s Hm Hs.
        destruct (Nat.eq_dec m i) as [->|Hne]; [congruence|].
        apply (Hnone m s); [lia | exact Hs].
      * right. split; [lia|]. split; [exact Hs|]. intros m s Hm Hs'.
        destruct (Nat.eq_dec m i) as [->|Hne]; [congruence|].
        apply (Hbefore m s); [lia | exact Hs'].
Qed.


(** C5 fails on the code.  For [fdr <= 0] the cutoff is the largest
    finite double; for [fdr > 1] it is [numeric_limits<double>::min()],
    which is the smallest positive normalised double and not the least
    double: a domain of score 0 is not admitted by the filter
    [score >= cutoff]. *)
Theorem get_posterior_cutoff_min_is_positive :
  forall domains : list GenomicRegion,
    get_posterior_cutoff domains dbl_zero = Done DBL_MAX
    /\ dgt fdr_three_halves dbl_one = true
    /\ get_posterior_cutoff domains fdr_three_halves = Done DBL_MIN
    /\ dgt DBL_MIN dbl_zero = true
    /\ admitted DBL_MIN unclosed_domain = false.
Proof. intros domains. repeat split. Qed.

(** C6 fails on the code.  For the threshold [2^-60], which lies in
    (0, 1], the double [1 - fdr] is rounded to 1, the index is the number
    of null domains and [scores[index]] is read outside the vector. *)
Theorem get_posterior_cutoff_index_past_end :
  dgt fdr_tiny dbl_zero = true
  /\ dle fdr_tiny dbl_one = true
  /\ dsub dbl_one fdr_tiny = dbl_one
  /\ quantile_index (length [sample_domain]) fdr_tiny
     = Done (Z.of_nat (length [sample_domain]))
  /\ get_posterior_cutoff [sample_domain] fdr_tiny = Undefined.
Proof. repeat split. Qed.

(** C7 fails on the code.  With one null domain of score 0 the cutoff at
    [fdr = 1/2] is 0 and the cutoff at [fdr = 3/2] is the positive
    [numeric_limits<double>::min()]: the smaller threshold has the smaller
    cutoff. *)
Theorem get_posterior_cutoff_not_monotone :
  dlt fdr_half fdr_three_halves = true
  /\ get_posterior_cutoff [unclosed_domain] fdr_half = Done dbl_zero
  /\ get_posterior_cutoff [unclosed_domain] fdr_three_halves = Done DBL_MIN
  /\ dge dbl_zero DBL_MIN = false.
Proof. repeat split. Qed.

(** On four null scores 5, 2, 9, 2 the cutoff at [fdr = 1/2] is the
    first score above the median position, and at [fdr = 1/4] the largest. *)
Example get_posterior_cutoff_sample :
  let null := map (fun s => mkGenomicRegion "chr1" "X" 0 1 (double_of_Z s) "+")
                  [5; 2; 9; 2] in
  get_posterior_cutoff null fdr_half = Done (double_of_Z 9)
  /\ get_posterior_cutoff null (dyadic 1 (-2)) = Done (double_of_Z 9)
  /\ get_posterior_cutoff null (dyadic 3 (-2)) = Done (double_of_Z 5).
Proof. repeat split. Qed.

(** ** Doubles that hold integers

    Conversion of an integer below [2^53] to [double] is exact, and so is
    the difference of two such doubles when it stays below [2^53]. *)

Section ExactIntegers.

Lemma pshift_Z (p : positive) (n : Z) :
  0 <= n -> Zpos (pshift p n) = Zpos p * 2 ^ n.
Proof.
  intros Hn. destruct n as [|k|k]; [simpl; lia | | lia].
  unfold pshift. induction k as [|k IH] using Pos.peano_ind.
  - simpl. lia.
  - rewrite Pos.iter_succ, Pos2Z.inj_xO.
    rewrite IH by lia. rewrite Pos2Z.inj_succ, Z.pow_succ_r by lia. lia.
Qed.

Lemma pshift_add (p : positive) (a b : Z) :
  0 <= a -> 0 <= b -> pshift (pshift p a) b = pshift p (a + b).
Proof.
  intros Ha Hb. apply Pos2Z.inj.
  rewrite !pshift_Z by lia. rewrite Z.pow_add_r by lia. lia.
Qed.

Lemma digits2_pshift (p : positive) (n : Z) :
  0 <= n -> Zpos (digits2_pos (pshift p n)) = Zpos (digits2_pos p) + n.
Proof.
  intros Hn. destruct n as [|k|k]; [simpl; lia | | lia].
  unfold pshift. induction k as [|k IH] using Pos.peano_ind.
  - simpl. lia.
  - rewrite Pos.iter_succ. cbn [digits2_pos].
    rewrite Pos2Z.inj_succ, IH by lia. lia.
Qed.

Lemma digits2_size (p : positive) : digits2_pos p = Pos.size p.
Proof. induction p; simpl; congruence. Qed.

Lemma digits2_bound (p : positive) :
  Zpos p < 2 ^ 53 -> Zpos (digits2_pos p) <= 53.
Proof.
  intros Hp. rewrite digits2_size.
  destruct (Z_le_gt_dec (Zpos (Pos.size p)) 53) as [H|H]; [exact H|].
  exfalso. pose proof (Pos.size_le p) as Hs.
  apply Pos2Z.pos_le_pos in Hs. rewrite Pos2Z.inj_pow, (Pos2Z.inj_xO p) in Hs.
  assert (2 ^ 54 <= 2 ^ Zpos (Pos.size p)) by (apply Z.pow_le_mono_r; lia).
  change (2 ^ 54) with (2 * 2 ^ 53) in H0. lia.
Qed.

Lemma iter_pos_iter {B : Type} (f : B -> B) (n : positive) (x : B) :
  SpecFloat.iter_pos f n x = Pos.iter f x n.
Proof.
  revert x. induction n as [n IH|n IH|]; intros x; simpl.
  - rewrite !IH. now rewrite !Pos.iter_swap.
  - now rewrite !IH.
  - reflexivity.
Qed.

(** Shifting out zeros is exact. *)
Lemma shr_exact (q : positive) (e n : Z) :
  0 <= n ->
  shr (Build_shr_record (Zpos (pshift q n)) false false) e n
  = (Build_shr_record (Zpos q) false false, e + n).
Proof.
  intros Hn. destruct n as [|k|k]; [simpl; f_equal; lia | | lia].
  unfold shr, pshift. f_equal. rewrite iter_pos_iter. clear Hn.
  induction k as [|k IH] using Pos.peano_ind.
  - reflexivity.
  - rewrite Pos.iter_succ_r. rewrite Pos.iter_succ. cbn [shr_1 orb].
    exact IH.
Qed.

Lemma shl_align_le (mx : positive) (ex ex' : Z) :
  ex' <= ex -> shl_align mx ex ex' = (pshift mx (ex - ex'), ex').
Proof.
  intros H. unfold shl_align, pshift.
  destruct (ex' - ex) as [|d|d] eqn:E.
  - assert (ex' = ex) by lia. subst. now rewrite Z.sub_diag.
  - lia.
  - replace (ex - ex') with (Zpos d) by lia. reflexivity.
Qed.

Lemma fexp_digits (d : Z) : 0 < d -> fexp prec emax d = d - 53.
Proof. intros H. unfold fexp, SpecFloat.emin, prec, emax. lia. Qed.

(** Rounding a mantissa of 53 digits followed by [n] zeros drops the
    zeros and changes nothing else. *)
Lemma binary_round_aux_shifted (s : bool) (q : positive) (n e : Z) :
  0 <= n -> Zpos (digits2_pos q) = 53 ->
  -1074 <= e + n <= 971 ->
  binary_round_aux prec emax s (Zpos (pshift q n)) e loc_Exact
  = S754_finite s q (e + n).
Proof.
  intros Hn Hq He. unfold binary_round_aux, shr_fexp.
  cbn [Zdigits2]. rewrite digits2_pshift by lia. rewrite Hq.
  replace (fexp prec emax (53 + n + e) - e) with n
    by (unfold fexp, SpecFloat.emin, prec, emax; lia).
  cbn [shr_record_of_loc]. rewrite shr_exact by lia.
  cbn [shr_m loc_of_shr_record round_nearest_even Zdigits2]. rewrite Hq.
  replace (fexp prec emax (53 + (e + n)) - (e + n)) with 0
    by (unfold fexp, SpecFloat.emin, prec, emax; lia).
  cbn [shr shr_m].
  replace (e + n <=? emax - prec) with true
    by (symmetry; apply Z.leb_le; unfold emax, prec; lia).
  reflexivity.
Qed.

Lemma binary_round_exact (s : bool) (c : positive) (K : Z) :
  0 <= K -> Zpos (digits2_pos c) <= 53 ->
  binary_round prec emax s (pshift c K) (- K) = canonical s c.
Proof.
  intros HK Hd. unfold binary_round, canonical.
  pose proof (Pos2Z.is_pos (digits2_pos c)) as Hpos.
  set (q := pshift c (53 - Zpos (digits2_pos c))).
  assert (Hq : Zpos (digits2_pos q) = 53)
    by (unfold q; rewrite digits2_pshift by lia; lia).
  rewrite digits2_pshift by lia.
  replace (Zpos (digits2_pos c) + K + - K) with (Zpos (digits2_pos c)) by lia.
  rewrite fexp_digits by lia.
  destruct (Z_le_gt_dec (Zpos (digits2_pos c) + K) 53) as [H|H].
  - rewrite shl_align_le by lia. rewrite pshift_add by lia.
    replace (K + (- K - (Zpos (digits2_pos c) - 53)))
      with (53 - Zpos (digits2_pos c)) by lia.
    fold q.
    pose proof (binary_round_aux_shifted s q 0 (Zpos (digits2_pos c) - 53)
                  ltac:(lia) Hq ltac:(lia)) as E.
    cbn [pshift] in E. rewrite E. f_equal. lia.
  - assert (Hal : shl_align (pshift c K) (- K) (Zpos (digits2_pos c) - 53)
                  = (pshift c K, - K)).
    { unfold shl_align.
      destruct (Zpos (digits2_pos c) - 53 - - K) eqn:E; try reflexivity. lia. }
    rewrite Hal.
    replace (pshift c K) with (pshift q (Zpos (digits2_pos c) + K - 53))
      by (unfold q; rewrite pshift_add by lia; f_equal; lia).
    rewrite binary_round_aux_shifted by lia. f_equal. lia.
Qed.

Lemma dtrunc_canonical (s : bool) (c : positive) :
  Zpos (digits2_pos c) <= 53 ->
  dtrunc (canonical s c) = Some (if s then Zneg c else Zpos c).
Proof.
  intros Hd. unfold canonical, dtrunc.
  replace (Zpos (digits2_pos c) - 53) with (- (53 - Zpos (digits2_pos c))) by lia.
  rewrite Z.shiftl_opp_r, Z.shiftr_div_pow2 by lia.
  rewrite pshift_Z by lia. rewrite Z.div_mul by (apply Z.pow_nonzero; lia).
  now destruct s.
Qed.
End ExactIntegers.

Lemma binary_normalize_exact (z K : Z) :
  0 <= K -> Z.abs z < 2 ^ 53 ->
  dtrunc (binary_normalize prec emax (z * 2 ^ K) (- K) false) = Some z.
Proof.
  intros HK Hz. destruct z as [|c|c].
  - reflexivity.
  - rewrite <- pshift_Z by lia. cbn [binary_normalize].
    rewrite binary_round_exact by (try apply digits2_bound; lia).
    now rewrite dtrunc_canonical by (apply digits2_bound; lia).
  - replace (Zneg c * 2 ^ K) with (Zneg (pshift c K))
      by (rewrite <- Pos2Z.opp_pos, pshift_Z by lia; lia).
    cbn [binary_normalize].
    rewrite binary_round_exact by (try apply digits2_bound; lia).
    now rewrite dtrunc_canonical by (apply digits2_bound; lia).
Qed.

Lemma double_of_Z_canonical (s : bool) (c : positive) :
  Zpos c < 2 ^ 53 ->
  double_of_Z (if s then Zneg c else Zpos c) = canonical s c.
Proof.
  intros Hc. unfold double_of_Z.
  pose proof (binary_round_exact s c 0 ltac:(lia) (digits2_bound c Hc)) as E.
  cbn [pshift Z.opp] in E. now destruct s.
Qed.

Lemma dsub_canonical (sa sb : bool) (A B : positive) :
  Zpos A < 2 ^ 52 -> Zpos B < 2 ^ 52 ->
  dtrunc (dsub (canonical sa A) (canonical sb B))
  = Some ((if sa then Zneg A else Zpos A) - (if sb then Zneg B else Zpos B)).
Proof.
  intros HA HB.
  pose proof (digits2_bound A ltac:(lia)) as HdA.
  pose proof (digits2_bound B ltac:(lia)) as HdB.
  pose proof (Pos2Z.is_pos (digits2_pos A)) as HpA.
  pose proof (Pos2Z.is_pos (digits2_pos B)) as HpB.
  unfold dsub, canonical, SFsub.
  set (ez := Z.min (Zpos (digits2_pos A) - 53) (Zpos (digits2_pos B) - 53)).
  rewrite !shl_align_le by (unfold ez; lia). cbn [fst].
  rewrite !pshift_add by (unfold ez; lia).
  replace (53 - Zpos (digits2_pos A) + (Zpos (digits2_pos A) - 53 - ez))
    with (- ez) by lia.
  replace (53 - Zpos (digits2_pos B) + (Zpos (digits2_pos B) - 53 - ez))
    with (- ez) by lia.
  replace (cond_Zopp sa (Zpos (pshift A (- ez)))
           - cond_Zopp sb (Zpos (pshift B (- ez))))
    with (((if sa then Zneg A else Zpos A) - (if sb then Zneg B else Zpos B))
          * 2 ^ (- ez)).
  - replace ez with (- - ez) at 2 by lia.
    apply binary_normalize_exact; [unfold ez; lia|].
    destruct sa, sb; lia.
  - rewrite !pshift_Z by (unfold ez; lia).
    destruct sa, sb; cbn [cond_Zopp]; lia.
Qed.

(** The difference of two doubles holding integers below [2^52] holds
    the difference of the integers. *)
Lemma dsub_exact (a b : Z) :
  Z.abs a < 2 ^ 52 -> Z.abs b < 2 ^ 52 ->
  dtrunc (dsub (double_of_Z a) (double_of_Z b)) = Some (a - b).
Proof.
  intros Ha Hb. destruct a as [|A|A], b as [|B|B]; try reflexivity.
  - rewrite (double_of_Z_canonical false B) by lia.
    unfold dsub, double_of_Z, canonical. cbn [binary_normalize SFsub negb].
    apply (dtrunc_canonical true B). apply digits2_bound. lia.
  - rewrite (double_of_Z_canonical true B) by lia.
    unfold dsub, double_of_Z, canonical. cbn [binary_normalize SFsub negb].
    apply (dtrunc_canonical false B). apply digits2_bound. lia.
  - rewrite (double_of_Z_canonical false A) by lia.
    unfold dsub, double_of_Z, canonical. cbn [binary_normalize SFsub].
    apply (dtrunc_canonical false A). apply digits2_bound. lia.
  - rewrite (double_of_Z_canonical false A), (double_of_Z_canonical false B) by lia.
    apply (dsub_canonical false false); lia.
  - rewrite (double_of_Z_canonical false A), (double_of_Z_canonical true B) by lia.
    apply (dsub_canonical false true); lia.
  - rewrite (double_of_Z_canonical true A) by lia.
    unfold dsub, double_of_Z, canonical. cbn [binary_normalize SFsub].
    apply (dtrunc_canonical true A). apply digits2_bound. lia.
  - rewrite (double_of_Z_canonical true A), (double_of_Z_canonical false B) by lia.
    apply (dsub_canonical true false); lia.
  - rewrite (double_of_Z_canonical true A), (double_of_Z_canonical true B) by lia.
    apply (dsub_canonical true true); lia.
Qed.

Example dsub_exact_sample :
  dtrunc (dsub (double_of_Z 10) (double_of_Z 7)) = Some 3
  /\ dsub (double_of_Z 10) (double_of_Z 7) = double_of_Z 3.
Proof. split; reflexivity. Qed.

(** ** load_cpgs *)

Section Parsing.

Lemma find_first_of_app (c : ascii) (pre ds : string) :
  string_forall (fun a => negb (Ascii.eqb a c)) pre = true ->
  find_first_of c (pre ++ String c ds) = Some (String.length pre).
Proof.
  induction pre as [|a pre IH]; simpl; intros H.
  - now rewrite Ascii.eqb_refl.
  - apply andb_true_iff in H. destruct H as [Ha Hpre].
    apply negb_true_iff in Ha. rewrite Ha, (IH Hpre). reflexivity.
Qed.

Lemma string_drop_app (c : ascii) (pre ds : string) :
  string_drop (String.length pre + 1) (pre ++ String c ds) = ds.
Proof. induction pre as [|a pre IH]; simpl; [reflexivity | exact IH]. Qed.

Lemma string_length_app (r1 r2 : string) :
  String.length (r1 ++ r2) = (String.length r1 + String.length r2)%nat.
Proof. induction r1 as [|a r1 IH]; simpl; [reflexivity | now rewrite IH]. Qed.

Lemma digits_value_nonneg (r : string) (acc : Z) :
  0 <= acc -> 0 <= digits_value acc r.
Proof.
  revert acc. induction r as [|a r IH]; intros acc Hacc; simpl; [exact Hacc|].
  unfold digit_of. destruct ((48 <=? nat_of_ascii a)%nat && _)%bool eqn:E.
  - apply IH. apply andb_true_iff in E. destruct E as [E1 E2].
    apply Nat.leb_le in E1. lia.
  - exact Hacc.
Qed.

Lemma digit_not_special (a : ascii) :
  is_digit a = true ->
  is_space a = false /\ Ascii.eqb a "-" = false /\ Ascii.eqb a "+" = false.
Proof.
  unfold is_digit, digit_of, is_space. intros H.
  destruct ((48 <=? nat_of_ascii a)%nat && (nat_of_ascii a <=? 57)%nat)%bool eqn:E;
    [|discriminate].
  apply andb_true_iff in E. destruct E as [E1 E2].
  apply Nat.leb_le in E1, E2. split; [|split].
  - apply orb_false_iff. split.
    + apply andb_false_iff. right. apply Nat.leb_gt. lia.
    + apply Nat.eqb_neq. lia.
  - apply Ascii.eqb_neq. intros ->. vm_compute in E1. lia.
  - apply Ascii.eqb_neq. intros ->. vm_compute in E1. lia.
Qed.

(** [atoi] on a string of decimal digits. *)
Lemma atoi_digits (ds : string) :
  string_forall is_digit ds = true -> digits_value 0 ds <= INT_MAX ->
  atoi ds = Done (digits_value 0 ds).
Proof.
  intros Hd Hmax.
  pose proof (digits_value_nonneg ds 0 ltac:(lia)) as Hpos.
  assert (Hsign : atoi ds
                  = if (INT_MIN <=? digits_value 0 ds) && (digits_value 0 ds <=? INT_MAX)
                    then Done (digits_value 0 ds) else Undefined).
  { unfold atoi. destruct ds as [|a ds]; [reflexivity|].
    cbn [string_forall] in Hd. apply andb_true_iff in Hd. destruct Hd as [Ha _].
    destruct (digit_not_special a Ha) as (Hs & Hm & Hp).
    cbn [skip_spaces]. rewrite Hs, Hm, Hp. reflexivity. }
  rewrite Hsign.
  replace (INT_MIN <=? digits_value 0 ds) with true
    by (symmetry; apply Z.leb_le; unfold INT_MIN; lia).
  replace (digits_value 0 ds <=? INT_MAX) with true
    by (symmetry; now apply Z.leb_le).
  reflexivity.
Qed.

Lemma int_of_double_done (x : double) (z : Z) :
  int_of_double x = Done z ->
  dtrunc x = Some z /\ INT_MIN <= z <= INT_MAX.
Proof.
  unfold int_of_double. destruct (dtrunc x) as [t|]; [|discriminate].
  destruct ((INT_MIN <=? t) && (t <=? INT_MAX)) eqn:E; [|discriminate].
  intros [= <-]. apply andb_true_iff in E. destruct E as [E1 E2].
  apply Z.leb_le in E1, E2. now split.
Qed.
End Parsing.

Lemma load_record_spec (rec : GenomicRegion) (acc acc' : loaded) (c : Z) :
  well_formed_name (get_name rec) c ->
  load_record rec acc = Done acc' ->
  exists mu,
    record_counts rec mu c
    /\ acc' = mkLoaded (ld_cpgs acc ++ [simple_of_region rec])
                       (ld_meth acc ++ [mu]) (ld_reads acc ++ [c]).
Proof.
  intros Hwf Hrun. pose proof Hwf as (pre & ds & Hname & Hpre & Hds & Hval & Hmax & Hsize).
  pose proof (digits_value_nonneg ds 0 ltac:(lia)) as Hnonneg.
  unfold load_record in Hrun. rewrite Hname in Hrun.
  change (pre ++ ":" ++ ds)%string with (pre ++ String ":" ds)%string in Hrun.
  rewrite (find_first_of_app ":" pre ds Hpre) in Hrun.
  assert (Hlen : String.length (pre ++ String ":" ds)
                 = (String.length pre + 1 + String.length ds)%nat).
  { rewrite string_length_app. simpl. lia. }
  rewrite Hname in Hsize.
  change (pre ++ ":" ++ ds)%string with (pre ++ String ":" ds)%string in Hsize.
  unfold is_size_t, SIZE_MAX in Hsize.
  rewrite Z.mod_small in Hrun by lia.
  unfold substr_from in Hrun.
  replace (Z.of_nat (String.length pre) + 1
           <=? Z.of_nat (String.length (pre ++ String ":" ds))) with true in Hrun
    by (symmetry; apply Z.leb_le; lia).
  replace (Z.to_nat (Z.of_nat (String.length pre) + 1))
    with (String.length pre + 1)%nat in Hrun by lia.
  rewrite string_drop_app in Hrun. cbn [obind] in Hrun.
  rewrite (atoi_digits ds Hds) in Hrun by (rewrite Hval; exact Hmax).
  cbn [obind] in Hrun. rewrite Hval in Hrun.
  unfold size_t_of_int in Hrun. unfold INT_MAX in Hmax.
  rewrite (Z.mod_small c) in Hrun by lia.
  bind_inv Hrun. rename a into m, Ha into Hm.
  bind_inv Hrun. rename a into u, Ha into Hu.
  injection Hrun as <-.
  destruct (int_of_double_done _ _ Hm) as [_ Hrange].
  destruct (int_of_double_done _ _ Hu) as [Htr _].
  unfold INT_MIN, INT_MAX in Hrange.
  rewrite dsub_exact in Htr by lia. injection Htr as <-.
  exists (double_of_Z m, double_of_Z (c - m)). split; [|reflexivity].
  split; [exact Hwf|]. exists m. now split.
Qed.

Lemma load_records_spec (recs : list GenomicRegion) (acc ld : loaded) :
  Forall (fun rec => exists c, well_formed_name (get_name rec) c) recs ->
  load_records recs acc = Done ld ->
  exists meth reads,
    Forall3 record_counts recs meth reads
    /\ ld = mkLoaded (ld_cpgs acc ++ map simple_of_region recs)
                     (ld_meth acc ++ meth) (ld_reads acc ++ reads).
Proof.
  revert acc. induction recs as [|rec recs IH]; intros acc Hwf Hrun.
  - injection Hrun as <-. exists [], []. split; [constructor|].
    destruct acc. simpl. now rewrite !app_nil_r.
  - simpl in Hrun. bind_inv Hrun. rename a into acc1, Ha into H1.
    apply Forall_cons in Hwf. destruct Hwf as [[c Hc] Hwf].
    destruct (load_record_spec rec acc acc1 c Hc H1) as (mu & Hmu & ->).
    destruct (IH _ Hwf Hrun) as (meth & reads & Hall & ->).
    exists (mu :: meth), (c :: reads). split; [now constructor|].
    cbn [ld_cpgs ld_meth ld_reads map]. now rewrite <- !app_assoc.
Qed.

Lemma retained_lookup {A : Type} (reads : list size_t) (v : list A)
    (i : nat) (x : A) (r : size_t) :
  retained reads v !! i = Some x ->
  retained reads reads !! i = Some r ->
  exists k, v !! k = Some x /\ reads !! k = Some r /\ 0 < r.
Proof.
  revert v i. induction reads as [|r0 reads IH]; intros v i Hx Hr.
  - simpl in Hx. rewrite lookup_nil in Hx. discriminate.
  - destruct v as [|x0 v]; simpl in Hx, Hr.
    { rewrite lookup_nil in Hx. discriminate. }
    destruct (0 <? r0) eqn:E.
    + destruct i as [|i]; simpl in Hx, Hr.
      * injection Hx as <-. injection Hr as <-. exists 0%nat.
        repeat split. now apply Z.ltb_lt.
      * destruct (IH v i Hx Hr) as (k & Hk). now exists (S k).
    + destruct (IH v i Hx Hr) as (k & Hk). now exists (S k).
Qed.

(** What [load_cpgs] stores when it returns on a file in which every name
    is a prefix without colon, a colon and a read count in decimal digits
    that fits an [int]: as total coverage that read count, as methylated
    count the product of level and coverage converted to [int], and as
    unmethylated count the coverage minus the methylated count; after the
    zero-coverage filter of [separate_regions] every retained site has
    positive coverage, equal to the sum of its two counts. *)
Lemma load_cpgs_counts (check_sorted : list GenomicRegion -> bool)
    (cpgs_file : string) (cpgs_in : list GenomicRegion) (ld : loaded) :
  Forall (fun rec => exists c, well_formed_name (get_name rec) c) cpgs_in ->
  load_cpgs check_sorted cpgs_file cpgs_in [] [] [] = Done ld ->
  ld_cpgs ld = map simple_of_region cpgs_in
  /\ Forall3 record_counts cpgs_in (ld_meth ld) (ld_reads ld)
  /\ forall desert_size sep,
       separate_regions desert_size (ld_cpgs ld) (ld_meth ld) (ld_reads ld) []
         = Done sep ->
       forall i mu r,
         sep_meth sep !! i = Some mu -> sep_reads sep !! i = Some r ->
         0 < r
         /\ exists m u, mu = (double_of_Z m, double_of_Z u) /\ m + u = r.
Proof.
  intros Hwf Hrun. unfold load_cpgs in Hrun.
  destruct (negb (check_sorted cpgs_in)); [discriminate|].
  destruct (load_records_spec cpgs_in _ ld Hwf Hrun) as (meth & reads & Hall & ->).
  cbn [ld_cpgs ld_meth ld_reads app].
  split; [reflexivity|]. split; [exact Hall|].
  intros desert_size sep Hsep i mu r Hmu Hr.
  rewrite separate_regions_spec in Hsep.
  - injection Hsep as <-. cbn [sep_meth sep_reads] in Hmu, Hr.
    destruct (retained_lookup reads meth i mu r Hmu Hr) as (k & Hk & Hrk & Hpos).
    split; [exact Hpos|].
    destruct (Forall3_lookup_m _ _ _ _ k mu Hall Hk)
      as (rec & z & Hrec & Hz & _ & m & _ & ->).
    exists m, (z - m). split; [reflexivity|].
    assert (z = r) by congruence. lia.
  - rewrite length_map. symmetry. exact (Forall3_length_lm _ _ _ _ Hall).
  - rewrite length_map. symmetry. exact (Forall3_length_lr _ _ _ _ Hall).
Qed.

Lemma sample_record_name : well_formed_name (get_name sample_record) 10.
Proof.
  exists "CpG"%string, "10"%string. repeat split; discriminate.
Defined.

(** C10 fails on the code.  [load_cpgs] converts the product of level and
    coverage with [int(...)] (line 157), which drops the fraction, where
    the count of methylated reads is that product rounded.  For 29 and
    for 57 methylated reads out of 100, and for 1 out of 3 with the level
    written in six decimals, the double product lies just below the whole
    number and [load_cpgs] stores the counts 28, 56 and 0, with 72, 44 and
    3 unmethylated reads, while rounding gives 29, 57 and 1. *)
Theorem load_cpgs_miscounts :
  (load_cpgs (fun _ => true) "cpgs.bed" [record_29_of_100] [] [] []
   = Done (mkLoaded [site "chr1" 10] [(double_of_Z 28, double_of_Z 72)] [100])
   /\ dlt (dmul level_029 (double_of_Z 100)) (double_of_Z 29) = true
   /\ dround (dmul level_029 (double_of_Z 100)) = Some 29)
  /\ (load_cpgs (fun _ => true) "cpgs.bed" [record_57_of_100] [] [] []
      = Done (mkLoaded [site "chr1" 10] [(double_of_Z 56, double_of_Z 44)] [100])
      /\ dlt (dmul level_057 (double_of_Z 100)) (double_of_Z 57) = true
      /\ dround (dmul level_057 (double_of_Z 100)) = Some 57)
  /\ (load_cpgs (fun _ => true) "cpgs.bed" [record_1_of_3] [] [] []
      = Done (mkLoaded [site "chr1" 10] [(double_of_Z 0, double_of_Z 3)] [3])
      /\ dlt (dmul level_0333333 (double_of_Z 3)) (double_of_Z 1) = true
      /\ dround (dmul level_0333333 (double_of_Z 3)) = Some 1).
Proof. repeat split. Qed.

(** ** Reach of the two read defects *)

Lemma for_loop_snoc {S : Type} (body : nat -> S -> outcome S)
    (lo count : nat) (s : S) :
  for_loop body lo (Datatypes.S count) s
  = do s' <- for_loop body lo count s; body (lo + count)%nat s'.
Proof.
  revert lo s. induction count as [|k IH]; intros lo s.
  - simpl. rewrite Nat.add_0_r. now destruct (body lo s).
  - change (for_loop body lo (Datatypes.S (Datatypes.S k)) s)
      with (do s' <- body lo s; for_loop body (Datatypes.S lo) (Datatypes.S k) s').
    change (for_loop body lo (Datatypes.S k) s)
      with (do s' <- body lo s; for_loop body (Datatypes.S lo) k s').
    destruct (body lo s) as [s1| |]; cbn [obind]; try reflexivity.
    rewrite IH.
    now replace (Datatypes.S lo + k)%nat with (lo + Datatypes.S k)%nat by lia.
Qed.

(** With the reset points [separate_regions] produces (chain starts only,
    no sentinel), [build_domains] returns only if the last chain consists
    of the last site alone: when every chain start lies before the last
    site, the read of [reset_points[reset_idx]] at the last site is outside
    the vector. *)
Lemma build_domains_without_sentinel (toa : nat -> string) (init_name : string)
    (init_score : double) (init_strand : ascii)
    (cpgs : list SimpleGenomicRegion) (post_scores : list double)
    (reset_points : list nat) (classes : list bool)
    (domains : list GenomicRegion) (st : bd_state) :
  wf_reset_points reset_points ->
  classes <> [] ->
  Forall (fun r => (r + 1 < length classes)%nat \/ r = 0%nat) reset_points ->
  build_domains toa init_name init_score init_strand cpgs post_scores
    reset_points classes domains <> Done st.
Proof.
  intros Hwf Hne Hall Hrun. unfold build_domains in Hrun.
  destruct classes as [|cl classes'] eqn:Ecl; [congruence|].
  rewrite <- Ecl in Hrun.
  replace (length classes) with (S (length classes')) in Hrun by (subst; reflexivity).
  rewrite for_loop_snoc in Hrun. bind_inv Hrun. rename a into st1, Ha into H1.
  assert (Hinv : bd_inv toa init_name init_score init_strand cpgs post_scores
                   reset_points classes domains (0 + length classes') st1).
  { refine (for_loop_inv _ _ 0 (length classes') _ st1 (bd_inv_init _ _ _ _ _ _ _ _ _) _ H1).
    intros i t t' _. apply build_domains_body_inv. }
  destruct Hinv as (_ & Htrack & _). destruct (Htrack Hwf) as [Hidx Hpassed].
  unfold build_domains_body in Hrun. bind_inv Hrun. apply at_done in Ha.
  assert (Hlt : (bd_reset_idx st1 < bd_reset_idx st1)%nat).
  { apply (Hpassed _ a Ha Hidx).
    pose proof (Forall_lookup_1 _ _ _ _ Hall Ha) as [Hr|Hr].
    - subst classes. simpl in Hr. lia.
    - subst a. destruct Hwf as [H0 Hs].
      pose proof (sorted_lookup_lt _ _ _ _ _ Hs H0 Ha ltac:(lia)). lia. }
  lia.
Qed.

Lemma pos_mul_pshift (m : positive) (k : Z) :
  0 <= k -> (m * pshift 1 k)%positive = pshift m k.
Proof.
  intros Hk. apply Pos2Z.inj. rewrite Pos2Z.inj_mul, !pshift_Z by lia. lia.
Qed.

(** Multiplying a double that holds an integer below [2^53] by [1.0]
    changes nothing. *)
Lemma dmul_one_exact (c : positive) :
  Zpos c < 2 ^ 53 -> dmul (double_of_Z (Zpos c)) dbl_one = double_of_Z (Zpos c).
Proof.
  intros Hc. rewrite (double_of_Z_canonical false c Hc).
  pose proof (digits2_bound c Hc) as Hd.
  pose proof (Pos2Z.is_pos (digits2_pos c)) as Hpos.
  change dbl_one with (S754_finite false (pshift 1 52) (-52)).
  unfold dmul, canonical, SFmul. cbn [xorb].
  rewrite pos_mul_pshift by lia.
  rewrite binary_round_aux_shifted; [f_equal; lia | lia | | lia].
  rewrite digits2_pshift by lia. lia.
Qed.

(** For every null set that is not empty, the threshold [2^-60] sends the
    index to the size of the vector and the cutoff is read past its end. *)
Lemma get_posterior_cutoff_tiny_fdr (domains : list GenomicRegion) :
  domains <> [] -> Z.of_nat (length domains) < 2 ^ 53 ->
  quantile_index (length domains) fdr_tiny = Done (Z.of_nat (length domains))
  /\ get_posterior_cutoff domains fdr_tiny = Undefined.
Proof.
  intros Hne Hlen.
  assert (Hq : quantile_index (length domains) fdr_tiny
               = Done (Z.of_nat (length domains))).
  { unfold quantile_index.
    change (dsub dbl_one fdr_tiny) with dbl_one.
    destruct (Z.of_nat (length domains)) as [|c|c] eqn:E.
    - destruct domains; [congruence | discriminate].
    - rewrite dmul_one_exact by lia.
      rewrite (double_of_Z_canonical false c) by lia.
      unfold size_t_of_double.
      rewrite dtrunc_canonical by (apply digits2_bound; lia).
      replace ((0 <=? Zpos c) && (Zpos c <=? SIZE_MAX)) with true; [reflexivity|].
      symmetry. apply andb_true_iff. unfold SIZE_MAX.
      split; apply Z.leb_le; lia.
    - lia. }
  split; [exact Hq|].
  unfold get_posterior_cutoff.
  change (dle fdr_tiny dbl_zero) with false. change (dgt fdr_tiny dbl_one) with false.
  cbn iota. rewrite Hq. cbn [obind].
  rewrite Nat2Z.id, Nat.sub_diag. cbn [first_greater obind].
  apply at_undefined. rewrite std_sort_length, length_map. lia.
Qed.

(** * Further properties *)

(** ** separate_regions: further properties *)

Lemma retained_same_length {A B : Type} (reads : list size_t)
    (v : list A) (w : list B) :
  length v = length w -> length (retained reads v) = length (retained reads w).
Proof.
  revert v w. induction reads as [|r reads IH]; intros [|x v] [|y w] H;
    simpl in *; try discriminate; try reflexivity.
  destruct (0 <? r); simpl; rewrite (IH v w) by lia; reflexivity.
Qed.

Lemma retained_all {A : Type} (reads : list size_t) (v : list A) :
  length reads = length v -> Forall (fun r => 0 < r) reads ->
  retained reads v = v.
Proof.
  revert v. induction reads as [|r reads IH]; intros [|x v] Hlen Hall;
    simpl in *; try discriminate; try reflexivity.
  apply Forall_cons in Hall. destruct Hall as [Hr Hall].
  rewrite (proj2 (Z.ltb_lt 0 r) Hr). f_equal. apply IH; [lia | exact Hall].
Qed.

Lemma retained_none {A : Type} (reads : list size_t) (v : list A) :
  Forall (fun r => r = 0) reads -> retained reads v = [].
Proof.
  revert v. induction reads as [|r reads IH]; intros [|x v] Hall;
    simpl; try reflexivity.
  apply Forall_cons in Hall. destruct Hall as [-> Hall]. simpl. now apply IH.
Qed.

(** X1.  On three vectors of one length [separate_regions] returns; the
    three vectors it leaves have one length again; the reset points it was
    given stay in front, and the ones it appends are strictly increasing
    positions of retained sites: none of them is the number of retained
    sites. *)
Theorem separate_regions_reset_points_in_range {T : Type} (desert_size : size_t)
    (cpgs : list SimpleGenomicRegion) (meth : list T) (reads : list size_t)
    (reset_points : list nat) :
  length meth = length cpgs ->
  length reads = length cpgs ->
  exists sep new,
    separate_regions desert_size cpgs meth reads reset_points = Done sep
    /\ length (sep_meth sep) = length (sep_cpgs sep)
    /\ length (sep_reads sep) = length (sep_cpgs sep)
    /\ sep_reset_points sep = reset_points ++ new
    /\ StronglySorted lt new
    /\ Forall (fun r => (r < length (sep_cpgs sep))%nat) new.
Proof.
  intros Hm Hr.
  exists (mkSeparated (retained reads cpgs) (retained reads meth)
            (retained reads reads)
            (reset_points ++ chain_starts desert_size (retained reads cpgs))),
         (chain_starts desert_size (retained reads cpgs)).
  split; [now apply separate_regions_spec|].
  cbn [sep_cpgs sep_meth sep_reads sep_reset_points].
  split; [now apply retained_same_length|].
  split; [now apply retained_same_length|].
  split; [reflexivity|]. split; [apply chain_starts_sorted|].
  apply List.Forall_forall. intros r. apply chain_starts_lt.
Qed.

Lemma separate_regions_reset_points_in_range_witness :
  (length sample_meth = length sample_cpgs
   /\ length [10; 0; 10; 10] = length sample_cpgs)
  /\ exists sep new,
       separate_regions 2000 sample_cpgs sample_meth [10; 0; 10; 10] [7%nat]
         = Done sep
       /\ length (sep_meth sep) = length (sep_cpgs sep)
       /\ length (sep_reads sep) = length (sep_cpgs sep)
       /\ sep_reset_points sep = [7%nat] ++ new
       /\ StronglySorted lt new
       /\ Forall (fun r => (r < length (sep_cpgs sep))%nat) new.
Proof.
  assert (H1 : length sample_meth = length sample_cpgs) by reflexivity.
  assert (H2 : length [10; 0; 10; 10] = length sample_cpgs) by reflexivity.
  split; [now split|].
  exact (separate_regions_reset_points_in_range 2000 sample_cpgs sample_meth
           [10; 0; 10; 10] [7%nat] H1 H2).
Defined.

(** X2.  [separate_regions] is idempotent: applied to the vectors it has
    produced, it removes nothing more and finds the same chain starts. *)
Theorem separate_regions_idempotent {T : Type} (desert_size : size_t)
    (cpgs : list SimpleGenomicRegion) (meth : list T) (reads : list size_t)
    (sep : separated T) :
  length meth = length cpgs ->
  length reads = length cpgs ->
  separate_regions desert_size cpgs meth reads [] = Done sep ->
  separate_regions desert_size (sep_cpgs sep) (sep_meth sep) (sep_reads sep) []
  = Done sep.
Proof.
  intros Hm Hr Hrun. rewrite separate_regions_spec in Hrun by assumption.
  injection Hrun as <-. cbn [sep_cpgs sep_meth sep_reads].
  assert (Lm : length (retained reads meth) = length (retained reads cpgs))
    by now apply retained_same_length.
  assert (Lr : length (retained reads reads) = length (retained reads cpgs))
    by now apply retained_same_length.
  rewrite separate_regions_spec by assumption.
  pose proof (retained_positive reads) as Hpos.
  rewrite (retained_all _ (retained reads cpgs)),
          (retained_all _ (retained reads meth)),
          (retained_all _ (retained reads reads))
    by (try exact Hpos; congruence).
  reflexivity.
Qed.

Lemma separate_regions_idempotent_witness :
  (length sample_meth = length sample_cpgs
   /\ length [10; 0; 10; 10] = length sample_cpgs
   /\ separate_regions 2000 sample_cpgs sample_meth [10; 0; 10; 10] []
      = Done (mkSeparated [site "chr1" 10; site "chr1" 30; site "chr1" 5000]
                [(double_of_Z 9, double_of_Z 1); (double_of_Z 1, double_of_Z 9);
                 (double_of_Z 0, double_of_Z 10)]
                [10; 10; 10] [0%nat; 2%nat]))
  /\ separate_regions 2000 [site "chr1" 10; site "chr1" 30; site "chr1" 5000]
       [(double_of_Z 9, double_of_Z 1); (double_of_Z 1, double_of_Z 9);
        (double_of_Z 0, double_of_Z 10)]
       [10; 10; 10] []
     = Done (mkSeparated [site "chr1" 10; site "chr1" 30; site "chr1" 5000]
               [(double_of_Z 9, double_of_Z 1); (double_of_Z 1, double_of_Z 9);
                (double_of_Z 0, double_of_Z 10)]
               [10; 10; 10] [0%nat; 2%nat]).
Proof.
  assert (H1 : length sample_meth = length sample_cpgs) by reflexivity.
  assert (H2 : length [10; 0; 10; 10] = length sample_cpgs) by reflexivity.
  assert (H3 : separate_regions 2000 sample_cpgs sample_meth [10; 0; 10; 10] []
               = Done (mkSeparated [site "chr1" 10; site "chr1" 30; site "chr1" 5000]
                         [(double_of_Z 9, double_of_Z 1); (double_of_Z 1, double_of_Z 9);
                          (double_of_Z 0, double_of_Z 10)]
                         [10; 10; 10] [0%nat; 2%nat]))
    by reflexivity.
  split; [now repeat split|].
  exact (separate_regions_idempotent 2000 sample_cpgs sample_meth
           [10; 0; 10; 10] _ H1 H2 H3).
Defined.

(** X3.  The distance to the predecessor is an unsigned difference: for a
    retained site that starts before its predecessor on the same
    chromosome it wraps around, and a chain boundary is marked before the
    site exactly when the desert size is below [2^64] minus the backward
    distance. *)
Theorem separate_regions_unsorted_wraps {T : Type} (desert_size : size_t)
    (cpgs : list SimpleGenomicRegion) (meth : list T) (reads : list size_t) :
  length meth = length cpgs ->
  length reads = length cpgs ->
  exists sep,
    separate_regions desert_size cpgs meth reads [] = Done sep
    /\ forall k c p,
         sep_cpgs sep !! S k = Some c ->
         sep_cpgs sep !! k = Some p ->
         is_size_t (get_start c) -> is_size_t (get_start p) ->
         sgr_chrom c = sgr_chrom p ->
         get_start c < get_start p ->
         (In (S k) (sep_reset_points sep)
          <-> desert_size < 2 ^ 64 - (get_start p - get_start c)).
Proof.
  intros Hm Hr. eexists. split; [now apply separate_regions_spec|].
  cbn [sep_cpgs sep_reset_points app].
  intros k c p Hc Hp Rc Rp Hchrom Hlt.
  rewrite chain_starts_In, (is_boundary_succ _ _ k c p Hc Hp), Z.ltb_lt.
  unfold same_chrom. rewrite Hchrom, String.eqb_refl.
  unfold is_size_t, SIZE_MAX in Rc, Rp. unfold size_sub.
  replace ((get_start c - get_start p) mod 2 ^ 64)
    with (2 ^ 64 - (get_start p - get_start c)); [reflexivity|].
  symmetry. rewrite <- (Z.mod_add _ 1) by lia.
  rewrite Z.mod_small by lia. lia.
Qed.

Lemma separate_regions_unsorted_wraps_witness :
  (length [tt; tt] = length [site "chr1" 500; site "chr1" 100]
   /\ length [4; 4] = length [site "chr1" 500; site "chr1" 100])
  /\ exists sep,
       separate_regions 2000 [site "chr1" 500; site "chr1" 100] [tt; tt] [4; 4] []
         = Done sep
       /\ forall k c p,
            sep_cpgs sep !! S k = Some c ->
            sep_cpgs sep !! k = Some p ->
            is_size_t (get_start c) -> is_size_t (get_start p) ->
            sgr_chrom c = sgr_chrom p ->
            get_start c < get_start p ->
            (In (S k) (sep_reset_points sep)
             <-> 2000 < 2 ^ 64 - (get_start p - get_start c)).
Proof.
  assert (H1 : length [tt; tt] = length [site "chr1" 500; site "chr1" 100])
    by reflexivity.
  assert (H2 : length [4; 4] = length [site "chr1" 500; site "chr1" 100])
    by reflexivity.
  split; [now split|].
  exact (separate_regions_unsorted_wraps 2000 _ _ _ H1 H2).
Defined.

(** Two sites of one chromosome out of order, 400 apart: the second one
    starts a chain. *)
Example separate_regions_unsorted_sample :
  separate_regions 2000 [site "chr1" 500; site "chr1" 100] [tt; tt] [4; 4] []
  = Done (mkSeparated [site "chr1" 500; site "chr1" 100] [tt; tt] [4; 4]
            [0%nat; 1%nat]).
Proof. reflexivity. Qed.

(** X4.  When every site has coverage zero, [separate_regions] removes
    all sites and appends no reset point; with the empty reset points it
    leaves, the loop bound [reset_points.size() - 1] of
    [shuffle_cpg_sites] wraps around and the shuffle reads outside the
    vector. *)
Theorem separate_regions_no_coverage {T : Type} (desert_size : size_t)
    (cpgs : list SimpleGenomicRegion) (meth : list T) (reads : list size_t)
    (rng : Type) (rand : rng -> nat * rng) (g : rng) :
  length meth = length cpgs ->
  length reads = length cpgs ->
  Forall (fun r => r = 0) reads ->
  exists sep,
    separate_regions desert_size cpgs meth reads [] = Done sep
    /\ sep = mkSeparated [] [] [] []
    /\ shuffle_cpg_sites rng rand (sep_reset_points sep) (g, sep_meth sep)
       = Undefined.
Proof.
  intros Hm Hr Hzero. eexists. split; [now apply separate_regions_spec|].
  rewrite !retained_none by exact Hzero.
  split; [reflexivity|]. apply shuffle_cpg_sites_no_reset_points.
Qed.

Lemma separate_regions_no_coverage_witness :
  (length [tt; tt] = length [site "chr1" 10; site "chr1" 20]
   /\ length [0; 0] = length [site "chr1" 10; site "chr1" 20]
   /\ Forall (fun r => r = 0) [0; 0])
  /\ exists sep,
       separate_regions 2000 [site "chr1" 10; site "chr1" 20] [tt; tt] [0; 0] []
         = Done sep
       /\ sep = mkSeparated [] [] [] []
       /\ shuffle_cpg_sites nat lcg_rand (sep_reset_points sep) (1%nat, sep_meth sep)
          = Undefined.
Proof.
  assert (H1 : length [tt; tt] = length [site "chr1" 10; site "chr1" 20])
    by reflexivity.
  assert (H2 : length [0; 0] = length [site "chr1" 10; site "chr1" 20])
    by reflexivity.
  assert (H3 : Forall (fun r => r = 0) [0; 0]) by (repeat constructor).
  split; [now repeat split|].
  exact (separate_regions_no_coverage 2000 _ _ _ nat lcg_rand 1%nat H1 H2 H3).
Defined.

Lemma for_loop_prefix {S : Type} (body : nat -> S -> outcome S)
    (lo a b : nat) (s s' : S) :
  for_loop body lo (a + b) s = Done s' ->
  exists t, for_loop body lo a s = Done t
            /\ for_loop body (lo + a) b t = Done s'.
Proof.
  revert lo s. induction a as [|a IH]; intros lo s Hrun.
  - exists s. split; [reflexivity|]. now rewrite Nat.add_0_r.
  - change (for_loop body lo (Datatypes.S a + b) s)
      with (do s1 <- body lo s; for_loop body (Datatypes.S lo) (a + b) s1) in Hrun.
    bind_inv Hrun. destruct (IH _ _ Hrun) as (t & Ht & Hrest).
    exists t. split.
    + change (for_loop body lo (Datatypes.S a) s)
        with (do s1 <- body lo s; for_loop body (Datatypes.S lo) a s1).
      now rewrite Ha.
    + now replace (lo + Datatypes.S a)%nat with (Datatypes.S lo + a)%nat by lia.
Qed.

(** X5.  The three vectors given to [separate_regions] must be
    parallel: with fewer read counts than sites, the compaction loop
    reads [reads[i]] outside the vector. *)
Theorem separate_regions_short_reads {T : Type} (desert_size : size_t)
    (cpgs : list SimpleGenomicRegion) (meth : list T) (reads : list size_t)
    (reset_points : list nat) (sep : separated T) :
  (length reads < length cpgs)%nat ->
  separate_regions desert_size cpgs meth reads reset_points <> Done sep.
Proof.
  intros Hlen Hrun. unfold separate_regions in Hrun. bind_inv Hrun. clear Hrun.
  replace (length cpgs)
    with (length reads + Datatypes.S (length cpgs - length reads - 1))%nat in Ha
    by lia.
  apply for_loop_prefix in Ha. destruct Ha as (t & Ht & Hrest).
  assert (Hinv : length (cs_reads t) = length reads).
  { refine (for_loop_inv compact_body
              (fun _ st => length (cs_reads st) = length reads)
              0 (length reads) (mkCompact cpgs meth reads 0) t eq_refl _ Ht).
    intros i st st' _ Hst Hbody. unfold compact_body in Hbody.
    bind_inv Hbody. destruct (0 <? a0); [|now injection Hbody as <-].
    bind_inv Hbody. bind_inv Hbody. injection Hbody as <-.
    cbn [cs_reads]. now rewrite length_insert. }
  change (for_loop compact_body (0 + length reads)
            (Datatypes.S (length cpgs - length reads - 1)) t)
    with (do s1 <- compact_body (0 + length reads) t;
          for_loop compact_body (Datatypes.S (0 + length reads))
            (length cpgs - length reads - 1) s1) in Hrest.
  bind_inv Hrest. unfold compact_body in Ha.
  rewrite at_undefined in Ha by (simpl; lia). discriminate.
Qed.

Lemma separate_regions_short_reads_witness :
  (length [4; 4] < length sample_cpgs)%nat
  /\ separate_regions 2000 sample_cpgs sample_meth [4; 4] []
     <> Done (mkSeparated [] [] [] []).
Proof.
  assert (H : (length [4; 4] < length sample_cpgs)%nat) by (simpl; lia).
  split; [exact H|].
  exact (separate_regions_short_reads 2000 sample_cpgs sample_meth [4; 4] []
           (mkSeparated [] [] [] []) H).
Defined.

(** ** build_domains: further properties *)

(** X6.  With well-formed reset points that end with the number of sites,
    and site and score vectors as long as the class vector,
    [build_domains] returns: every read is inside its vector.  A domain is
    left open exactly when the last site is foreground, and every other
    record appended is the completed domain of a maximal foreground run
    within one chain. *)
Theorem build_domains_total_with_sentinel (toa : nat -> string)
    (init_name : string) (init_score : double) (init_strand : ascii)
    (cpgs : list SimpleGenomicRegion) (post_scores : list double)
    (reset_points : list nat) (classes : list bool)
    (domains : list GenomicRegion) :
  wf_reset_points reset_points ->
  last reset_points = Some (length classes) ->
  (length classes <= length cpgs)%nat ->
  (length classes <= length post_scores)%nat ->
  exists st ds,
    build_domains toa init_name init_score init_strand cpgs post_scores
      reset_points classes domains = Done st
    /\ (bd_in_domain st = true <-> last classes = Some true)
    /\ completed_domains st = domains ++ ds
    /\ Forall (complete_domain cpgs post_scores reset_points classes) ds.
Proof.
  intros Hwf Hsent Hcpgs Hpost.
  destruct (build_domains_returns_with_sentinel toa init_name init_score
              init_strand cpgs post_scores reset_points classes domains
              Hwf Hsent Hcpgs Hpost) as [st Hrun].
  destruct (build_domains_inv _ _ _ _ _ _ _ _ _ _ Hrun) as (_ & _ & ds & Hdom).
  exists st, ds. split; [exact Hrun|].
  assert (Hcomplete : forall b,
            Forall (closed_ok cpgs post_scores reset_points classes b) ds ->
            Forall (complete_domain cpgs post_scores reset_points classes) ds).
  { intros b Hds. eapply Forall_impl; [exact Hds|].
    intros d (s & e & _ & Hspan & Hno). exists s, e. split; [exact Hspan|].
    exact (Hno Hwf). }
  unfold completed_domains. rewrite last_lookup. destruct (bd_in_domain st).
  - destruct Hdom as (s & c & k & Hs & _ & Hds & Hd & _ & Hall & _).
    split; [|split].
    + split; [intros _|reflexivity]. apply Hall. lia.
    + rewrite Hd, app_assoc. apply removelast_last.
    + exact (Hcomplete s Hds).
  - destruct Hdom as (Hds & Hd & _ & Hcl). split; [|split].
    + split; [discriminate|]. intros Hlast.
      assert (0 < length classes)%nat by (apply lookup_lt_Some in Hlast; lia).
      specialize (Hcl ltac:(lia)).
      replace (length classes - 1)%nat with (pred (length classes)) in Hcl by lia.
      congruence.
    + exact Hd.
    + exact (Hcomplete _ Hds).
Qed.

Lemma build_domains_total_with_sentinel_witness :
  (wf_reset_points [0%nat; 3%nat; 4%nat]
   /\ last [0%nat; 3%nat; 4%nat] = Some (length [true; false; true; true])
   /\ (length [true; false; true; true] <= length sample_cpgs)%nat
   /\ (length [true; false; true; true] <= length sample_scores)%nat)
  /\ exists st ds,
       build_domains toa_decimal "X" dbl_zero "+" sample_cpgs sample_scores
         [0%nat; 3%nat; 4%nat] [true; false; true; true] [] = Done st
       /\ (bd_in_domain st = true <-> last [true; false; true; true] = Some true)
       /\ completed_domains st = [] ++ ds
       /\ Forall (complete_domain sample_cpgs sample_scores [0%nat; 3%nat; 4%nat]
                    [true; false; true; true]) ds.
Proof.
  assert (H1 : wf_reset_points [0%nat; 3%nat; 4%nat]).
  { split; [reflexivity|]. repeat constructor. }
  assert (H2 : last [0%nat; 3%nat; 4%nat] = Some (length [true; false; true; true]))
    by reflexivity.
  assert (H3 : (length [true; false; true; true] <= length sample_cpgs)%nat)
    by (simpl; lia).
  assert (H4 : (length [true; false; true; true] <= length sample_scores)%nat)
    by (simpl; lia).
  split; [exact (conj H1 (conj H2 (conj H3 H4)))|].
  exact (build_domains_total_with_sentinel toa_decimal "X" dbl_zero "+"
           sample_cpgs sample_scores [0%nat; 3%nat; 4%nat]
           [true; false; true; true] [] H1 H2 H3 H4).
Defined.

(** X7.  When the last site is background and [build_domains] returns,
    no domain is open: the accumulated score is zero, and with well-formed
    reset points every record it has appended is the completed domain of a
    maximal foreground run within one chain. *)
Theorem build_domains_last_background (toa : nat -> string) (init_name : string)
    (init_score : double) (init_strand : ascii)
    (cpgs : list SimpleGenomicRegion) (post_scores : list double)
    (reset_points : list nat) (classes : list bool)
    (domains : list GenomicRegion) (st : bd_state) :
  wf_reset_points reset_points ->
  build_domains toa init_name init_score init_strand cpgs post_scores
    reset_points classes domains = Done st ->
  last classes = Some false ->
  bd_in_domain st = false
  /\ bd_score st = dbl_zero
  /\ exists ds,
       bd_domains st = domains ++ ds
       /\ Forall (complete_domain cpgs post_scores reset_points classes) ds.
Proof.
  intros Hwf Hrun Hlast.
  destruct (build_domains_inv _ _ _ _ _ _ _ _ _ _ Hrun) as (_ & _ & ds & Hdom).
  rewrite last_lookup in Hlast.
  destruct (bd_in_domain st).
  - exfalso. destruct Hdom as (s & c & k & Hs & _ & _ & _ & _ & Hall & _).
    specialize (Hall (pred (length classes)) ltac:(lia)). congruence.
  - destruct Hdom as (Hds & Hd & Hsc & _).
    split; [reflexivity|]. split; [exact Hsc|]. exists ds. split; [exact Hd|].
    eapply Forall_impl; [exact Hds|].
    intros d (s & e & _ & Hspan & Hno). exists s, e. split; [exact Hspan|].
    exact (Hno Hwf).
Qed.

Lemma build_domains_last_background_witness :
  (wf_reset_points [0%nat; 3%nat]
   /\ build_domains toa_decimal "X" dbl_zero "+" sample_cpgs sample_scores
        [0%nat; 3%nat] [true; true; false; false] []
      = Done (mkBD [sample_domain] 0 1 2 5001 false dbl_zero)
   /\ last [true; true; false; false] = Some false)
  /\ bd_in_domain (mkBD [sample_domain] 0 1 2 5001 false dbl_zero) = false
  /\ bd_score (mkBD [sample_domain] 0 1 2 5001 false dbl_zero) = dbl_zero
  /\ exists ds,
       bd_domains (mkBD [sample_domain] 0 1 2 5001 false dbl_zero) = [] ++ ds
       /\ Forall (complete_domain sample_cpgs sample_scores [0%nat; 3%nat]
                    [true; true; false; false]) ds.
Proof.
  assert (H1 : wf_reset_points [0%nat; 3%nat]).
  { split; [reflexivity|]. repeat constructor. }
  assert (H2 : build_domains toa_decimal "X" dbl_zero "+" sample_cpgs sample_scores
                 [0%nat; 3%nat] [true; true; false; false] []
               = Done (mkBD [sample_domain] 0 1 2 5001 false dbl_zero))
    by reflexivity.
  assert (H3 : last [true; true; false; false] = Some false) by reflexivity.
  split; [exact (conj H1 (conj H2 H3))|].
  exact (build_domains_last_background _ _ _ _ _ _ _ _ _ _ H1 H2 H3).
Defined.

(** X8.  When no site is foreground and [build_domains] returns, it
    has left the vector of domains as it was given, and no domain open. *)
Theorem build_domains_all_background (toa : nat -> string) (init_name : string)
    (init_score : double) (init_strand : ascii)
    (cpgs : list SimpleGenomicRegion) (post_scores : list double)
    (reset_points : list nat) (classes : list bool)
    (domains : list GenomicRegion) (st : bd_state) :
  Forall (fun cl => cl = false) classes ->
  build_domains toa init_name init_score init_strand cpgs post_scores
    reset_points classes domains = Done st ->
  bd_domains st = domains /\ bd_in_domain st = false.
Proof.
  intros Hbg Hrun.
  destruct (build_domains_inv _ _ _ _ _ _ _ _ _ _ Hrun) as (_ & _ & ds & Hdom).
  assert (Hno : forall s, classes !! s <> Some true).
  { intros s Hs. pose proof (Forall_lookup_1 _ _ _ _ Hbg Hs). discriminate. }
  destruct (bd_in_domain st).
  - exfalso. destruct Hdom as (s & c & k & Hs & _ & _ & _ & _ & Hall & _).
    exact (Hno s (Hall s ltac:(lia))).
  - destruct Hdom as (Hds & Hd & _). split; [|reflexivity].
    destruct ds as [|d ds]; [now rewrite app_nil_r in Hd|].
    exfalso. apply Forall_cons in Hds.
    destruct Hds as [(s & e & _ & (Hse & _ & _ & Hall & _) & _) _].
    exact (Hno s (Hall s ltac:(lia))).
Qed.

Lemma build_domains_all_background_witness :
  (Forall (fun cl => cl = false) [false; false; false; false]
   /\ build_domains toa_decimal "X" dbl_zero "+" sample_cpgs sample_scores
        [0%nat; 3%nat; 4%nat] [false; false; false; false] [sample_domain]
      = Done (mkBD [sample_domain] 0 0 2 5001 false dbl_zero))
  /\ bd_domains (mkBD [sample_domain] 0 0 2 5001 false dbl_zero) = [sample_domain]
  /\ bd_in_domain (mkBD [sample_domain] 0 0 2 5001 false dbl_zero) = false.
Proof.
  assert (H1 : Forall (fun cl => cl = false) [false; false; false; false])
    by (repeat constructor).
  assert (H2 : build_domains toa_decimal "X" dbl_zero "+" sample_cpgs sample_scores
                 [0%nat; 3%nat; 4%nat] [false; false; false; false] [sample_domain]
               = Done (mkBD [sample_domain] 0 0 2 5001 false dbl_zero))
    by reflexivity.
  split; [now split|].
  exact (build_domains_all_background _ _ _ _ _ _ _ _ _ _ H1 H2).
Defined.

Section BuildDomainsOrder.
Local Open Scope nat_scope.
Variable toa : nat -> string.
Variable init_name : string.
Variable init_score : double.
Variable init_strand : ascii.
Variable cpgs : list SimpleGenomicRegion.
Variable post_scores : list double.
Variable reset_points : list nat.
Variable classes : list bool.
Variable domains0 : list GenomicRegion.

Local Abbreviation opened_at := (opened_at cpgs classes).
Local Abbreviation closed_at := (closed_at cpgs).
Local Abbreviation run_of := (run_of cpgs classes).
Local Abbreviation bd_order := (bd_order toa cpgs classes domains0).

Lemma names_snoc (news : list GenomicRegion) (o : GenomicRegion) :
  (forall k d, news !! k = Some d -> gr_name d = ("HYPO" ++ toa k)%string) ->
  gr_name o = ("HYPO" ++ toa (length news))%string ->
  forall k d, (news ++ [o]) !! k = Some d -> gr_name d = ("HYPO" ++ toa k)%string.
Proof.
  intros Hn Ho k d Hk. apply lookup_app_Some in Hk.
  destruct Hk as [Hk|[Hlen Hk]]; [now apply Hn|].
  destruct (k - length news) as [|j] eqn:E; simpl in Hk; [|now rewrite lookup_nil in Hk].
  injection Hk as <-. now replace k with (length news) by lia.
Qed.

Lemma covers_snoc (runs : list (nat * nat)) (s e m : nat) :
  covers runs m \/ s <= m < e -> covers (runs ++ [(s, e)]) m.
Proof.
  intros [H|H]; apply Exists_app; [now left | right].
  now apply Exists_cons_hd.
Qed.

(** Closing the open domain at site [i] records the run [s .. i-1]. *)
Lemma close_domain_order i st :
  bd_order i st -> bd_in_domain st = true ->
  exists st', close_domain st = Done st'
    /\ bd_n_domains st' = bd_n_domains st
    /\ bd_reset_idx st' = bd_reset_idx st
    /\ bd_prev_end st' = bd_prev_end st
    /\ bd_in_domain st' = false
    /\ exists news runs,
         bd_domains st' = domains0 ++ news
         /\ bd_n_domains st' = length news
         /\ (forall k d, news !! k = Some d -> gr_name d = ("HYPO" ++ toa k)%string)
         /\ ordered_runs runs i
         /\ Forall2 run_of news runs
         /\ (forall m, m < i -> classes !! m = Some true -> covers runs m).
Proof.
  intros (Hprev & news & runs & b & Hd & Hn & Hnames & Hord & Hdom) Hopen.
  rewrite Hopen in Hdom.
  destruct Hdom as (cl & o & s & -> & Hruns & Hs & Ho & Hcov).
  destruct (Hprev ltac:(lia)) as (c' & Hc' & Hpe).
  rewrite (close_domain_spec st (domains0 ++ cl) o) by (now rewrite Hd, app_assoc).
  eexists. split; [reflexivity|]. cbn [bd_n_domains bd_reset_idx bd_prev_end
                                       bd_in_domain bd_domains].
  repeat split.
  exists (cl ++ [set_score (bd_score st) (set_end (bd_prev_end st) o)]),
         (runs ++ [(s, i)]).
  split; [now rewrite app_assoc|]. split; [now rewrite Hn, !length_app|].
  split; [|split; [|split]].
  - apply names_snoc.
    + intros k d Hk. apply Hnames. now apply lookup_app_l_Some.
    + cbn [set_score set_end gr_name]. apply Hnames.
      rewrite lookup_app_r by lia. now rewrite Nat.sub_diag.
  - apply (ordered_snoc runs b s i); [exact Hord | lia | lia].
  - apply Forall2_app; [exact Hruns|]. constructor; [|constructor].
    split; cbn [fst snd].
    + destruct Ho as (c & Hc & Hcl & Hchr & Hst). exists c. now repeat split.
    + exists c'. now split.
  - intros m Hm Hfg. apply covers_snoc.
    destruct (Hcov m Hm Hfg) as [H|H]; [now left | right; lia].
Qed.

Lemma reset_part_order i st r st1 :
  bd_order i st -> reset_part r i st = Done st1 -> bd_order i st1.
Proof.
  intros Hinv Hrun. unfold reset_part in Hrun.
  destruct (r =? i); [|now injection Hrun as <-].
  destruct (bd_in_domain st) eqn:Hopen.
  - destruct (close_domain_order i st Hinv Hopen)
      as (st' & Hc & _ & _ & Hpe & Hin & news & runs & Hd & Hn & Hnames & Hord
          & Hruns & Hcov).
    rewrite Hc in Hrun. cbn [obind] in Hrun. injection Hrun as <-.
    destruct Hinv as (Hprev & _).
    split.
    + intros Hi. destruct (Hprev Hi) as (c & Hc' & Hpe'). exists c.
      split; [exact Hc'|]. cbn [next_reset bd_prev_end]. congruence.
    + exists news, runs, i. cbn [next_reset bd_domains bd_n_domains bd_in_domain].
      rewrite Hin. repeat split; try assumption. lia.
  - cbn [obind] in Hrun. injection Hrun as <-.
    destruct Hinv as (Hprev & news & runs & b & Hd & Hn & Hnames & Hord & Hdom).
    split; [exact Hprev|]. exists news, runs, b.
    cbn [next_reset bd_domains bd_n_domains bd_in_domain].
    rewrite Hopen in *. now repeat split.
Qed.

Lemma class_part_order i st1 cl st2 c :
  bd_order i st1 -> classes !! i = Some cl ->
  class_part toa init_name init_score init_strand cpgs post_scores cl i st1
    = Done st2 ->
  cpgs !! i = Some c ->
  bd_order (S i) (with_prev_end (get_end c) st2).
Proof.
  intros Hinv Hcl Hrun Hc. unfold class_part in Hrun.
  assert (Hprev' : forall st, prev_ok cpgs (S i) (with_prev_end (get_end c) st)).
  { intros st _. exists c. replace (S i - 1) with i by lia. now split. }
  split; [apply Hprev'|].
  destruct cl.
  - (* foreground *)
    destruct Hinv as (Hprev & news & runs & b & Hd & Hn & Hnames & Hord & Hdom).
    destruct (bd_in_domain st1) eqn:Hopen; cbn [negb] in Hrun.
    + cbn [obind] in Hrun. bind_inv Hrun. injection Hrun as <-.
      exists news, runs, b.
      cbn [with_prev_end add_site bd_domains bd_n_domains bd_in_domain].
      rewrite Hopen. repeat split; try assumption.
      destruct Hdom as (cl & o & s & Hnews & Hruns & Hs & Ho & Hcov).
      exists cl, o, s. repeat split; try assumption; try lia.
      intros m Hm Hfg. destruct (Nat.eq_dec m i) as [->|Hne]; [right; lia|].
      apply Hcov; [lia | exact Hfg].
    + rewrite (proj2 (at_done _ _ c) Hc) in Hrun. cbn [obind] in Hrun.
      bind_inv Hrun. injection Hrun as <-.
      destruct Hdom as (Hruns & Hb & Hcov).
      exists (news ++ [set_name ("HYPO" ++ toa (bd_n_domains st1))
                         (region_of_simple init_name init_score init_strand c)]),
             runs, b.
      cbn [with_prev_end add_site open_domain bd_domains bd_n_domains bd_in_domain].
      split; [now rewrite Hd, app_assoc|].
      split; [rewrite length_app; simpl; lia|].
      split; [apply names_snoc; [exact Hnames | now rewrite Hn]|].
      split; [exact Hord|].
      eexists news, _, i. split; [reflexivity|]. split; [exact Hruns|].
      split; [lia|]. split; [exists c; now repeat split|].
      intros m Hm Hfg. destruct (Nat.eq_dec m i) as [->|Hne]; [right; lia|].
      left. apply Hcov; [lia | exact Hfg].
  - (* background *)
    destruct (bd_in_domain st1) eqn:Hopen.
    + destruct (close_domain_order i st1 Hinv Hopen)
        as (st' & Hc' & _ & _ & _ & Hin & news & runs & Hd & Hn & Hnames & Hord
            & Hruns & Hcov).
      rewrite Hc' in Hrun. injection Hrun as <-.
      exists news, runs, i.
      cbn [with_prev_end bd_domains bd_n_domains bd_in_domain].
      rewrite Hin. repeat split; try assumption; try lia.
      intros m Hm Hfg. destruct (Nat.eq_dec m i) as [->|Hne]; [congruence|].
      apply Hcov; [lia | exact Hfg].
    + injection Hrun as <-.
      destruct Hinv as (Hprev & news & runs & b & Hd & Hn & Hnames & Hord & Hdom).
      exists news, runs, b.
      cbn [with_prev_end bd_domains bd_n_domains bd_in_domain].
      rewrite Hopen in *. destruct Hdom as (Hruns & Hb & Hcov).
      repeat split; try assumption; try lia.
      intros m Hm Hfg. destruct (Nat.eq_dec m i) as [->|Hne]; [congruence|].
      apply Hcov; [lia | exact Hfg].
Qed.

Lemma build_domains_body_order i st st' :
  bd_order i st ->
  build_domains_body toa init_name init_score init_strand cpgs post_scores
    reset_points classes i st = Done st' ->
  bd_order (S i) st'.
Proof.
  intros Hinv Hrun. unfold build_domains_body in Hrun.
  bind_inv Hrun. rename a into r, Ha into Hr.
  bind_inv Hrun. rename a into st1, Ha into H1.
  bind_inv Hrun. rename a into cl, Ha into Hcl. apply at_done in Hcl.
  bind_inv Hrun. rename a into st2, Ha into H2.
  bind_inv Hrun. rename a into c, Ha into Hc. apply at_done in Hc.
  injection Hrun as <-.
  apply (class_part_order i st1 cl st2 c); try assumption.
  now apply (reset_part_order i st r st1).
Qed.

Lemma build_domains_order st :
  build_domains toa init_name init_score init_strand cpgs post_scores
    reset_points classes domains0 = Done st ->
  bd_order (length classes) st.
Proof.
  intros Hrun. unfold build_domains in Hrun.
  refine (for_loop_inv _ bd_order 0 (length classes) _ st _ _ Hrun).
  - split; [intros H; lia|]. exists [], [], 0. simpl. rewrite app_nil_r.
    repeat split; try constructor; try lia.
    intros k d Hk. now rewrite lookup_nil in Hk.
  - intros i t t' _. apply build_domains_body_order.
Qed.

(** Runs that follow each other are not empty, end at or before the
    bound, and each ends at or before the start of every later one. *)
Lemma ordered_runs_spec (runs : list (nat * nat)) (b : nat) :
  ordered_runs runs b ->
  Forall (fun r => fst r < snd r <= b) runs
  /\ forall k k' r r', k < k' -> runs !! k = Some r -> runs !! k' = Some r' ->
                       snd r <= fst r'.
Proof.
  induction 1 as [|runs b s e Hord [IHall IHpair] Hb Hs].
  - split; [constructor|]. intros k k' r r' _ Hk. now rewrite lookup_nil in Hk.
  - split.
    + apply Forall_app. split.
      * eapply Forall_impl; [exact IHall|]. intros r Hr. simpl in Hr. lia.
      * apply Forall_singleton. simpl. lia.
    + intros k k' r r' Hlt Hk Hk'.
      apply lookup_app_Some in Hk'. destruct Hk' as [Hk'|[Hlen Hk']].
      * rewrite lookup_app_l in Hk by (apply lookup_lt_Some in Hk'; lia).
        now apply (IHpair k k').
      * destruct (k' - length runs) as [|j] eqn:E; simpl in Hk';
          [|now rewrite lookup_nil in Hk'].
        injection Hk' as <-. rewrite lookup_app_l in Hk by lia.
        pose proof (Forall_lookup_1 _ _ _ _ IHall Hk) as Hr. simpl in Hr.
        simpl. lia.
Qed.
End BuildDomainsOrder.

(** X9.  Whenever [build_domains] returns, the records the vector held at
    the call are still in front, unchanged; the records it has appended
    are named [HYPO0], [HYPO1], ... in the order of the output, and the
    counter [n_domains] ends as their number. *)
Theorem build_domains_names (toa : nat -> string) (init_name : string)
    (init_score : double) (init_strand : ascii)
    (cpgs : list SimpleGenomicRegion) (post_scores : list double)
    (reset_points : list nat) (classes : list bool)
    (domains : list GenomicRegion) (st : bd_state) :
  build_domains toa init_name init_score init_strand cpgs post_scores
    reset_points classes domains = Done st ->
  exists news,
    bd_domains st = domains ++ news
    /\ length news = bd_n_domains st
    /\ forall k d, news !! k = Some d -> gr_name d = ("HYPO" ++ toa k)%string.
Proof.
  intros Hrun.
  destruct (build_domains_order _ _ _ _ _ _ _ _ _ _ Hrun)
    as (_ & news & runs & b & Hd & Hn & Hnames & _).
  exists news. now repeat split.
Qed.

Lemma build_domains_names_witness :
  build_domains toa_decimal "X" dbl_zero "+" sample_cpgs sample_scores
    [0%nat; 3%nat; 4%nat] [true; false; true; true] [sample_domain]
  = Done three_domains_state
  /\ exists news,
       bd_domains three_domains_state = [sample_domain] ++ news
       /\ length news = bd_n_domains three_domains_state
       /\ forall k d, news !! k = Some d
                      -> gr_name d = ("HYPO" ++ toa_decimal k)%string.
Proof.
  assert (H : build_domains toa_decimal "X" dbl_zero "+" sample_cpgs sample_scores
                [0%nat; 3%nat; 4%nat] [true; false; true; true] [sample_domain]
              = Done three_domains_state)
    by reflexivity.
  split; [exact H|].
  exact (build_domains_names _ _ _ _ _ _ _ _ _ _ H).
Defined.

(** X10.  Whenever [build_domains] returns, the domains it has appended
    stand in the order of the site table and do not share a site: each closed one starts at a
    foreground site and ends with a later or the same site, before the
    start site of every domain that follows it in the output; a domain
    left open at the end starts after all of them. *)
Theorem build_domains_in_site_order (toa : nat -> string) (init_name : string)
    (init_score : double) (init_strand : ascii)
    (cpgs : list SimpleGenomicRegion) (post_scores : list double)
    (reset_points : list nat) (classes : list bool)
    (domains : list GenomicRegion) (st : bd_state) :
  build_domains toa init_name init_score init_strand cpgs post_scores
    reset_points classes domains = Done st ->
  exists news runs,
    bd_domains st = domains ++ news
    /\ Forall2 (run_of cpgs classes)
         (if bd_in_domain st then removelast news else news) runs
    /\ Forall (fun r => (fst r < snd r <= length classes)%nat) runs
    /\ (forall k k' r r', (k < k')%nat ->
          runs !! k = Some r -> runs !! k' = Some r' -> (snd r <= fst r')%nat)
    /\ (bd_in_domain st = true ->
        exists o s, last news = Some o /\ opened_at cpgs classes o s
                    /\ (s < length classes)%nat
                    /\ Forall (fun r => (snd r <= s)%nat) runs).
Proof.
  intros Hrun.
  destruct (build_domains_order _ _ _ _ _ _ _ _ _ _ Hrun)
    as (_ & news & runs & b & Hd & _ & _ & Hord & Hdom).
  destruct (ordered_runs_spec runs b Hord) as [Hall Hpair].
  exists news, runs. split; [exact Hd|].
  destruct (bd_in_domain st).
  - destruct Hdom as (cl & o & s & -> & Hruns & Hs & Ho & _).
    rewrite removelast_last. split; [exact Hruns|]. split; [|split].
    + eapply Forall_impl; [exact Hall|]. intros r Hr. simpl in Hr. lia.
    + exact Hpair.
    + intros _. exists o, s. split; [apply last_snoc|]. split; [exact Ho|].
      split; [lia|]. eapply Forall_impl; [exact Hall|]. intros r Hr.
      simpl in Hr. lia.
  - destruct Hdom as (Hruns & Hb & _). split; [exact Hruns|]. split; [|split].
    + eapply Forall_impl; [exact Hall|]. intros r Hr. simpl in Hr. lia.
    + exact Hpair.
    + discriminate.
Qed.

Lemma build_domains_in_site_order_witness :
  build_domains toa_decimal "X" dbl_zero "+" sample_cpgs sample_scores
    [0%nat; 3%nat; 4%nat] [true; false; true; true] [sample_domain]
  = Done three_domains_state
  /\ exists news runs,
       bd_domains three_domains_state = [sample_domain] ++ news
       /\ Forall2 (run_of sample_cpgs [true; false; true; true])
            (if bd_in_domain three_domains_state then removelast news else news)
            runs
       /\ Forall (fun r => (fst r < snd r <= length [true; false; true; true])%nat)
                 runs
       /\ (forall k k' r r', (k < k')%nat ->
             runs !! k = Some r -> runs !! k' = Some r' -> (snd r <= fst r')%nat)
       /\ (bd_in_domain three_domains_state = true ->
           exists o s,
             last news = Some o
             /\ opened_at sample_cpgs [true; false; true; true] o s
             /\ (s < length [true; false; true; true])%nat
             /\ Forall (fun r => (snd r <= s)%nat) runs).
Proof.
  assert (H : build_domains toa_decimal "X" dbl_zero "+" sample_cpgs sample_scores
                [0%nat; 3%nat; 4%nat] [true; false; true; true] [sample_domain]
              = Done three_domains_state)
    by reflexivity.
  split; [exact H|].
  exact (build_domains_in_site_order _ _ _ _ _ _ _ _ _ _ H).
Defined.

(** X11.  No foreground site is left out: every foreground site belongs
    to the run of one of the closed domains [build_domains] has appended,
    or to the domain that is still open when the function returns. *)
Theorem build_domains_covers_foreground (toa : nat -> string) (init_name : string)
    (init_score : double) (init_strand : ascii)
    (cpgs : list SimpleGenomicRegion) (post_scores : list double)
    (reset_points : list nat) (classes : list bool)
    (domains : list GenomicRegion) (st : bd_state) :
  build_domains toa init_name init_score init_strand cpgs post_scores
    reset_points classes domains = Done st ->
  exists news runs,
    bd_domains st = domains ++ news
    /\ Forall2 (run_of cpgs classes)
         (if bd_in_domain st then removelast news else news) runs
    /\ forall m, classes !! m = Some true ->
         covers runs m
         \/ (bd_in_domain st = true
             /\ exists o s, last news = Some o /\ opened_at cpgs classes o s
                            /\ (s <= m)%nat).
Proof.
  intros Hrun.
  destruct (build_domains_order _ _ _ _ _ _ _ _ _ _ Hrun)
    as (_ & news & runs & b & Hd & _ & _ & _ & Hdom).
  exists news, runs. split; [exact Hd|].
  destruct (bd_in_domain st).
  - destruct Hdom as (cl & o & s & -> & Hruns & Hs & Ho & Hcov).
    rewrite removelast_last. split; [exact Hruns|].
    intros m Hfg. pose proof (lookup_lt_Some _ _ _ Hfg) as Hm.
    destruct (Hcov m Hm Hfg) as [H|H]; [now left|]. right.
    split; [reflexivity|]. exists o, s. split; [apply last_snoc|]. now split.
  - destruct Hdom as (Hruns & Hb & Hcov). split; [exact Hruns|].
    intros m Hfg. left. apply Hcov; [|exact Hfg].
    exact (lookup_lt_Some _ _ _ Hfg).
Qed.

Lemma build_domains_covers_foreground_witness :
  build_domains toa_decimal "X" dbl_zero "+" sample_cpgs sample_scores
    [0%nat; 3%nat; 4%nat] [true; false; true; true] [sample_domain]
  = Done three_domains_state
  /\ exists news runs,
       bd_domains three_domains_state = [sample_domain] ++ news
       /\ Forall2 (run_of sample_cpgs [true; false; true; true])
            (if bd_in_domain three_domains_state then removelast news else news)
            runs
       /\ forall m, [true; false; true; true] !! m = Some true ->
            covers runs m
            \/ (bd_in_domain three_domains_state = true
                /\ exists o s,
                     last news = Some o
                     /\ opened_at sample_cpgs [true; false; true; true] o s
                     /\ (s <= m)%nat).
Proof.
  assert (H : build_domains toa_decimal "X" dbl_zero "+" sample_cpgs sample_scores
                [0%nat; 3%nat; 4%nat] [true; false; true; true] [sample_domain]
              = Done three_domains_state)
    by reflexivity.
  split; [exact H|].
  exact (build_domains_covers_foreground _ _ _ _ _ _ _ _ _ _ H).
Defined.

(** ** Rounding never exceeds a representable bound *)

Lemma digits2_value_bound (m : positive) :
  Zpos (digits2_pos m) <= 53 -> Zpos m < 2 ^ 53.
Proof.
  intros H. rewrite digits2_size in H.
  pose proof (Pos.size_gt m) as Hs. apply Pos2Z.pos_lt_pos in Hs.
  rewrite Pos2Z.inj_pow in Hs.
  assert (2 ^ Zpos (Pos.size m) <= 2 ^ 53) by (apply Z.pow_le_mono_r; lia).
  lia.
Qed.

Section RoundingBound.

Lemma shr_1_spec (m : Z) (r s : bool) :
  0 <= m ->
  shr_m (shr_1 (Build_shr_record m r s)) = m / 2
  /\ shr_r (shr_1 (Build_shr_record m r s)) = Z.odd m
  /\ shr_s (shr_1 (Build_shr_record m r s)) = r || s.
Proof.
  intros Hm. rewrite <- Z.div2_div.
  destruct m as [|p|p]; [now repeat split | | lia].
  destruct p; now repeat split.
Qed.

Lemma shr_m_nonneg (n : positive) (rec : shr_record) :
  0 <= shr_m rec -> 0 <= shr_m (Pos.iter shr_1 rec n).
Proof.
  intros H. induction n as [|n IH] using Pos.peano_ind.
  - simpl. destruct rec as [m r s]. simpl in H.
    rewrite (proj1 (shr_1_spec m r s H)). apply Z.div_pos; lia.
  - rewrite Pos.iter_succ. destruct (Pos.iter shr_1 rec n) as [m r s].
    simpl in IH. rewrite (proj1 (shr_1_spec m r s IH)). apply Z.div_pos; lia.
Qed.

(** Shifting [m] right by [n] bits: the quotient, and no remainder bit
    when [m] is a multiple of [2^n]. *)
Lemma shr_iter_spec (n : positive) (m : Z) :
  0 <= m ->
  shr_m (Pos.iter shr_1 (Build_shr_record m false false) n) = m / 2 ^ Zpos n
  /\ (m mod 2 ^ Zpos n = 0 ->
      shr_r (Pos.iter shr_1 (Build_shr_record m false false) n) = false
      /\ shr_s (Pos.iter shr_1 (Build_shr_record m false false) n) = false).
Proof.
  intros Hm. induction n as [|n IH] using Pos.peano_ind.
  - cbn [Pos.iter]. destruct (shr_1_spec m false false Hm) as (H1 & H2 & H3).
    rewrite H1, H2, H3. change (2 ^ 1) with 2. split; [reflexivity|].
    intros Hmod. split; [|reflexivity].
    rewrite Zodd_mod, Hmod. reflexivity.
  - rewrite Pos.iter_succ.
    pose proof (shr_m_nonneg n (Build_shr_record m false false) Hm) as Hpos.
    destruct (Pos.iter shr_1 (Build_shr_record m false false) n) as [mn rn sn].
    cbn [shr_m shr_r shr_s] in *. destruct IH as [IHm IHexact].
    destruct (shr_1_spec mn rn sn Hpos) as (H1 & H2 & H3).
    rewrite H1, H2, H3, IHm.
    rewrite Pos2Z.inj_succ, Z.pow_succ_r by lia.
    assert (Hp : 0 < 2 ^ Zpos n) by (apply Z.pow_pos_nonneg; lia).
    split.
    + rewrite Z.div_div by lia. f_equal. lia.
    + intros Hmod.
      apply Z.mod_divide in Hmod; [|lia]. destruct Hmod as [q Hq].
      assert (Hn : m mod 2 ^ Zpos n = 0).
      { apply Z.mod_divide; [lia|]. exists (q * 2). lia. }
      destruct (IHexact Hn) as [-> ->]. split; [|reflexivity].
      assert (Hdiv : m / 2 ^ Zpos n = q * 2).
      { symmetry. apply Z.div_unique_exact; lia. }
      rewrite Hdiv, Z.odd_mul. apply andb_false_r.
Qed.

Lemma shr_spec (m e n : Z) :
  0 <= m ->
  exists rec' e',
    shr (Build_shr_record m false false) e n = (rec', e')
    /\ e' = e + Z.max 0 n
    /\ shr_m rec' = m / 2 ^ Z.max 0 n
    /\ (m mod 2 ^ Z.max 0 n = 0 -> loc_of_shr_record rec' = loc_Exact).
Proof.
  intros Hm. destruct n as [|k|k].
  - exists (Build_shr_record m false false), e. cbn [shr shr_m Z.max Z.compare].
    change (2 ^ 0) with 1. rewrite Z.div_1_r. repeat split. lia.
  - unfold shr. rewrite iter_pos_iter.
    destruct (shr_iter_spec k m Hm) as [H1 H2].
    eexists _, _. split; [reflexivity|]. rewrite Z.max_r by lia.
    split; [reflexivity|]. split; [exact H1|]. intros Hmod.
    destruct (H2 Hmod) as [Hr Hs].
    destruct (Pos.iter shr_1 (Build_shr_record m false false) k) as [m' r' s'].
    cbn [shr_r shr_s] in Hr, Hs. now subst.
  - exists (Build_shr_record m false false), e. cbn [shr shr_m].
    rewrite Z.max_l by lia. change (2 ^ 0) with 1. rewrite Z.div_1_r.
    repeat split. lia.
Qed.

Lemma round_nearest_even_bounds (m : Z) (l : location) :
  m <= round_nearest_even m l <= m + 1.
Proof.
  destruct l as [|[]]; simpl; try lia. destruct (Z.even m); lia.
Qed.

Lemma Zdigits2_le (m n : Z) :
  0 <= m < 2 ^ n -> 0 <= n -> Zdigits2 m <= n.
Proof.
  intros Hm Hn. destruct m as [|p|p]; [simpl; lia | | lia].
  cbn [Zdigits2]. rewrite digits2_size.
  destruct (Z_le_gt_dec (Zpos (Pos.size p)) n) as [H|H]; [exact H|].
  exfalso. pose proof (Pos.size_le p) as Hs.
  apply Pos2Z.pos_le_pos in Hs. rewrite Pos2Z.inj_pow, (Pos2Z.inj_xO p) in Hs.
  assert (2 ^ (n + 1) <= 2 ^ Zpos (Pos.size p)) by (apply Z.pow_le_mono_r; lia).
  rewrite Z.pow_add_r in H0 by lia. change (2 ^ 1) with 2 in H0. lia.
Qed.

(** One shift of the rounding: a mantissa [m] at exponent [e], read as
    the number [m * 2^e], that does not exceed the integer [C] is shifted
    to a mantissa and an exponent that do not exceed [C] either. *)
Lemma shift_stage_bound (C m e k : Z) :
  0 <= C -> 0 <= m -> e <= 0 -> e + Z.max 0 k <= 0 ->
  m <= C * 2 ^ (- e) ->
  0 <= m / 2 ^ Z.max 0 k
  /\ m / 2 ^ Z.max 0 k <= C * 2 ^ (- (e + Z.max 0 k))
  /\ (m mod 2 ^ Z.max 0 k <> 0 ->
      m / 2 ^ Z.max 0 k + 1 <= C * 2 ^ (- (e + Z.max 0 k))).
Proof.
  intros HC Hm He Hek Hb. set (K := Z.max 0 k) in *.
  assert (HK : 0 <= K) by (unfold K; lia).
  assert (HP : 0 < 2 ^ K) by (apply Z.pow_pos_nonneg; lia).
  assert (Hsplit : 2 ^ (- e) = 2 ^ K * 2 ^ (- (e + K))).
  { rewrite <- Z.pow_add_r by lia. f_equal. lia. }
  rewrite Hsplit in Hb. set (Q := C * 2 ^ (- (e + K))).
  assert (HbQ : m <= 2 ^ K * Q) by (unfold Q; lia).
  split; [apply Z.div_pos; lia|]. split.
  - apply Z.div_le_upper_bound; lia.
  - intros Hmod.
    assert (m <> 2 ^ K * Q).
    { intros ->. apply Hmod. rewrite Z.mul_comm. apply Z.mod_mul. lia. }
    assert (m / 2 ^ K < Q) by (apply Z.div_lt_upper_bound; lia). lia.
Qed.

(** The result of rounding a positive number that does not exceed an
    integer [C] below [2^53] is zero or a positive double that does not
    exceed [C]. *)
Lemma binary_round_aux_upper (M : positive) (E C : Z) :
  E <= 0 -> 0 <= C < 2 ^ 53 -> Zpos M <= C * 2 ^ (- E) ->
  binary_round_aux prec emax false (Zpos M) E loc_Exact = S754_zero false
  \/ exists mf ef,
       binary_round_aux prec emax false (Zpos M) E loc_Exact
       = S754_finite false mf ef
       /\ ef <= 0 /\ Zpos mf <= C * 2 ^ (- ef).
Proof.
  intros HE HC HM.
  assert (Hstage : forall m e, 0 <= m -> e <= 0 -> m <= C * 2 ^ (- e) ->
            e + Z.max 0 (fexp prec emax (Zdigits2 m + e) - e) <= 0).
  { intros m e Hm He Hb.
    assert (Hlt : m < 2 ^ (53 - e)).
    { replace (53 - e) with (53 + - e) by lia. rewrite Z.pow_add_r by lia.
      assert (0 < 2 ^ (- e)) by (apply Z.pow_pos_nonneg; lia). nia. }
    pose proof (Zdigits2_le m (53 - e) ltac:(lia) ltac:(lia)) as Hd.
    unfold fexp, SpecFloat.emin, prec, emax. lia. }
  unfold binary_round_aux, shr_fexp. cbn [shr_record_of_loc].
  set (k1 := fexp prec emax (Zdigits2 (Zpos M) + E) - E).
  destruct (shr_spec (Zpos M) E k1 ltac:(lia))
    as (rec1 & e1 & Heq1 & He1 & Hm1 & Hex1).
  rewrite Heq1.
  pose proof (Hstage (Zpos M) E ltac:(lia) HE HM) as Hs1. fold k1 in Hs1.
  destruct (shift_stage_bound C (Zpos M) E k1 ltac:(lia) ltac:(lia) HE Hs1 HM)
    as (Hq0 & Hq1 & Hq2).
  rewrite <- Hm1 in Hq0, Hq1, Hq2. rewrite <- He1 in Hq1, Hq2.
  set (m1 := round_nearest_even (shr_m rec1) (loc_of_shr_record rec1)).
  assert (Hb1 : 0 <= m1 /\ m1 <= C * 2 ^ (- e1)).
  { pose proof (round_nearest_even_bounds (shr_m rec1) (loc_of_shr_record rec1))
      as Hr. fold m1 in Hr. split; [lia|].
    destruct (Z.eq_dec (Zpos M mod 2 ^ Z.max 0 k1) 0) as [Hz|Hnz].
    - unfold m1. rewrite (Hex1 Hz). cbn [round_nearest_even]. exact Hq1.
    - specialize (Hq2 Hnz). lia. }
  destruct Hb1 as [Hm1pos Hm1le].
  assert (He1le : e1 <= 0) by lia.
  set (k2 := fexp prec emax (Zdigits2 m1 + e1) - e1).
  destruct (shr_spec m1 e1 k2 Hm1pos) as (rec2 & e2 & Heq2 & He2 & Hm2 & _).
  rewrite Heq2.
  pose proof (Hstage m1 e1 Hm1pos He1le Hm1le) as Hs2. fold k2 in Hs2.
  destruct (shift_stage_bound C m1 e1 k2 ltac:(lia) Hm1pos He1le Hs2 Hm1le)
    as (Hr0 & Hr1 & _).
  rewrite <- Hm2 in Hr0, Hr1. rewrite <- He2 in Hr1.
  destruct (shr_m rec2) as [|mf|mf]; [now left | right | lia].
  exists mf, e2.
  replace (e2 <=? emax - prec) with true
    by (symmetry; apply Z.leb_le; unfold emax, prec; lia).
  split; [reflexivity|]. split; [lia | exact Hr1].
Qed.

(** Truncation of a positive double that does not exceed [C]. *)
Lemma dtrunc_upper (mf : positive) (ef C : Z) :
  ef <= 0 -> Zpos mf <= C * 2 ^ (- ef) ->
  exists m, dtrunc (S754_finite false mf ef) = Some m /\ 0 <= m <= C.
Proof.
  intros He Hb. cbn [dtrunc]. eexists. split; [reflexivity|].
  replace ef with (- - ef) at 1 2 by lia.
  rewrite Z.shiftl_opp_r, Z.shiftr_div_pow2 by lia.
  assert (0 < 2 ^ (- ef)) by (apply Z.pow_pos_nonneg; lia).
  split; [apply Z.div_pos; lia|]. apply Z.div_le_upper_bound; lia.
Qed.

(** The product of a level between 0 and 1 and a coverage, truncated, is
    a count between 0 and the coverage. *)
Lemma dmul_level_coverage (ms : positive) (es : Z) (c : Z) :
  es <= 0 -> Zpos ms <= 2 ^ (- es) -> 0 <= c < 2 ^ 53 ->
  exists m,
    dtrunc (dmul (S754_finite false ms es) (double_of_Z c)) = Some m
    /\ 0 <= m <= c.
Proof.
  intros Hes Hms Hc. destruct c as [|p|p]; [exists 0; now split | | lia].
  rewrite (double_of_Z_canonical false p) by lia.
  pose proof (digits2_bound p ltac:(lia)) as Hd.
  pose proof (Pos2Z.is_pos (digits2_pos p)) as Hdpos.
  unfold dmul, canonical, SFmul. cbn [xorb].
  set (d := Zpos (digits2_pos p)) in *.
  destruct (binary_round_aux_upper (ms * pshift p (53 - d)) (es + (d - 53))
              (Zpos p)) as [->|(mf & ef & -> & Hef & Hmf)]; try lia.
  - rewrite Pos2Z.inj_mul, pshift_Z by lia.
    replace (- (es + (d - 53))) with (- es + (53 - d)) by lia.
    rewrite Z.pow_add_r by lia.
    assert (0 < 2 ^ (53 - d)) by (apply Z.pow_pos_nonneg; lia). nia.
  - exists 0. now split.
  - now apply dtrunc_upper.
Qed.
End RoundingBound.

(** ** load_cpgs: further properties *)

Lemma find_first_of_none (c : ascii) (r : string) :
  string_forall (fun a => negb (Ascii.eqb a c)) r = true ->
  find_first_of c r = None.
Proof.
  induction r as [|a r IH]; simpl; intros H; [reflexivity|].
  apply andb_true_iff in H. destruct H as [Ha Hr].
  apply negb_true_iff in Ha. now rewrite Ha, (IH Hr).
Qed.

Lemma atoi_range (r : string) (a : Z) :
  atoi r = Done a -> INT_MIN <= a <= INT_MAX.
Proof.
  unfold atoi.
  destruct (match skip_spaces r with
            | String a0 r' =>
                if Ascii.eqb a0 "-" then (true, r')
                else if Ascii.eqb a0 "+" then (false, r')
                else (false, skip_spaces r)
            | EmptyString => (false, skip_spaces r)
            end) as [neg r2].
  set (v := if neg then - digits_value 0 r2 else digits_value 0 r2).
  destruct ((INT_MIN <=? v) && (v <=? INT_MAX)) eqn:E; [|discriminate].
  intros [= <-]. apply andb_true_iff in E. destruct E as [E1 E2].
  apply Z.leb_le in E1, E2. now split.
Qed.

(** One record appends one entry to each of the three vectors. *)
Lemma load_record_shape (rec : GenomicRegion) (acc acc' : loaded) :
  load_record rec acc = Done acc' ->
  exists mu r,
    whole_counts mu /\ is_size_t r
    /\ acc' = mkLoaded (ld_cpgs acc ++ [simple_of_region rec])
                       (ld_meth acc ++ [mu]) (ld_reads acc ++ [r]).
Proof.
  intros Hrun. unfold load_record in Hrun.
  bind_inv Hrun. rename a into suffix.
  bind_inv Hrun. rename a into n.
  bind_inv Hrun. rename a into m, Ha1 into Hm.
  bind_inv Hrun. rename a into u, Ha1 into Hu.
  injection Hrun as <-.
  destruct (int_of_double_done _ _ Hm) as [_ Rm].
  destruct (int_of_double_done _ _ Hu) as [_ Ru].
  exists (double_of_Z m, double_of_Z u), (size_t_of_int n).
  split; [now exists m, u|]. split; [|reflexivity].
  unfold is_size_t, size_t_of_int, SIZE_MAX.
  pose proof (Z.mod_pos_bound n (2 ^ 64) ltac:(lia)). lia.
Qed.

Lemma load_records_shape (recs : list GenomicRegion) (acc ld : loaded) :
  load_records recs acc = Done ld ->
  exists meth reads,
    ld = mkLoaded (ld_cpgs acc ++ map simple_of_region recs)
                  (ld_meth acc ++ meth) (ld_reads acc ++ reads)
    /\ length meth = length recs /\ length reads = length recs
    /\ Forall whole_counts meth /\ Forall is_size_t reads.
Proof.
  revert acc. induction recs as [|rec recs IH]; intros acc Hrun.
  - injection Hrun as <-. exists [], []. destruct acc. simpl.
    rewrite !app_nil_r. repeat split; constructor.
  - simpl in Hrun. bind_inv Hrun. rename a into acc1, Ha into H1.
    destruct (load_record_shape rec acc acc1 H1) as (mu & r & Hmu & Hr & ->).
    destruct (IH _ Hrun) as (meth & reads & -> & Lm & Lr & Hm & Hrs).
    exists (mu :: meth), (r :: reads).
    cbn [ld_cpgs ld_meth ld_reads map length]. rewrite <- !app_assoc.
    repeat split; try (constructor; assumption); try lia. 
Qed.

(** X12.  [load_cpgs] returns only on input that [check_sorted] accepts;
    it keeps what the three vectors held and appends to each of them one
    entry per record, in the order of the records: the location of the
    record, a pair of whole-number counts, and a coverage that is a
    [size_t] value.  The three vectors grow by the same length. *)
Theorem load_cpgs_parallel (check_sorted : list GenomicRegion -> bool)
    (cpgs_file : string) (cpgs_in : list GenomicRegion)
    (cpgs : list SimpleGenomicRegion) (meth : list (double * double))
    (reads : list size_t) (ld : loaded) :
  load_cpgs check_sorted cpgs_file cpgs_in cpgs meth reads = Done ld ->
  check_sorted cpgs_in = true
  /\ exists meth' reads',
       ld = mkLoaded (cpgs ++ map simple_of_region cpgs_in)
                     (meth ++ meth') (reads ++ reads')
       /\ length meth' = length cpgs_in
       /\ length reads' = length cpgs_in
       /\ Forall whole_counts meth'
       /\ Forall is_size_t reads'.
Proof.
  intros Hrun. unfold load_cpgs in Hrun.
  destruct (check_sorted cpgs_in); [|discriminate].
  split; [reflexivity|]. cbn [negb] in Hrun.
  exact (load_records_shape cpgs_in _ ld Hrun).
Qed.

Lemma load_cpgs_parallel_witness :
  load_cpgs (fun _ => true) "cpgs.bed" [sample_record; unnumbered_record]
    [site "chr1" 1] [(dbl_one, dbl_zero)] [1]
  = Done (mkLoaded [site "chr1" 1; site "chr1" 10; site "chr1" 10]
            [(dbl_one, dbl_zero); (double_of_Z 7, double_of_Z 3);
             (dbl_zero, dbl_zero)]
            [1; 10; 0])
  /\ (fun _ : list GenomicRegion => true) [sample_record; unnumbered_record] = true
  /\ exists meth' reads',
       mkLoaded [site "chr1" 1; site "chr1" 10; site "chr1" 10]
         [(dbl_one, dbl_zero); (double_of_Z 7, double_of_Z 3); (dbl_zero, dbl_zero)]
         [1; 10; 0]
       = mkLoaded ([site "chr1" 1]
                   ++ map simple_of_region [sample_record; unnumbered_record])
                  ([(dbl_one, dbl_zero)] ++ meth') ([1] ++ reads')
       /\ length meth' = length [sample_record; unnumbered_record]
       /\ length reads' = length [sample_record; unnumbered_record]
       /\ Forall whole_counts meth'
       /\ Forall is_size_t reads'.
Proof.
  assert (H : load_cpgs (fun _ => true) "cpgs.bed"
                [sample_record; unnumbered_record]
                [site "chr1" 1] [(dbl_one, dbl_zero)] [1]
              = Done (mkLoaded [site "chr1" 1; site "chr1" 10; site "chr1" 10]
                        [(dbl_one, dbl_zero); (double_of_Z 7, double_of_Z 3);
                         (dbl_zero, dbl_zero)]
                        [1; 10; 0]))
    by reflexivity.
  split; [exact H|].
  exact (load_cpgs_parallel (fun _ => true) "cpgs.bed"
           [sample_record; unnumbered_record] _ _ _ _ H).
Defined.

(** X13.  A name without a colon is parsed from its first character:
    [find_first_of] gives [npos], and [npos + 1] wraps around to 0.  The
    coverage stored is then what [atoi] reads from the whole name, when
    that is not negative: 17 for the name [17]. *)
Theorem load_record_no_colon (rec : GenomicRegion) (acc acc' : loaded) (a : Z) :
  string_forall (fun c => negb (Ascii.eqb c ":")) (get_name rec) = true ->
  atoi (get_name rec) = Done a ->
  0 <= a ->
  load_record rec acc = Done acc' ->
  ld_reads acc' = ld_reads acc ++ [a].
Proof.
  intros Hcolon Hatoi Ha Hrun. unfold load_record in Hrun.
  rewrite (find_first_of_none ":" _ Hcolon) in Hrun.
  change ((npos + 1) mod 2 ^ 64) with 0 in Hrun.
  unfold substr_from in Hrun.
  replace (0 <=? Z.of_nat (String.length (get_name rec))) with true in Hrun
    by (symmetry; apply Z.leb_le; lia).
  cbn [obind] in Hrun.
  change (string_drop (Z.to_nat 0) (get_name rec)) with (get_name rec) in Hrun.
  rewrite Hatoi in Hrun.
  cbn [obind] in Hrun.
  bind_inv Hrun. bind_inv Hrun. injection Hrun as <-. cbn [ld_reads].
  pose proof (atoi_range _ _ Hatoi) as Hr. unfold INT_MAX in Hr.
  unfold size_t_of_int. now rewrite Z.mod_small by lia.
Qed.

Lemma load_record_no_colon_witness :
  (string_forall (fun c => negb (Ascii.eqb c ":")) (get_name bare_number_record)
   = true
   /\ atoi (get_name bare_number_record) = Done 17
   /\ 0 <= 17
   /\ load_record bare_number_record (mkLoaded [] [] [])
      = Done (mkLoaded [site "chr1" 10] [(double_of_Z 8, double_of_Z 9)] [17]))
  /\ ld_reads (mkLoaded [site "chr1" 10] [(double_of_Z 8, double_of_Z 9)] [17])
     = ld_reads (mkLoaded [] [] []) ++ [17].
Proof.
  assert (H1 : string_forall (fun c => negb (Ascii.eqb c ":"))
                 (get_name bare_number_record) = true) by reflexivity.
  assert (H2 : atoi (get_name bare_number_record) = Done 17) by reflexivity.
  assert (H3 : 0 <= 17) by lia.
  assert (H4 : load_record bare_number_record (mkLoaded [] [] [])
               = Done (mkLoaded [site "chr1" 10] [(double_of_Z 8, double_of_Z 9)]
                         [17]))
    by reflexivity.
  split; [exact (conj H1 (conj H2 (conj H3 H4)))|].
  exact (load_record_no_colon bare_number_record _ _ 17 H1 H2 H3 H4).
Defined.

(** A record without a number in its name is loaded with coverage 0. *)
Example load_record_unnumbered :
  load_record unnumbered_record (mkLoaded [] [] [])
  = Done (mkLoaded [site "chr1" 10] [(dbl_zero, dbl_zero)] [0]).
Proof. reflexivity. Qed.

(** On a well-formed name the parsing part of the loop body returns the
    read count, and what is left are the two conversions to [int]. *)
Lemma load_record_well_formed (rec : GenomicRegion) (acc : loaded) (c : Z) :
  well_formed_name (get_name rec) c ->
  load_record rec acc
  = do first <- int_of_double (dmul (get_score rec) (double_of_Z c));
    do second <- int_of_double (dsub (double_of_Z c) (double_of_Z first));
    Done (mkLoaded (ld_cpgs acc ++ [simple_of_region rec])
                   (ld_meth acc ++ [(double_of_Z first, double_of_Z second)])
                   (ld_reads acc ++ [c])).
Proof.
  intros (pre & ds & Hname & Hpre & Hds & Hval & Hmax & Hsize).
  pose proof (digits_value_nonneg ds 0 ltac:(lia)) as Hnonneg.
  unfold load_record. rewrite Hname.
  change (pre ++ ":" ++ ds)%string with (pre ++ String ":" ds)%string.
  rewrite (find_first_of_app ":" pre ds Hpre).
  assert (Hlen : String.length (pre ++ String ":" ds)
                 = (String.length pre + 1 + String.length ds)%nat).
  { rewrite string_length_app. simpl. lia. }
  rewrite Hname in Hsize.
  change (pre ++ ":" ++ ds)%string with (pre ++ String ":" ds)%string in Hsize.
  unfold is_size_t, SIZE_MAX in Hsize.
  rewrite Z.mod_small by lia.
  unfold substr_from.
  replace (Z.of_nat (String.length pre) + 1
           <=? Z.of_nat (String.length (pre ++ String ":" ds))) with true
    by (symmetry; apply Z.leb_le; lia).
  replace (Z.to_nat (Z.of_nat (String.length pre) + 1))
    with (String.length pre + 1)%nat by lia.
  rewrite string_drop_app. cbn [obind].
  rewrite (atoi_digits ds Hds) by (rewrite Hval; exact Hmax).
  cbn [obind]. rewrite Hval.
  unfold size_t_of_int. unfold INT_MAX in Hmax.
  now rewrite (Z.mod_small c) by lia.
Qed.

Lemma int_of_double_of_Z (c : Z) :
  0 <= c <= INT_MAX -> int_of_double (double_of_Z c) = Done c.
Proof.
  intros Hc. unfold INT_MAX in Hc. destruct c as [|p|p]; [reflexivity | | lia].
  rewrite (double_of_Z_canonical false p) by lia.
  unfold int_of_double. rewrite dtrunc_canonical by (apply digits2_bound; lia).
  replace ((INT_MIN <=? Zpos p) && (Zpos p <=? INT_MAX)) with true; [reflexivity|].
  symmetry. apply andb_true_iff. unfold INT_MIN, INT_MAX.
  split; apply Z.leb_le; lia.
Qed.

Lemma int_of_dsub (a b : Z) :
  0 <= a <= INT_MAX -> 0 <= b <= INT_MAX ->
  int_of_double (dsub (double_of_Z a) (double_of_Z b)) = Done (a - b).
Proof.
  unfold INT_MAX. intros Ha Hb. unfold int_of_double.
  rewrite dsub_exact by lia.
  replace ((INT_MIN <=? a - b) && (a - b <=? INT_MAX)) with true; [reflexivity|].
  symmetry. apply andb_true_iff. unfold INT_MIN, INT_MAX.
  split; apply Z.leb_le; lia.
Qed.

(** Multiplying [1.0] by a double that holds an integer below [2^53]
    changes nothing. *)
Lemma dmul_one_l_exact (c : positive) :
  Zpos c < 2 ^ 53 -> dmul dbl_one (double_of_Z (Zpos c)) = double_of_Z (Zpos c).
Proof.
  intros Hc. rewrite (double_of_Z_canonical false c Hc).
  pose proof (digits2_bound c Hc) as Hd.
  pose proof (Pos2Z.is_pos (digits2_pos c)) as Hpos.
  change dbl_one with (S754_finite false (pshift 1 52) (-52)).
  unfold dmul, canonical, SFmul. cbn [xorb].
  rewrite Pos.mul_comm, pos_mul_pshift by lia.
  rewrite binary_round_aux_shifted; [f_equal; lia | lia | | lia].
  rewrite digits2_pshift by lia. lia.
Qed.

(** X14.  The two ends of the range of levels are loaded exactly: a
    record of level 1 and coverage [c] gets the counts [(c, 0)], a record
    of level 0 the counts [(0, c)]; in both cases the loop body
    returns. *)
Theorem load_record_extreme_levels (rec : GenomicRegion) (acc : loaded) (c : Z) :
  well_formed_name (get_name rec) c ->
  (get_score rec = dbl_one ->
   load_record rec acc
   = Done (mkLoaded (ld_cpgs acc ++ [simple_of_region rec])
                    (ld_meth acc ++ [(double_of_Z c, dbl_zero)])
                    (ld_reads acc ++ [c])))
  /\ (get_score rec = dbl_zero ->
      load_record rec acc
      = Done (mkLoaded (ld_cpgs acc ++ [simple_of_region rec])
                       (ld_meth acc ++ [(dbl_zero, double_of_Z c)])
                       (ld_reads acc ++ [c]))).
Proof.
  intros Hwf. rewrite (load_record_well_formed rec acc c Hwf).
  destruct Hwf as (pre & ds & _ & _ & _ & Hval & Hmax & _).
  pose proof (digits_value_nonneg ds 0 ltac:(lia)) as Hnonneg.
  rewrite Hval in Hnonneg.
  assert (H53 : c < 2 ^ 53) by (unfold INT_MAX in Hmax; lia).
  split; intros ->.
  - assert (Hmul : dmul dbl_one (double_of_Z c) = double_of_Z c).
    { destruct c as [|p|p]; [reflexivity | now apply dmul_one_l_exact | lia]. }
    rewrite Hmul, int_of_double_of_Z by lia. cbn [obind].
    rewrite int_of_dsub by lia. cbn [obind]. now rewrite Z.sub_diag.
  - assert (Hmul : dmul dbl_zero (double_of_Z c) = dbl_zero).
    { destruct c as [|p|p]; [reflexivity | | lia].
      now rewrite (double_of_Z_canonical false p) by lia. }
    rewrite Hmul. change (int_of_double dbl_zero) with (@Done Z 0). cbn [obind].
    rewrite int_of_dsub by lia. cbn [obind]. now rewrite Z.sub_0_r.
Qed.

Lemma load_record_extreme_levels_witness :
  well_formed_name (get_name full_record) 10
  /\ (get_score full_record = dbl_one ->
      load_record full_record (mkLoaded [] [] [])
      = Done (mkLoaded (ld_cpgs (mkLoaded [] [] []) ++ [simple_of_region full_record])
                (ld_meth (mkLoaded [] [] []) ++ [(double_of_Z 10, dbl_zero)])
                (ld_reads (mkLoaded [] [] []) ++ [10])))
  /\ (get_score full_record = dbl_zero ->
      load_record full_record (mkLoaded [] [] [])
      = Done (mkLoaded (ld_cpgs (mkLoaded [] [] []) ++ [simple_of_region full_record])
                (ld_meth (mkLoaded [] [] []) ++ [(dbl_zero, double_of_Z 10)])
                (ld_reads (mkLoaded [] [] []) ++ [10]))).
Proof.
  assert (H : well_formed_name (get_name full_record) 10).
  { exists "CpG"%string, "10"%string. repeat split; discriminate. }
  split; [exact H|].
  exact (load_record_extreme_levels full_record (mkLoaded [] [] []) 10 H).
Defined.

(** The two sample records of coverage 10 at the ends of the range. *)
Example load_record_full_and_empty :
  load_record full_record (mkLoaded [] [] [])
  = Done (mkLoaded [site "chr1" 10] [(double_of_Z 10, dbl_zero)] [10])
  /\ load_record empty_record (mkLoaded [] [] [])
     = Done (mkLoaded [site "chr1" 10] [(dbl_zero, double_of_Z 10)] [10]).
Proof. split; reflexivity. Qed.

(** A valid double between 0 and 1 is a zero, or a positive double whose
    value [ms * 2^es] is at most 1. *)
Lemma level_cases (x : double) :
  valid_binary prec emax x = true ->
  dle dbl_zero x = true -> dle x dbl_one = true ->
  (exists s, x = S754_zero s)
  \/ exists ms es, x = S754_finite false ms es /\ es <= 0 /\ Zpos ms <= 2 ^ (- es).
Proof.
  intros Hv H0 H1. destruct x as [s|s| |s m e].
  - left. now exists s.
  - destruct s; discriminate.
  - discriminate.
  - destruct s; [discriminate|]. right. exists m, e. split; [reflexivity|].
    cbn [valid_binary] in Hv. unfold bounded, canonical_mantissa in Hv.
    apply andb_true_iff in Hv. destruct Hv as [Hc _]. apply Z.eqb_eq in Hc.
    unfold fexp, SpecFloat.emin, prec, emax in Hc.
    assert (Hd : Zpos (digits2_pos m) <= 53) by lia.
    pose proof (digits2_value_bound m Hd) as Hm.
    change dbl_one with (S754_finite false (2 ^ 52)%positive (-52)) in H1.
    unfold dle, SFleb in H1. cbn [SFcompare] in H1.
    destruct (Z.compare_spec e (-52)) as [->|Hlt|Hgt]; [| |discriminate].
    + split; [lia|].
      pose proof (Pos.compare_spec m (2 ^ 52)%positive) as Hcmp.
      unfold Pos.compare in Hcmp.
      destruct Hcmp as [->|Hlt|Hgt]; [| |discriminate].
      * change (- -52) with 52. change (Zpos (2 ^ 52)) with (2 ^ 52). lia.
      * apply Pos2Z.pos_lt_pos in Hlt. change (- -52) with 52.
        change (Zpos (2 ^ 52)) with (2 ^ 52) in Hlt. lia.
    + split; [lia|].
      assert (2 ^ 53 <= 2 ^ (- e)) by (apply Z.pow_le_mono_r; lia). lia.
Qed.

Lemma int_of_dtrunc (x : double) (m : Z) :
  dtrunc x = Some m -> INT_MIN <= m <= INT_MAX -> int_of_double x = Done m.
Proof.
  intros Hx Hm. unfold int_of_double. rewrite Hx.
  replace ((INT_MIN <=? m) && (m <=? INT_MAX)) with true; [reflexivity|].
  symmetry. apply andb_true_iff. split; apply Z.leb_le; lia.
Qed.

(** The loop body on a record with a well-formed name and a level between
    0 and 1: it returns, and the counts lie within the coverage. *)
Lemma load_record_in_range (rec : GenomicRegion) (acc : loaded) (c : Z) :
  well_formed_name (get_name rec) c -> level_in_range rec ->
  exists mu,
    counts_within rec mu c
    /\ load_record rec acc
       = Done (mkLoaded (ld_cpgs acc ++ [simple_of_region rec])
                        (ld_meth acc ++ [mu]) (ld_reads acc ++ [c])).
Proof.
  intros Hwf (Hv & H0 & H1). rewrite (load_record_well_formed rec acc c Hwf).
  pose proof Hwf as (pre & ds & _ & _ & _ & Hval & Hmax & _).
  pose proof (digits_value_nonneg ds 0 ltac:(lia)) as Hnonneg.
  rewrite Hval in Hnonneg.
  assert (Hc : 0 <= c < 2 ^ 53) by (unfold INT_MAX in Hmax; lia).
  assert (Hm : exists m,
             dtrunc (dmul (get_score rec) (double_of_Z c)) = Some m
             /\ 0 <= m <= c).
  { destruct (level_cases _ Hv H0 H1) as [[s ->]|(ms & es & -> & Hes & Hms)].
    - exists 0. split; [|lia]. destruct c as [|p|p]; [reflexivity | | lia].
      now rewrite (double_of_Z_canonical false p) by lia.
    - now apply dmul_level_coverage. }
  destruct Hm as (m & Hm & Hrange).
  exists (double_of_Z m, double_of_Z (c - m)). split.
  - split; [exact Hwf|]. now exists m.
  - rewrite (int_of_dtrunc _ m Hm) by (unfold INT_MIN; lia). cbn [obind].
    rewrite int_of_dsub by lia. reflexivity.
Qed.

Lemma load_records_in_range (recs : list GenomicRegion) (acc : loaded) :
  Forall (fun rec => (exists c, well_formed_name (get_name rec) c)
                     /\ level_in_range rec) recs ->
  exists meth reads,
    Forall3 counts_within recs meth reads
    /\ load_records recs acc
       = Done (mkLoaded (ld_cpgs acc ++ map simple_of_region recs)
                        (ld_meth acc ++ meth) (ld_reads acc ++ reads)).
Proof.
  revert acc. induction recs as [|rec recs IH]; intros acc Hall.
  - exists [], []. split; [constructor|]. destruct acc. simpl.
    now rewrite !app_nil_r.
  - apply Forall_cons in Hall. destruct Hall as [[[c Hc] Hlevel] Hall].
    destruct (load_record_in_range rec acc c Hc Hlevel) as (mu & Hmu & Hrun).
    destruct (IH (mkLoaded (ld_cpgs acc ++ [simple_of_region rec])
                           (ld_meth acc ++ [mu]) (ld_reads acc ++ [c])) Hall)
      as (meth & reads & Hrest & Hruns).
    exists (mu :: meth), (c :: reads). split; [now constructor|].
    cbn [load_records]. rewrite Hrun. cbn [obind]. rewrite Hruns.
    cbn [ld_cpgs ld_meth ld_reads map]. now rewrite <- !app_assoc.
Qed.

(** X15.  On sorted input in which every record has a well-formed name
    and a level that is a double between 0 and 1, [load_cpgs] returns:
    no conversion fails.  For every record it stores the coverage read
    from the name, a methylated count that is a whole number between 0 and
    the coverage, and the coverage minus that count as unmethylated
    count. *)
Theorem load_cpgs_counts_within_coverage (check_sorted : list GenomicRegion -> bool)
    (cpgs_file : string) (cpgs_in : list GenomicRegion)
    (cpgs : list SimpleGenomicRegion) (meth : list (double * double))
    (reads : list size_t) :
  check_sorted cpgs_in = true ->
  Forall (fun rec => (exists c, well_formed_name (get_name rec) c)
                     /\ level_in_range rec) cpgs_in ->
  exists meth' reads',
    load_cpgs check_sorted cpgs_file cpgs_in cpgs meth reads
    = Done (mkLoaded (cpgs ++ map simple_of_region cpgs_in)
                     (meth ++ meth') (reads ++ reads'))
    /\ Forall3 counts_within cpgs_in meth' reads'.
Proof.
  intros Hsorted Hall. unfold load_cpgs. rewrite Hsorted. cbn [negb].
  destruct (load_records_in_range cpgs_in (mkLoaded cpgs meth reads) Hall)
    as (meth' & reads' & Hcounts & Hrun).
  exists meth', reads'. split; [exact Hrun | exact Hcounts].
Qed.

Lemma load_cpgs_counts_within_coverage_witness :
  ((fun _ : list GenomicRegion => true) [sample_record; record_29_of_100] = true
   /\ Forall (fun rec => (exists c, well_formed_name (get_name rec) c)
                         /\ level_in_range rec)
             [sample_record; record_29_of_100])
  /\ exists meth' reads',
       load_cpgs (fun _ => true) "cpgs.bed" [sample_record; record_29_of_100]
         [] [] []
       = Done (mkLoaded ([] ++ map simple_of_region [sample_record; record_29_of_100])
                        ([] ++ meth') ([] ++ reads'))
       /\ Forall3 counts_within [sample_record; record_29_of_100] meth' reads'.
Proof.
  assert (H1 : (fun _ : list GenomicRegion => true)
                 [sample_record; record_29_of_100] = true) by reflexivity.
  assert (H2 : Forall (fun rec => (exists c, well_formed_name (get_name rec) c)
                                  /\ level_in_range rec)
                      [sample_record; record_29_of_100]).
  { constructor; [|constructor; [|constructor]].
    - split; [exists 10; exact sample_record_name|]. repeat split.
    - split; [|repeat split].
      exists 100, "CpG"%string, "100"%string. repeat split; discriminate. }
  split; [exact (conj H1 H2)|].
  exact (load_cpgs_counts_within_coverage (fun _ => true) "cpgs.bed"
           [sample_record; record_29_of_100] [] [] [] H1 H2).
Defined.

(** ** shuffle_cpg_sites: further properties *)

(** X16.  [shuffle_cpg_sites] shuffles the ranges between two consecutive
    reset points only: no range ends the last chain, and every entry of
    the count vector from the last reset point on stays at its place. *)
Theorem shuffle_cpg_sites_last_chain_fixed (rng : Type) (rand : rng -> nat * rng)
    {A : Type} (reset_points : list nat) (v : list A) (g : rng) :
  reset_points <> [] ->
  is_size_t (Z.of_nat (length reset_points)) ->
  StronglySorted lt reset_points ->
  Forall (fun r => (r <= length v)%nat) reset_points ->
  exists g' v',
    shuffle_cpg_sites rng rand reset_points (g, v) = Done (g', v')
    /\ length v' = length v
    /\ forall lo, last reset_points = Some lo ->
                  drop lo v' = drop lo v
                  /\ forall i, (lo <= i)%nat -> v' !! i = v !! i.
Proof.
  intros Hne Hsize Hsorted Hbound.
  destruct (shuffle_cpg_sites_spec rng rand reset_points v Hsorted Hbound g
              Hne Hsize) as ([g' v'] & Hrun & L & _ & Hdrop & _).
  exists g', v'. split; [exact Hrun|]. split; [exact L|].
  intros lo Hlast. rewrite last_lookup, <- Nat.sub_1_r in Hlast.
  cbn [snd] in Hdrop. pose proof (Hdrop lo Hlast) as Hd.
  split; [exact Hd|]. intros i Hi.
  replace i with (lo + (i - lo))%nat by lia.
  now rewrite <- !lookup_drop, Hd.
Qed.

Lemma shuffle_cpg_sites_last_chain_fixed_witness :
  ([0%nat; 1%nat] <> []
   /\ is_size_t (Z.of_nat (length [0%nat; 1%nat]))
   /\ StronglySorted lt [0%nat; 1%nat]
   /\ Forall (fun r => (r <= length [5%nat; 6%nat; 7%nat; 8%nat])%nat)
             [0%nat; 1%nat])
  /\ exists g' v',
       shuffle_cpg_sites nat lcg_rand [0%nat; 1%nat]
         (1%nat, [5%nat; 6%nat; 7%nat; 8%nat]) = Done (g', v')
       /\ length v' = length [5%nat; 6%nat; 7%nat; 8%nat]
       /\ forall lo, last [0%nat; 1%nat] = Some lo ->
                     drop lo v' = drop lo [5%nat; 6%nat; 7%nat; 8%nat]
                     /\ forall i, (lo <= i)%nat ->
                                  v' !! i = [5%nat; 6%nat; 7%nat; 8%nat] !! i.
Proof.
  assert (H1 : [0%nat; 1%nat] <> []) by discriminate.
  assert (H2 : is_size_t (Z.of_nat (length [0%nat; 1%nat])))
    by (split; discriminate).
  assert (H3 : StronglySorted lt [0%nat; 1%nat]) by (repeat constructor).
  assert (H4 : Forall (fun r => (r <= length [5%nat; 6%nat; 7%nat; 8%nat])%nat)
                      [0%nat; 1%nat])
    by (simpl; repeat constructor; lia).
  split; [exact (conj H1 (conj H2 (conj H3 H4)))|].
  exact (shuffle_cpg_sites_last_chain_fixed nat lcg_rand [0%nat; 1%nat]
           [5%nat; 6%nat; 7%nat; 8%nat] 1%nat H1 H2 H3 H4).
Defined.

(** ** The order of doubles *)

Section DoubleOrder.

Ltac key_cases :=
  first [ split; [intros _; lia | reflexivity]
        | split; [discriminate | intros; lia] ].

Lemma dlt_key_iff (x y : double) :
  is_number x -> is_number y -> (dlt x y = true <-> key_lt x y).
Proof.
  unfold is_number, dlt, SFltb, key_lt. intros Hx Hy.
  destruct x as [[]|[]| |[] mx ex], y as [[]|[]| |[] my ey]; try congruence;
    simpl; try key_cases.
  - pose proof (Pos.compare_spec mx my) as Hc. unfold Pos.compare in Hc.
    destruct (Z.compare_spec ex ey); [destruct Hc| |]; simpl;
      split; intros; try discriminate; try reflexivity; lia.
  - pose proof (Pos.compare_spec mx my) as Hc. unfold Pos.compare in Hc.
    destruct (Z.compare_spec ex ey); [destruct Hc| |]; simpl;
      split; intros; try discriminate; try reflexivity; lia.
Qed.

Lemma dle_key_iff (x y : double) :
  is_number x -> is_number y ->
  (dle x y = true <-> key_lt x y \/ key_eq x y).
Proof.
  unfold is_number, dle, SFleb, key_lt, key_eq. intros Hx Hy.
  destruct x as [[]|[]| |[] mx ex], y as [[]|[]| |[] my ey]; try congruence;
    simpl; try key_cases.
  - pose proof (Pos.compare_spec mx my) as Hc. unfold Pos.compare in Hc.
    destruct (Z.compare_spec ex ey); [destruct Hc| |]; simpl;
      split; intros; try discriminate; try reflexivity; lia.
  - pose proof (Pos.compare_spec mx my) as Hc. unfold Pos.compare in Hc.
    destruct (Z.compare_spec ex ey); [destruct Hc| |]; simpl;
      split; intros; try discriminate; try reflexivity; lia.
Qed.

Lemma dlt_irrefl (x : double) : dlt x x = false.
Proof.
  destruct x as [s|s| |s m e]; try reflexivity; try (now destruct s).
  unfold dlt, SFltb. simpl.
  rewrite Z.compare_refl, Pos.compare_cont_refl. now destruct s.
Qed.

(** [x < y] excludes [y <= x]. *)
Lemma dlt_not_dle (x y : double) :
  is_number x -> is_number y -> dlt x y = true -> dle y x = false.
Proof.
  intros Hx Hy H. apply (dlt_key_iff x y Hx Hy) in H.
  destruct (dle y x) eqn:E; [|reflexivity].
  apply (dle_key_iff y x Hy Hx) in E. unfold key_lt, key_eq in *. lia.
Qed.

(** Two numbers are comparable. *)
Lemma not_dlt_dle (x y : double) :
  is_number x -> is_number y -> dlt x y = false -> dle y x = true.
Proof.
  intros Hx Hy H. apply (dle_key_iff y x Hy Hx).
  assert (Hn : ~ key_lt x y).
  { intros Hk. apply (dlt_key_iff x y Hx Hy) in Hk. congruence. }
  unfold key_lt, key_eq in *. lia.
Qed.

Lemma dlt_dle (x y : double) :
  is_number x -> is_number y -> dlt x y = true -> dle x y = true.
Proof.
  intros Hx Hy H. apply (dle_key_iff x y Hx Hy). left.
  now apply (dlt_key_iff x y Hx Hy).
Qed.

Lemma dle_trans (x y z : double) :
  is_number x -> is_number y -> is_number z ->
  dle x y = true -> dle y z = true -> dle x z = true.
Proof.
  intros Hx Hy Hz H1 H2.
  apply (dle_key_iff x y Hx Hy) in H1. apply (dle_key_iff y z Hy Hz) in H2.
  apply (dle_key_iff x z Hx Hz). unfold key_lt, key_eq in *. lia.
Qed.

Lemma dle_dlt_trans (x y z : double) :
  is_number x -> is_number y -> is_number z ->
  dle x y = true -> dlt y z = true -> dlt x z = true.
Proof.
  intros Hx Hy Hz H1 H2.
  apply (dle_key_iff x y Hx Hy) in H1. apply (dlt_key_iff y z Hy Hz) in H2.
  apply (dlt_key_iff x z Hx Hz). unfold key_lt, key_eq in *. lia.
Qed.
End DoubleOrder.

Lemma strongly_sorted_lookup {A : Type} (R : A -> A -> Prop) (l : list A)
    (i j : nat) (a b : A) :
  StronglySorted R l -> l !! i = Some a -> l !! j = Some b -> (i < j)%nat ->
  R a b.
Proof.
  intros H. revert i j.
  induction H as [|x l Hs IH Hall]; intros i j Hi Hj Hlt.
  - now rewrite lookup_nil in Hi.
  - destruct j as [|j]; [lia|]. destruct i as [|i]; simpl in *.
    + injection Hi as <-. exact (Forall_lookup_1 _ _ _ _ Hall Hj).
    + apply (IH i j); [assumption | assumption | lia].
Qed.

Lemma sort_insert_sorted (x : double) (l : list double) :
  is_number x -> Forall is_number l ->
  StronglySorted dle_rel l -> StronglySorted dle_rel (sort_insert x l).
Proof.
  intros Hx Hl Hs. induction Hs as [|y l Hs IH Hall]; simpl.
  - repeat constructor.
  - apply Forall_cons in Hl. destruct Hl as [Hy Hl].
    destruct (dlt x y) eqn:E.
    + constructor; [now constructor|]. constructor.
      * now apply dlt_dle.
      * rewrite List.Forall_forall in Hall, Hl |- *. intros z Hz.
        apply (dle_trans x y z); auto; [now apply dlt_dle | now apply Hall].
    + constructor; [now apply IH|].
      rewrite List.Forall_forall in Hall |- *. intros z Hz.
      apply (Permutation_in z (sort_insert_perm x l)) in Hz.
      destruct Hz as [<-|Hz]; [now apply not_dlt_dle | now apply Hall].
Qed.

Lemma std_sort_numbers (l : list double) :
  Forall is_number l -> Forall is_number (std_sort l).
Proof.
  intros H. rewrite List.Forall_forall in H |- *. intros x Hx. apply H.
  exact (Permutation_in x (std_sort_perm l) Hx).
Qed.

(** On numbers, [std::sort] leaves the vector in ascending order. *)
Lemma std_sort_sorted (l : list double) :
  Forall is_number l -> StronglySorted dle_rel (std_sort l).
Proof.
  induction l as [|x l IH]; intros H; simpl; [constructor|].
  apply Forall_cons in H. destruct H as [Hx Hl].
  apply sort_insert_sorted; [exact Hx | now apply std_sort_numbers | now apply IH].
Qed.

Lemma filter_length_perm {A : Type} (f : A -> bool) (l l' : list A) :
  l ≡ₚ l' -> length (List.filter f l) = length (List.filter f l').
Proof.
  induction 1 as [|x l l' _ IH|x y l|l l' l'' _ IH1 _ IH2]; simpl.
  - reflexivity.
  - destruct (f x); simpl; now rewrite IH.
  - destruct (f x), (f y); reflexivity.
  - congruence.
Qed.

Lemma filter_length_map {A B : Type} (g : A -> B) (f : B -> bool) (l : list A) :
  length (List.filter f (map g l)) = length (List.filter (fun a => f (g a)) l).
Proof.
  induction l as [|a l IH]; simpl; [reflexivity|].
  destruct (f (g a)); simpl; now rewrite IH.
Qed.

Lemma filter_none {A : Type} (f : A -> bool) (l : list A) :
  (forall x, In x l -> f x = false) -> List.filter f l = [].
Proof.
  induction l as [|a l IH]; intros H; simpl; [reflexivity|].
  rewrite (H a) by now left. apply IH. intros x Hx. apply H. now right.
Qed.

Lemma filter_length_le {A : Type} (f : A -> bool) (l : list A) :
  (length (List.filter f l) <= length l)%nat.
Proof.
  induction l as [|a l IH]; simpl; [lia|]. destruct (f a); simpl; lia.
Qed.

Lemma dle_refl (x : double) : is_number x -> dle x x = true.
Proof. intros Hx. apply not_dlt_dle; auto. apply dlt_irrefl. Qed.

Lemma scores_numbers (domains : list GenomicRegion) :
  Forall (fun d => is_number (get_score d)) domains ->
  Forall is_number (std_sort (map get_score domains)).
Proof.
  intros Hnum. apply std_sort_numbers.
  rewrite List.Forall_forall in Hnum |- *. intros x Hx.
  apply List.in_map_iff in Hx. destruct Hx as (d & <- & Hd). now apply Hnum.
Qed.

Lemma sorted_lookup_dle (l : list double) (a b : nat) (x y : double) :
  Forall is_number l -> StronglySorted dle_rel l ->
  l !! a = Some x -> l !! b = Some y -> (a <= b)%nat -> dle x y = true.
Proof.
  intros Hnum Hs Ha Hb Hab. destruct (Nat.eq_dec a b) as [->|Hne].
  - assert (x = y) by congruence. subst y. apply dle_refl.
    exact (Forall_lookup_1 _ _ _ _ Hnum Ha).
  - apply (strongly_sorted_lookup dle_rel l a b); auto. lia.
Qed.

(** ** get_posterior_cutoff: further properties *)

Lemma dmul_zero_l (x : double) :
  dmul (double_of_Z 0) x = S754_nan
  \/ exists s, dmul (double_of_Z 0) x = S754_zero s.
Proof.
  destruct x as [s|s| |s m e]; [right | left | left | right];
    try reflexivity; eexists; reflexivity.
Qed.

(** X17.  When there is no null domain and the threshold passes the two
    tests on [fdr], the vector of scores is empty and the cutoff is read
    from it: [scores[index]] is outside the vector, or the index is not a
    number. *)
Theorem get_posterior_cutoff_empty_null (fdr : double) :
  dle fdr dbl_zero = false -> dgt fdr dbl_one = false ->
  get_posterior_cutoff [] fdr = Undefined.
Proof.
  intros H0 H1. unfold get_posterior_cutoff. rewrite H0, H1.
  unfold quantile_index.
  change (Z.of_nat (length (@nil GenomicRegion))) with 0.
  destruct (dmul_zero_l (dsub dbl_one fdr)) as [->|[s ->]]; reflexivity.
Qed.

Lemma get_posterior_cutoff_empty_null_witness :
  (dle fdr_half dbl_zero = false /\ dgt fdr_half dbl_one = false)
  /\ get_posterior_cutoff [] fdr_half = Undefined.
Proof.
  assert (H1 : dle fdr_half dbl_zero = false) by reflexivity.
  assert (H2 : dgt fdr_half dbl_one = false) by reflexivity.
  split; [exact (conj H1 H2)|].
  exact (get_posterior_cutoff_empty_null fdr_half H1 H2).
Defined.

(** X18.  A threshold that is not a number passes both tests on [fdr],
    since every comparison with it is false, and reaches the quantile
    branch, where the index [size * (1 - fdr)] is not a number either and
    its conversion to [size_t] is undefined. *)
Theorem get_posterior_cutoff_nan (domains : list GenomicRegion) :
  dle S754_nan dbl_zero = false
  /\ dgt S754_nan dbl_one = false
  /\ get_posterior_cutoff domains S754_nan = Undefined.
Proof.
  split; [reflexivity|]. split; [reflexivity|].
  unfold get_posterior_cutoff.
  change (dle S754_nan dbl_zero) with false.
  change (dgt S754_nan dbl_one) with false. cbn iota.
  unfold quantile_index. change (dsub dbl_one S754_nan) with S754_nan.
  assert (Hnan : dmul (double_of_Z (Z.of_nat (length domains))) S754_nan = S754_nan).
  { unfold dmul. now destruct (double_of_Z (Z.of_nat (length domains))). }
  now rewrite Hnan.
Qed.

(** X19.  A threshold so small that [1 - fdr] is rounded to 1 passes
    the two tests on [fdr], and for every null set that is not empty the
    index is then the size of the vector: [scores[index]] is read past its
    end. *)
Theorem get_posterior_cutoff_small_fdr (domains : list GenomicRegion)
    (fdr : double) :
  dle fdr dbl_zero = false -> dgt fdr dbl_one = false ->
  dsub dbl_one fdr = dbl_one ->
  domains <> [] -> Z.of_nat (length domains) < 2 ^ 53 ->
  quantile_index (length domains) fdr = Done (Z.of_nat (length domains))
  /\ get_posterior_cutoff domains fdr = Undefined.
Proof.
  intros H0 H1 Hone Hne Hlen.
  assert (Hq : quantile_index (length domains) fdr
               = Done (Z.of_nat (length domains))).
  { unfold quantile_index. rewrite Hone.
    destruct (Z.of_nat (length domains)) as [|c|c] eqn:E.
    - destruct domains; [congruence | discriminate].
    - rewrite dmul_one_exact by lia.
      rewrite (double_of_Z_canonical false c) by lia.
      unfold size_t_of_double.
      rewrite dtrunc_canonical by (apply digits2_bound; lia).
      replace ((0 <=? Zpos c) && (Zpos c <=? SIZE_MAX)) with true; [reflexivity|].
      symmetry. apply andb_true_iff. unfold SIZE_MAX.
      split; apply Z.leb_le; lia.
    - lia. }
  split; [exact Hq|].
  unfold get_posterior_cutoff. rewrite H0, H1, Hq. cbn [obind].
  rewrite Nat2Z.id, Nat.sub_diag. cbn [first_greater obind].
  apply at_undefined. rewrite std_sort_length, length_map. lia.
Qed.

Lemma get_posterior_cutoff_small_fdr_witness :
  (dle fdr_tiny dbl_zero = false
   /\ dgt fdr_tiny dbl_one = false
   /\ dsub dbl_one fdr_tiny = dbl_one
   /\ [sample_domain; unclosed_domain] <> []
   /\ Z.of_nat (length [sample_domain; unclosed_domain]) < 2 ^ 53)
  /\ quantile_index (length [sample_domain; unclosed_domain]) fdr_tiny
     = Done (Z.of_nat (length [sample_domain; unclosed_domain]))
  /\ get_posterior_cutoff [sample_domain; unclosed_domain] fdr_tiny = Undefined.
Proof.
  assert (H1 : dle fdr_tiny dbl_zero = false) by reflexivity.
  assert (H2 : dgt fdr_tiny dbl_one = false) by reflexivity.
  assert (H3 : dsub dbl_one fdr_tiny = dbl_one) by reflexivity.
  assert (H4 : [sample_domain; unclosed_domain] <> []) by discriminate.
  assert (H5 : Z.of_nat (length [sample_domain; unclosed_domain]) < 2 ^ 53)
    by reflexivity.
  split; [exact (conj H1 (conj H2 (conj H3 (conj H4 H5))))|].
  exact (get_posterior_cutoff_small_fdr [sample_domain; unclosed_domain] fdr_tiny
           H1 H2 H3 H4 H5).
Defined.







Lemma In_map_get_score (domains : list GenomicRegion) (d : GenomicRegion) :
  In d domains -> In (get_score d) (map get_score domains).
Proof. intros H. apply List.in_map_iff. now exists d. Qed.

(** The quantile branch on null scores that are numbers, for an index
    inside the vector: the position [j] the walk of lines 196-201 stops
    at, and the scores it has passed. *)
Lemma quantile_branch_spec (domains_false : list GenomicRegion)
    (fdr : double) (index : size_t) :
  Forall (fun d => is_number (get_score d)) domains_false ->
  dle fdr dbl_zero = false -> dgt fdr dbl_one = false ->
  quantile_index (length domains_false) fdr = Done index ->
  (Z.to_nat index < length domains_false)%nat ->
  exists q j c,
    std_sort (map get_score domains_false) !! Z.to_nat index = Some q
    /\ std_sort (map get_score domains_false) !! j = Some c
    /\ get_posterior_cutoff domains_false fdr = Done c
    /\ ((j = Z.to_nat index /\ c = q
         /\ forall m s, (Z.to_nat index <= m)%nat ->
                        std_sort (map get_score domains_false) !! m = Some s ->
                        dle s q = true)
        \/ ((Z.to_nat index < j)%nat /\ dlt q c = true
            /\ forall m s, (Z.to_nat index <= m < j)%nat ->
                           std_sort (map get_score domains_false) !! m = Some s ->
                           dle s q = true)).
Proof.
  intros Hnum H0 H1 Hq Hlt. unfold get_posterior_cutoff. rewrite H0, H1, Hq.
  cbn [obind].
  set (scores := std_sort (map get_score domains_false)).
  set (idx := Z.to_nat index) in *.
  assert (Hlen : length scores = length domains_false)
    by (unfold scores; now rewrite std_sort_length, length_map).
  pose proof (scores_numbers _ Hnum) as Hnums. fold scores in Hnums.
  destruct (lookup_lt_is_Some_2 scores idx ltac:(lia)) as [q Hq'].
  pose proof (Forall_lookup_1 _ _ _ _ Hnums Hq') as Nq.
  destruct (first_greater_spec scores idx q Hq' (length domains_false - idx) idx
              ltac:(lia) ltac:(lia)) as (j & Hj & Hcase).
  rewrite Hj. cbn [obind]. exists q, j.
  destruct Hcase as [[-> Hnone]|(Hij & (s & Hs & Hgt) & Hbefore)].
  - exists q. rewrite (proj2 (at_done _ _ q) Hq').
    split; [exact Hq'|]. split; [exact Hq'|]. split; [reflexivity|]. left.
    split; [reflexivity|]. split; [reflexivity|]. intros m s Hm Hs.
    apply not_dlt_dle; auto; [exact (Forall_lookup_1 _ _ _ _ Hnums Hs)|].
    exact (Hnone m s Hm Hs).
  - exists s. rewrite (proj2 (at_done _ _ s) Hs).
    split; [exact Hq'|]. split; [exact Hs|]. split; [reflexivity|]. right.
    assert (Hne : j <> idx).
    { intros ->. assert (s = q) by congruence. subst s.
      unfold dgt in Hgt. fold (dlt q q) in Hgt. rewrite dlt_irrefl in Hgt.
      discriminate. }
    split; [lia|]. split; [exact Hgt|]. intros m s' Hm Hs'.
    apply not_dlt_dle; auto; [exact (Forall_lookup_1 _ _ _ _ Hnums Hs')|].
    exact (Hbefore m s' Hm Hs').
Qed.

(** X21.  The quantile branch on null scores that are numbers, when the
    index falls inside the vector: the cutoff is a null score, and either
    fewer than [size - index] null domains reach it, or no later score was
    greater than the one at the index and the cutoff is the largest null
    score. *)
Theorem get_posterior_cutoff_stringent (domains_false : list GenomicRegion)
    (fdr : double) (index : size_t) :
  Forall (fun d => is_number (get_score d)) domains_false ->
  dle fdr dbl_zero = false -> dgt fdr dbl_one = false ->
  quantile_index (length domains_false) fdr = Done index ->
  (Z.to_nat index < length domains_false)%nat ->
  exists c,
    get_posterior_cutoff domains_false fdr = Done c
    /\ In c (map get_score domains_false)
    /\ ((n_admitted c domains_false + Z.to_nat index < length domains_false)%nat
        \/ forall d, In d domains_false -> dle (get_score d) c = true).
Proof.
  intros Hnum H0 H1 Hq Hlt.
  destruct (quantile_branch_spec domains_false fdr index Hnum H0 H1 Hq Hlt)
    as (q & j & c & Hq' & Hc & Hrun & Hcase).
  set (scores := std_sort (map get_score domains_false)) in *.
  set (idx := Z.to_nat index) in *.
  assert (Hperm : scores ≡ₚ map get_score domains_false)
    by apply std_sort_perm.
  pose proof (scores_numbers _ Hnum) as Hnums. fold scores in Hnums.
  assert (Hsorted : StronglySorted dle_rel scores).
  { apply std_sort_sorted. rewrite List.Forall_forall in Hnum |- *. intros x Hx.
    apply List.in_map_iff in Hx. destruct Hx as (d & <- & Hd). now apply Hnum. }
  pose proof (Forall_lookup_1 _ _ _ _ Hnums Hq') as Nq.
  pose proof (Forall_lookup_1 _ _ _ _ Hnums Hc) as Nc.
  exists c. split; [exact Hrun|].
  split; [exact (Permutation_in c Hperm (lookup_In _ _ _ Hc))|].
  destruct Hcase as [(-> & -> & Hnone)|(Hij & Hgt & Hbefore)].
  - right. intros d Hd. apply In_map_get_score in Hd.
    apply (Permutation_in _ (Permutation_sym Hperm)) in Hd.
    destruct (In_lookup _ _ Hd) as [m Hm].
    destruct (Nat.lt_ge_cases m idx) as [Hmi|Hmi].
    + apply (sorted_lookup_dle scores m idx); auto. lia.
    + now apply (Hnone m).
  - left.
    assert (Hj' : (j < length scores)%nat) by (apply lookup_lt_Some in Hc; exact Hc).
    assert (Hlen : length scores = length domains_false)
      by (unfold scores; now rewrite std_sort_length, length_map).
    unfold n_admitted.
    change (List.filter (admitted c) domains_false)
      with (List.filter (fun d => dge (get_score d) c) domains_false).
    rewrite <- (filter_length_map get_score (fun x => dge x c)).
    rewrite <- (filter_length_perm _ _ _ Hperm).
    rewrite <- (take_drop j scores), List.filter_app, length_app.
    rewrite (filter_none _ (take j scores)).
    + pose proof (filter_length_le (fun x => dge x c) (drop j scores)) as Hle.
      rewrite length_drop in Hle. simpl. lia.
    + intros x Hx. destruct (In_lookup _ _ Hx) as [m Hm].
      apply lookup_take_Some in Hm. destruct Hm as [Hm Hmj].
      pose proof (Forall_lookup_1 _ _ _ _ Hnums Hm) as Nx.
      assert (Hxq : dle x q = true).
      { destruct (Nat.lt_ge_cases m idx) as [Hmi|Hmi].
        - apply (sorted_lookup_dle scores m idx); auto. lia.
        - apply (Hbefore m); [lia | exact Hm]. }
      unfold dge. apply dlt_not_dle; auto.
      apply (dle_dlt_trans x q c); auto.
Qed.

Lemma get_posterior_cutoff_stringent_witness :
  (Forall (fun d => is_number (get_score d))
          (map scored [double_of_Z 5; double_of_Z 2; double_of_Z 9; double_of_Z 2])
   /\ dle fdr_half dbl_zero = false
   /\ dgt fdr_half dbl_one = false
   /\ quantile_index
        (length (map scored [double_of_Z 5; double_of_Z 2; double_of_Z 9;
                             double_of_Z 2])) fdr_half = Done 2
   /\ (Z.to_nat 2
       < length (map scored [double_of_Z 5; double_of_Z 2; double_of_Z 9;
                             double_of_Z 2]))%nat)
  /\ exists c,
       get_posterior_cutoff
         (map scored [double_of_Z 5; double_of_Z 2; double_of_Z 9; double_of_Z 2])
         fdr_half = Done c
       /\ In c (map get_score
                  (map scored [double_of_Z 5; double_of_Z 2; double_of_Z 9;
                               double_of_Z 2]))
       /\ ((n_admitted c
              (map scored [double_of_Z 5; double_of_Z 2; double_of_Z 9;
                           double_of_Z 2])
            + Z.to_nat 2
            < length (map scored [double_of_Z 5; double_of_Z 2; double_of_Z 9;
                                  double_of_Z 2]))%nat
           \/ forall d,
                In d (map scored [double_of_Z 5; double_of_Z 2; double_of_Z 9;
                                  double_of_Z 2]) ->
                dle (get_score d) c = true).
Proof.
  assert (H1 : Forall (fun d => is_number (get_score d))
                 (map scored [double_of_Z 5; double_of_Z 2; double_of_Z 9;
                              double_of_Z 2]))
    by (repeat constructor; discriminate).
  assert (H2 : dle fdr_half dbl_zero = false) by reflexivity.
  assert (H3 : dgt fdr_half dbl_one = false) by reflexivity.
  assert (H4 : quantile_index
                 (length (map scored [double_of_Z 5; double_of_Z 2; double_of_Z 9;
                                      double_of_Z 2])) fdr_half = Done 2)
    by reflexivity.
  assert (H5 : (Z.to_nat 2
                < length (map scored [double_of_Z 5; double_of_Z 2; double_of_Z 9;
                                      double_of_Z 2]))%nat)
    by (simpl; lia).
  split; [exact (conj H1 (conj H2 (conj H3 (conj H4 H5))))|].
  exact (get_posterior_cutoff_stringent _ fdr_half 2 H1 H2 H3 H4 H5).
Defined.

(** When all null scores are equal, no score is greater than the one at
    the index: the cutoff is that score and every null domain reaches
    it. *)
Example get_posterior_cutoff_ties :
  get_posterior_cutoff (map scored [double_of_Z 3; double_of_Z 3; double_of_Z 3;
                                    double_of_Z 3]) fdr_half
  = Done (double_of_Z 3)
  /\ n_admitted (double_of_Z 3)
       (map scored [double_of_Z 3; double_of_Z 3; double_of_Z 3; double_of_Z 3])
     = 4%nat.
Proof. split; reflexivity. Qed.

(** X22.  Within the quantile branch the cutoff grows with the index: of
    two thresholds whose indexes fall inside the vector, the one with the
    smaller index has the smaller or the same cutoff (null scores being
    numbers). *)
Theorem get_posterior_cutoff_monotone (domains_false : list GenomicRegion)
    (fdr1 fdr2 : double) (i1 i2 : size_t) :
  Forall (fun d => is_number (get_score d)) domains_false ->
  dle fdr1 dbl_zero = false -> dgt fdr1 dbl_one = false ->
  dle fdr2 dbl_zero = false -> dgt fdr2 dbl_one = false ->
  quantile_index (length domains_false) fdr1 = Done i1 ->
  quantile_index (length domains_false) fdr2 = Done i2 ->
  (Z.to_nat i1 <= Z.to_nat i2 < length domains_false)%nat ->
  exists c1 c2,
    get_posterior_cutoff domains_false fdr1 = Done c1
    /\ get_posterior_cutoff domains_false fdr2 = Done c2
    /\ dle c1 c2 = true.
Proof.
  intros Hnum A0 A1 B0 B1 Hq1 Hq2 Hi.
  destruct (quantile_branch_spec domains_false fdr1 i1 Hnum A0 A1 Hq1 ltac:(lia))
    as (q1 & j1 & c1 & Hq1' & Hc1 & Hrun1 & Hcase1).
  destruct (quantile_branch_spec domains_false fdr2 i2 Hnum B0 B1 Hq2 ltac:(lia))
    as (q2 & j2 & c2 & Hq2' & Hc2 & Hrun2 & Hcase2).
  set (scores := std_sort (map get_score domains_false)) in *.
  pose proof (scores_numbers _ Hnum) as Hnums. fold scores in Hnums.
  assert (Hsorted : StronglySorted dle_rel scores).
  { apply std_sort_sorted. rewrite List.Forall_forall in Hnum |- *. intros x Hx.
    apply List.in_map_iff in Hx. destruct Hx as (d & <- & Hd). now apply Hnum. }
  pose proof (Forall_lookup_1 _ _ _ _ Hnums Hq1') as Nq1.
  pose proof (Forall_lookup_1 _ _ _ _ Hnums Hq2') as Nq2.
  pose proof (Forall_lookup_1 _ _ _ _ Hnums Hc1) as Nc1.
  pose proof (Forall_lookup_1 _ _ _ _ Hnums Hc2) as Nc2.
  exists c1, c2. split; [exact Hrun1|]. split; [exact Hrun2|].
  destruct (Nat.le_gt_cases j1 j2) as [Hj|Hj].
  { apply (sorted_lookup_dle scores j1 j2); auto. }
  destruct Hcase2 as [(-> & -> & Hnone2)|(Hij2 & Hgt2 & Hbefore2)].
  - apply (Hnone2 j1); [lia | exact Hc1].
  - exfalso.
    destruct Hcase1 as [(-> & _ & _)|(Hij1 & Hgt1 & Hbefore1)]; [lia|].
    assert (H1 : dle c2 q1 = true) by (apply (Hbefore1 j2); [lia | exact Hc2]).
    assert (H2 : dle q1 q2 = true)
      by (apply (sorted_lookup_dle scores (Z.to_nat i1) (Z.to_nat i2)); auto; lia).
    assert (H3 : dle c2 q2 = true) by (apply (dle_trans c2 q1 q2); auto).
    rewrite (dlt_not_dle q2 c2 Nq2 Nc2 Hgt2) in H3. discriminate.
Qed.

Lemma get_posterior_cutoff_monotone_witness :
  (Forall (fun d => is_number (get_score d))
          (map scored [double_of_Z 5; double_of_Z 2; double_of_Z 9; double_of_Z 2])
   /\ dle (dyadic 3 (-2)) dbl_zero = false
   /\ dgt (dyadic 3 (-2)) dbl_one = false
   /\ dle fdr_half dbl_zero = false
   /\ dgt fdr_half dbl_one = false
   /\ quantile_index
        (length (map scored [double_of_Z 5; double_of_Z 2; double_of_Z 9;
                             double_of_Z 2])) (dyadic 3 (-2)) = Done 1
   /\ quantile_index
        (length (map scored [double_of_Z 5; double_of_Z 2; double_of_Z 9;
                             double_of_Z 2])) fdr_half = Done 2
   /\ (Z.to_nat 1 <= Z.to_nat 2
       < length (map scored [double_of_Z 5; double_of_Z 2; double_of_Z 9;
                             double_of_Z 2]))%nat)
  /\ exists c1 c2,
       get_posterior_cutoff
         (map scored [double_of_Z 5; double_of_Z 2; double_of_Z 9; double_of_Z 2])
         (dyadic 3 (-2)) = Done c1
       /\ get_posterior_cutoff
            (map scored [double_of_Z 5; double_of_Z 2; double_of_Z 9; double_of_Z 2])
            fdr_half = Done c2
       /\ dle c1 c2 = true.
Proof.
  assert (H1 : Forall (fun d => is_number (get_score d))
                 (map scored [double_of_Z 5; double_of_Z 2; double_of_Z 9;
                              double_of_Z 2]))
    by (repeat constructor; discriminate).
  assert (H2 : dle (dyadic 3 (-2)) dbl_zero = false) by reflexivity.
  assert (H3 : dgt (dyadic 3 (-2)) dbl_one = false) by reflexivity.
  assert (H4 : dle fdr_half dbl_zero = false) by reflexivity.
  assert (H5 : dgt fdr_half dbl_one = false) by reflexivity.
  assert (H6 : quantile_index
                 (length (map scored [double_of_Z 5; double_of_Z 2; double_of_Z 9;
                                      double_of_Z 2])) (dyadic 3 (-2)) = Done 1)
    by reflexivity.
  assert (H7 : quantile_index
                 (length (map scored [double_of_Z 5; double_of_Z 2; double_of_Z 9;
                                      double_of_Z 2])) fdr_half = Done 2)
    by reflexivity.
  assert (H8 : (Z.to_nat 1 <= Z.to_nat 2
                < length (map scored [double_of_Z 5; double_of_Z 2; double_of_Z 9;
                                      double_of_Z 2]))%nat)
    by (simpl; lia).
  split; [exact (conj H1 (conj H2 (conj H3 (conj H4 (conj H5 (conj H6 (conj H7 H8)))))))|].
  exact (get_posterior_cutoff_monotone _ (dyadic 3 (-2)) fdr_half 1 2
           H1 H2 H3 H4 H5 H6 H7 H8).
Defined.

(** ** The filter of main *)

(** The loop at lines 382-384 returns the domains that pass the test, in
    their order. *)
Lemma filter_domains_spec (posterior_cutoff : double)
    (domains : list GenomicRegion) :
  filter_domains posterior_cutoff domains
  = Done (List.filter (admitted posterior_cutoff) domains).
Proof.
  unfold filter_domains.
  destruct (for_loop_total (filter_body posterior_cutoff domains)
              (fun i acc => acc = List.filter (admitted posterior_cutoff)
                                    (take i domains))
              0 (length domains) []) as (acc & Hrun & Hacc).
  - now rewrite take_0.
  - intros i acc Hi ->.
    destruct (lookup_lt_is_Some_2 domains i ltac:(lia)) as [d Hd].
    unfold filter_body. rewrite (proj2 (at_done _ _ d) Hd). cbn [obind].
    eexists. split; [reflexivity|].
    rewrite (take_S_r _ _ _ Hd), List.filter_app. cbn [List.filter].
    destruct (admitted posterior_cutoff d); [reflexivity | now rewrite app_nil_r].
  - rewrite Hrun, Hacc. cbn [Nat.add]. now rewrite take_ge by lia.
Qed.



Lemma dge_min_positive (x : double) :
  dge x DBL_MIN = true -> dgt x dbl_zero = true.
Proof.
  unfold dge, dgt, SFleb, SFltb, DBL_MIN, dbl_zero.
  destruct x as [s|s| |s m e]; simpl; try discriminate; now destruct s.
Qed.

(** X24.  Lines 374-384 of [main] for a threshold above 1: whatever the
    null domains are, the domains are filtered with
    [numeric_limits<double>::min()], and every domain that is kept has a
    score strictly above zero; a domain whose score is zero, negative or
    not a number is dropped. *)
Theorem filter_by_fdr_above_one (domains domains_false : list GenomicRegion)
    (fdr : double) :
  dgt fdr dbl_one = true ->
  filter_by_fdr domains domains_false fdr
  = Done (List.filter (admitted DBL_MIN) domains)
  /\ Forall (fun d => dgt (get_score d) dbl_zero = true)
            (List.filter (admitted DBL_MIN) domains).
Proof.
  intros H. split.
  - unfold filter_by_fdr. rewrite (get_posterior_cutoff_above_one _ _ H).
    cbn [obind]. apply filter_domains_spec.
  - apply List.Forall_forall. intros d Hd. apply List.filter_In in Hd.
    destruct Hd as [_ Hd]. now apply dge_min_positive.
Qed.

Lemma filter_by_fdr_above_one_witness :
  dgt fdr_three_halves dbl_one = true
  /\ filter_by_fdr [scored dbl_zero; scored dbl_one; scored (double_of_Z (-1))]
       [] fdr_three_halves
     = Done (List.filter (admitted DBL_MIN)
               [scored dbl_zero; scored dbl_one; scored (double_of_Z (-1))])
  /\ Forall (fun d => dgt (get_score d) dbl_zero = true)
            (List.filter (admitted DBL_MIN)
               [scored dbl_zero; scored dbl_one; scored (double_of_Z (-1))]).
Proof.
  assert (H : dgt fdr_three_halves dbl_one = true) by reflexivity.
  split; [exact H|].
  exact (filter_by_fdr_above_one
           [scored dbl_zero; scored dbl_one; scored (double_of_Z (-1))] []
           fdr_three_halves H).
Defined.

(** The only doubles at or above the largest finite double are that
    double and positive infinity. *)
Lemma dge_max (x : double) :
  valid_binary prec emax x = true -> dge x DBL_MAX = true ->
  x = DBL_MAX \/ x = S754_infinity false.
Proof.
  unfold dge, SFleb, DBL_MAX. intros Hv H.
  destruct x as [s|s| |s m e].
  - destruct s; discriminate.
  - destruct s; [discriminate | now right].
  - discriminate.
  - destruct s; [discriminate|]. left.
    cbn [valid_binary] in Hv. unfold bounded, canonical_mantissa in Hv.
    apply andb_true_iff in Hv. destruct Hv as [Hc He].
    apply Z.eqb_eq in Hc. apply Z.leb_le in He.
    unfold fexp, SpecFloat.emin, prec, emax in Hc, He.
    assert (Hd : Zpos (digits2_pos m) <= 53) by lia.
    pose proof (digits2_value_bound m Hd) as Hm.
    cbn [SFcompare] in H.
    destruct (Z.compare_spec 971 e) as [<-|Hlt|Hgt]; [|lia|discriminate].
    pose proof (Pos.compare_spec (2 ^ 53 - 1)%positive m) as Hcmp.
    unfold Pos.compare in Hcmp.
    destruct Hcmp as [<-|Hlt|Hgt]; [reflexivity | | discriminate].
    exfalso. apply Pos2Z.pos_lt_pos in Hlt.
    change (Zpos (2 ^ 53 - 1)) with (2 ^ 53 - 1) in Hlt. lia.
Qed.

(** X25.  Lines 374-384 of [main] for a threshold at or below 0:
    whatever the null domains are, the domains are filtered with the
    largest finite double, and a domain is kept only if its score is that
    double or positive infinity. *)
Theorem filter_by_fdr_nonpositive (domains domains_false : list GenomicRegion)
    (fdr : double) :
  dle fdr dbl_zero = true ->
  Forall (fun d => valid_binary prec emax (get_score d) = true) domains ->
  filter_by_fdr domains domains_false fdr
  = Done (List.filter (admitted DBL_MAX) domains)
  /\ Forall (fun d => get_score d = DBL_MAX \/ get_score d = S754_infinity false)
            (List.filter (admitted DBL_MAX) domains).
Proof.
  intros H Hvalid. split.
  - unfold filter_by_fdr. rewrite (get_posterior_cutoff_nonpositive _ _ H).
    cbn [obind]. apply filter_domains_spec.
  - rewrite List.Forall_forall in Hvalid |- *. intros d Hd.
    apply List.filter_In in Hd. destruct Hd as [Hin Hd].
    apply dge_max; [now apply Hvalid | exact Hd].
Qed.

Lemma filter_by_fdr_nonpositive_witness :
  (dle dbl_zero dbl_zero = true
   /\ Forall (fun d => valid_binary prec emax (get_score d) = true)
             [scored dbl_one; scored DBL_MAX; scored (double_of_Z 1000)])
  /\ filter_by_fdr [scored dbl_one; scored DBL_MAX; scored (double_of_Z 1000)]
       [] dbl_zero
     = Done (List.filter (admitted DBL_MAX)
               [scored dbl_one; scored DBL_MAX; scored (double_of_Z 1000)])
  /\ Forall (fun d => get_score d = DBL_MAX \/ get_score d = S754_infinity false)
            (List.filter (admitted DBL_MAX)
               [scored dbl_one; scored DBL_MAX; scored (double_of_Z 1000)]).
Proof.
  assert (H1 : dle dbl_zero dbl_zero = true) by reflexivity.
  assert (H2 : Forall (fun d => valid_binary prec emax (get_score d) = true)
                 [scored dbl_one; scored DBL_MAX; scored (double_of_Z 1000)])
    by (repeat constructor).
  split; [exact (conj H1 H2)|].
  exact (filter_by_fdr_nonpositive
           [scored dbl_one; scored DBL_MAX; scored (double_of_Z 1000)] []
           dbl_zero H1 H2).
Defined.

(** ** The stages of main, one after the other *)

(** X26.  Lines 282-287 of [main]: on the three vectors [load_cpgs] has
    filled, whatever the names and levels of the records were,
    [separate_regions] returns; the vectors it leaves have one length, and
    every coverage among them is positive. *)
Theorem load_cpgs_then_separate_regions (check_sorted : list GenomicRegion -> bool)
    (cpgs_file : string) (cpgs_in : list GenomicRegion) (ld : loaded)
    (desert_size : size_t) :
  load_cpgs check_sorted cpgs_file cpgs_in [] [] [] = Done ld ->
  exists sep,
    separate_regions desert_size (ld_cpgs ld) (ld_meth ld) (ld_reads ld) []
      = Done sep
    /\ length (sep_meth sep) = length (sep_cpgs sep)
    /\ length (sep_reads sep) = length (sep_cpgs sep)
    /\ Forall (fun r => 0 < r) (sep_reads sep)
    /\ Forall (fun r => (r < length (sep_cpgs sep))%nat) (sep_reset_points sep).
Proof.
  intros Hrun. unfold load_cpgs in Hrun.
  destruct (negb (check_sorted cpgs_in)); [discriminate|].
  destruct (load_records_shape cpgs_in _ ld Hrun)
    as (meth & reads & -> & Lm & Lr & _ & _).
  cbn [ld_cpgs ld_meth ld_reads app].
  assert (Hm : length meth = length (map simple_of_region cpgs_in))
    by now rewrite length_map.
  assert (Hr : length reads = length (map simple_of_region cpgs_in))
    by now rewrite length_map.
  eexists. split; [now apply separate_regions_spec|].
  cbn [sep_cpgs sep_meth sep_reads sep_reset_points app].
  split; [now apply retained_same_length|].
  split; [now apply retained_same_length|].
  split; [apply retained_positive|].
  apply List.Forall_forall. intros r. apply chain_starts_lt.
Qed.

Lemma load_cpgs_then_separate_regions_witness :
  load_cpgs (fun _ => true) "cpgs.bed" [sample_record; unnumbered_record] [] [] []
  = Done (mkLoaded [site "chr1" 10; site "chr1" 10]
            [(double_of_Z 7, double_of_Z 3); (dbl_zero, dbl_zero)] [10; 0])
  /\ exists sep,
       separate_regions 2000
         (ld_cpgs (mkLoaded [site "chr1" 10; site "chr1" 10]
                     [(double_of_Z 7, double_of_Z 3); (dbl_zero, dbl_zero)] [10; 0]))
         (ld_meth (mkLoaded [site "chr1" 10; site "chr1" 10]
                     [(double_of_Z 7, double_of_Z 3); (dbl_zero, dbl_zero)] [10; 0]))
         (ld_reads (mkLoaded [site "chr1" 10; site "chr1" 10]
                      [(double_of_Z 7, double_of_Z 3); (dbl_zero, dbl_zero)] [10; 0]))
         []
       = Done sep
       /\ length (sep_meth sep) = length (sep_cpgs sep)
       /\ length (sep_reads sep) = length (sep_cpgs sep)
       /\ Forall (fun r => 0 < r) (sep_reads sep)
       /\ Forall (fun r => (r < length (sep_cpgs sep))%nat) (sep_reset_points sep).
Proof.
  assert (H : load_cpgs (fun _ => true) "cpgs.bed"
                [sample_record; unnumbered_record] [] [] []
              = Done (mkLoaded [site "chr1" 10; site "chr1" 10]
                        [(double_of_Z 7, double_of_Z 3); (dbl_zero, dbl_zero)]
                        [10; 0]))
    by reflexivity.
  split; [exact H|].
  exact (load_cpgs_then_separate_regions (fun _ => true) "cpgs.bed"
           [sample_record; unnumbered_record] _ 2000 H).
Defined.

Lemma chain_starts_length (desert_size : size_t) (cpgs : list SimpleGenomicRegion) :
  (length (chain_starts desert_size cpgs) <= length cpgs)%nat.
Proof.
  unfold chain_starts.
  pose proof (filter_length_le (is_boundary desert_size cpgs) (seq 0 (length cpgs))).
  now rewrite length_seq in H.
Qed.

(** X27.  Lines 287 and 351 of [main]: for a desert size below
    [SIZE_MAX] and a table with a covered site, the reset points
    [separate_regions] leaves are what [shuffle_cpg_sites] needs, which
    returns on them and keeps the length of the count vector. *)
Theorem separate_regions_then_shuffle {T : Type} (desert_size : size_t)
    (cpgs : list SimpleGenomicRegion) (meth : list T) (reads : list size_t)
    (rng : Type) (rand : rng -> nat * rng) (g : rng) :
  length meth = length cpgs ->
  length reads = length cpgs ->
  is_size_t (Z.of_nat (length cpgs)) ->
  desert_size < SIZE_MAX ->
  Exists (fun r => 0 < r) reads ->
  exists sep g' meth',
    separate_regions desert_size cpgs meth reads [] = Done sep
    /\ shuffle_cpg_sites rng rand (sep_reset_points sep) (g, sep_meth sep)
       = Done (g', meth')
    /\ length meth' = length (sep_meth sep).
Proof.
  intros Hm Hr Hsize HD Hex.
  set (cpgs' := retained reads cpgs).
  assert (Hne : chain_starts desert_size cpgs' <> []).
  { intros E. pose proof (chain_starts_0 desert_size cpgs' HD) as H0.
    rewrite E in H0. apply H0. apply retained_nonempty; [lia | exact Hex]. }
  assert (Hlen : length (retained reads meth) = length cpgs')
    by now apply retained_same_length.
  assert (Hbound : Forall (fun r => (r <= length (retained reads meth))%nat)
                          (chain_starts desert_size cpgs')).
  { apply List.Forall_forall. intros r Hr'.
    apply chain_starts_lt in Hr'. lia. }
  assert (Hsz : is_size_t (Z.of_nat (length (chain_starts desert_size cpgs')))).
  { pose proof (chain_starts_length desert_size cpgs').
    pose proof (retained_length reads cpgs). fold cpgs' in H0.
    unfold is_size_t in *. lia. }
  destruct (shuffle_cpg_sites_spec rng rand (chain_starts desert_size cpgs')
              (retained reads meth) (chain_starts_sorted desert_size cpgs')
              Hbound g Hne Hsz) as ([g' v'] & Hrun & L & _).
  eexists _, g', v'. split; [now apply separate_regions_spec|].
  cbn [sep_reset_points sep_meth app]. split; [exact Hrun | exact L].
Qed.

Lemma separate_regions_then_shuffle_witness :
  (length sample_meth = length sample_cpgs
   /\ length [10; 0; 10; 10] = length sample_cpgs
   /\ is_size_t (Z.of_nat (length sample_cpgs))
   /\ 2000 < SIZE_MAX
   /\ Exists (fun r => 0 < r) [10; 0; 10; 10])
  /\ exists sep g' meth',
       separate_regions 2000 sample_cpgs sample_meth [10; 0; 10; 10] [] = Done sep
       /\ shuffle_cpg_sites nat lcg_rand (sep_reset_points sep) (1%nat, sep_meth sep)
          = Done (g', meth')
       /\ length meth' = length (sep_meth sep).
Proof.
  assert (H1 : length sample_meth = length sample_cpgs) by reflexivity.
  assert (H2 : length [10; 0; 10; 10] = length sample_cpgs) by reflexivity.
  assert (H3 : is_size_t (Z.of_nat (length sample_cpgs))) by (split; discriminate).
  assert (H4 : 2000 < SIZE_MAX) by reflexivity.
  assert (H5 : Exists (fun r => 0 < r) [10; 0; 10; 10])
    by (apply Exists_cons_hd; reflexivity).
  split; [exact (conj H1 (conj H2 (conj H3 (conj H4 H5))))|].
  exact (separate_regions_then_shuffle 2000 sample_cpgs sample_meth
           [10; 0; 10; 10] nat lcg_rand 1%nat H1 H2 H3 H4 H5).
Defined.

(** X28.  Lines 287 and 344 of [main]: [build_domains] is called with
    the reset points [separate_regions] leaves, which hold no entry for
    the end of the table.  Unless the last retained site starts a chain of
    its own, the call reads [reset_points[reset_idx]] outside the vector
    and does not return. *)
Theorem separate_regions_then_build_domains {T : Type} (toa : nat -> string)
    (init_name : string) (init_score : double) (init_strand : ascii)
    (desert_size : size_t) (cpgs : list SimpleGenomicRegion) (meth : list T)
    (reads : list size_t) (post_scores : list double) (classes : list bool)
    (domains : list GenomicRegion) (sep : separated T) (st : bd_state) :
  length meth = length cpgs ->
  length reads = length cpgs ->
  desert_size < SIZE_MAX ->
  separate_regions desert_size cpgs meth reads [] = Done sep ->
  classes <> [] ->
  length classes = length (sep_cpgs sep) ->
  (forall r, In r (sep_reset_points sep) ->
             r = 0%nat \/ r <> (length classes - 1)%nat) ->
  build_domains toa init_name init_score init_strand (sep_cpgs sep) post_scores
    (sep_reset_points sep) classes domains <> Done st.
Proof.
  intros Hm Hr HD Hsep Hne Hlen Hlast.
  rewrite separate_regions_spec in Hsep by assumption. injection Hsep as <-.
  cbn [sep_cpgs sep_reset_points app] in *.
  apply build_domains_without_sentinel; [|exact Hne|].
  - apply chain_starts_wf; [exact HD|]. intros E. rewrite E in Hlen.
    destruct classes; [congruence | discriminate].
  - apply List.Forall_forall. intros r Hin.
    pose proof (chain_starts_lt _ _ _ Hin) as Hlt.
    destruct (Hlast r Hin) as [->|Hn]; [now right|]. left. lia.
Qed.

Lemma separate_regions_then_build_domains_witness :
  (length sample_meth = length sample_cpgs
   /\ length [10; 10; 10; 0] = length sample_cpgs
   /\ 2000 < SIZE_MAX
   /\ separate_regions 2000 sample_cpgs sample_meth [10; 10; 10; 0] []
      = Done (mkSeparated [site "chr1" 10; site "chr1" 20; site "chr1" 30]
                [(double_of_Z 9, double_of_Z 1); (double_of_Z 8, double_of_Z 2);
                 (double_of_Z 1, double_of_Z 9)]
                [10; 10; 10] [0%nat])
   /\ [true; true; false] <> []
   /\ length [true; true; false]
      = length (sep_cpgs
                  (mkSeparated [site "chr1" 10; site "chr1" 20; site "chr1" 30]
                     [(double_of_Z 9, double_of_Z 1); (double_of_Z 8, double_of_Z 2);
                      (double_of_Z 1, double_of_Z 9)]
                     [10; 10; 10] [0%nat]))
   /\ (forall r,
         In r (sep_reset_points
                 (mkSeparated [site "chr1" 10; site "chr1" 20; site "chr1" 30]
                    [(double_of_Z 9, double_of_Z 1); (double_of_Z 8, double_of_Z 2);
                     (double_of_Z 1, double_of_Z 9)]
                    [10; 10; 10] [0%nat])) ->
         r = 0%nat \/ r <> (length [true; true; false] - 1)%nat))
  /\ build_domains toa_decimal "X" dbl_zero "+"
       (sep_cpgs (mkSeparated [site "chr1" 10; site "chr1" 20; site "chr1" 30]
                    [(double_of_Z 9, double_of_Z 1); (double_of_Z 8, double_of_Z 2);
                     (double_of_Z 1, double_of_Z 9)]
                    [10; 10; 10] [0%nat]))
       sample_scores
       (sep_reset_points
          (mkSeparated [site "chr1" 10; site "chr1" 20; site "chr1" 30]
             [(double_of_Z 9, double_of_Z 1); (double_of_Z 8, double_of_Z 2);
              (double_of_Z 1, double_of_Z 9)]
             [10; 10; 10] [0%nat]))
       [true; true; false] []
     <> Done (bd_init []).
Proof.
  assert (H1 : length sample_meth = length sample_cpgs) by reflexivity.
  assert (H2 : length [10; 10; 10; 0] = length sample_cpgs) by reflexivity.
  assert (H3 : 2000 < SIZE_MAX) by reflexivity.
  assert (H4 : separate_regions 2000 sample_cpgs sample_meth [10; 10; 10; 0] []
               = Done (mkSeparated [site "chr1" 10; site "chr1" 20; site "chr1" 30]
                         [(double_of_Z 9, double_of_Z 1);
                          (double_of_Z 8, double_of_Z 2);
                          (double_of_Z 1, double_of_Z 9)]
                         [10; 10; 10] [0%nat]))
    by reflexivity.
  assert (H5 : [true; true; false] <> []) by discriminate.
  assert (H6 : length [true; true; false]
               = length (sep_cpgs
                           (mkSeparated
                              [site "chr1" 10; site "chr1" 20; site "chr1" 30]
                              [(double_of_Z 9, double_of_Z 1);
                               (double_of_Z 8, double_of_Z 2);
                               (double_of_Z 1, double_of_Z 9)]
                              [10; 10; 10] [0%nat])))
    by reflexivity.
  assert (H7 : forall r,
             In r (sep_reset_points
                     (mkSeparated [site "chr1" 10; site "chr1" 20; site "chr1" 30]
                        [(double_of_Z 9, double_of_Z 1);
                         (double_of_Z 8, double_of_Z 2);
                         (double_of_Z 1, double_of_Z 9)]
                        [10; 10; 10] [0%nat])) ->
             r = 0%nat \/ r <> (length [true; true; false] - 1)%nat).
  { intros r [<-|[]]. now left. }
  split; [exact (conj H1 (conj H2 (conj H3 (conj H4 (conj H5 (conj H6 H7))))))|].
  exact (separate_regions_then_build_domains toa_decimal "X" dbl_zero "+" 2000
           sample_cpgs sample_meth [10; 10; 10; 0] sample_scores
           [true; true; false] [] _ (bd_init []) H1 H2 H3 H4 H5 H6 H7).
Defined.
